(** * d365-event-decorators: binding registry and form event dispatcher

    A shallow embedding of [src/core/Types.ts], [src/core/Registry.ts] and
    [src/core/Dispatcher.ts], followed by the properties of the registry
    (merge, invariants, order independence), of the warning aggregator and
    of the dispatcher.

    Conventions of the embedding:
    - a JavaScript object with optional members is a record whose optional
      fields are [option]s ([None] is "property absent / undefined");
    - arrays are lists; [Array.prototype.find] followed by a mutation of
      the object found is a [list_find] followed by a list update at the
      index found;
    - [Map<Function, _>] keyed by class identity is a [gmap] keyed by a
      class identifier; the insertion-ordered [Map<string, number>] of the
      warning aggregator is an association list;
    - the host form API (package [@sguez/d365-form-helpers]) is not part of
      the repository: it is a parameter ([Host]), and each call made to it
      is recorded in the dispatch state. *)

From Stdlib Require Import String Ascii List Bool Arith Lia.
From stdpp Require Import base decidable option list strings gmap pretty.

(** ** Types.ts *)

Inductive FormEventTypes : Set :=
  | OnLoad | OnDataLoad | Loaded
  | OnSave | OnPostSave
  | OnChange
  | OnLookupTagClick | PreSearch
  | OnTabStateChange | OnTabExpand | OnTabCollapse
  | SubGridOnLoad | SubGridOnRecordSelect
  | OnReadyStateComplete
  | OnProcessStatusChange | OnPreProcessStatusChange
  | OnPreStageChange | OnStageChange | OnStageSelected
  | OnOutputChange
  | OnResultOpened | OnSelection | PostSearch.

#[global] Instance FormEventTypes_eq_dec : EqDecision FormEventTypes.
Proof. solve_decision. Defined.

(** The string value of each member of the string enum. *)
Definition FormEventTypes_value (t : FormEventTypes) : string :=
  match t with
  | OnLoad => "OnLoad" | OnDataLoad => "OnDataLoad" | Loaded => "Loaded"
  | OnSave => "OnSave" | OnPostSave => "OnPostSave"
  | OnChange => "OnChange"
  | OnLookupTagClick => "OnLookupTagClick" | PreSearch => "PreSearch"
  | OnTabStateChange => "OnTabStateChange" | OnTabExpand => "OnTabExpand"
  | OnTabCollapse => "OnTabCollapse"
  | SubGridOnLoad => "SubGridOnLoad"
  | SubGridOnRecordSelect => "SubGridOnRecordSelect"
  | OnReadyStateComplete => "OnReadyStateComplete"
  | OnProcessStatusChange => "OnProcessStatusChange"
  | OnPreProcessStatusChange => "OnPreProcessStatusChange"
  | OnPreStageChange => "OnPreStageChange"
  | OnStageChange => "OnStageChange"
  | OnStageSelected => "OnStageSelected"
  | OnOutputChange => "OnOutputChange"
  | OnResultOpened => "OnResultOpened" | OnSelection => "OnSelection"
  | PostSearch => "PostSearch"
  end.

(** [type GlobalEventType] *)
Definition GlobalEventType (t : FormEventTypes) : bool :=
  match t with
  | OnDataLoad | OnLoad | Loaded | OnSave | OnPostSave
  | OnProcessStatusChange | OnPreProcessStatusChange
  | OnPreStageChange | OnStageChange | OnStageSelected => true
  | _ => false
  end.

(** [type ComponentEventType] *)
Definition ComponentEventType (t : FormEventTypes) : bool :=
  match t with
  | OnChange | OnLookupTagClick | PreSearch
  | OnTabStateChange | OnTabExpand | OnTabCollapse
  | SubGridOnLoad | SubGridOnRecordSelect
  | OnReadyStateComplete | OnOutputChange
  | OnResultOpened | OnSelection | PostSearch => true
  | _ => false
  end.

(** [type EventDetail = GlobalEventDetail | ComponentEventDetail]: an
    object with a [type] and, for component events, a [componentNames]
    array. *)
Record EventDetail : Type := {
  type : FormEventTypes;
  componentNames : option (list string)
}.

#[global] Instance EventDetail_eq_dec : EqDecision EventDetail.
Proof. solve_decision. Defined.

(** [XrmEnum.FormType], the members listed by [FormTypeLabel]. *)
Inductive FormType : Set :=
  | Undefined | Create | Update | ReadOnly | Disabled
  | BulkEdit | QuickCreate | ReadOptimized.

#[global] Instance FormType_eq_dec : EqDecision FormType.
Proof. solve_decision. Defined.

Definition FormTypeLabel (f : FormType) : string :=
  match f with
  | Undefined => "Undefined" | Create => "Create" | Update => "Update"
  | ReadOnly => "ReadOnly" | Disabled => "Disabled"
  | BulkEdit => "BulkEdit" | QuickCreate => "QuickCreate"
  | ReadOptimized => "ReadOptimized"
  end.

Record FormEventDetails : Type := {
  functionName : string;
  formTypes : option (list FormType);
  events : list EventDetail
}.

#[global] Instance FormEventDetails_eq_dec : EqDecision FormEventDetails.
Proof. solve_decision. Defined.

(** ['componentNames' in eventDetail] *)
Definition isComponentEventDetail (eventDetail : EventDetail) : bool :=
  match componentNames eventDetail with Some _ => true | None => false end.

Definition isMatchingComponentEvent
    (eventDetail : EventDetail) (t : FormEventTypes) : bool :=
  bool_decide (type eventDetail = t) && isComponentEventDetail eventDetail.

(** What the declared types of [Types.ts] say of an event detail: an event
    of a component kind carries its names, an event of a global kind does
    not.  The decorators build only such objects. *)
Definition well_typed (e : EventDetail) : Prop :=
  isComponentEventDetail e = ComponentEventType (type e).

#[global] Instance well_typed_dec e : Decision (well_typed e).
Proof. unfold well_typed. apply _. Defined.

(** ** Registry.ts *)

(** The identity of a handler class (a constructor function). *)
Abbreviation ClassId := positive (only parsing).

(** [const eventRegistry = new Map<Function, FormEventDetails[]>()] *)
Abbreviation Registry := (gmap positive (list FormEventDetails)) (only parsing).

Definition getFormEvents (constructor : ClassId) (eventRegistry : Registry)
    : list FormEventDetails :=
  default [] (eventRegistry !! constructor).

Definition mergeUnique {A : Type} `{EqDecision A}
    (existing incoming : list A) : list A :=
  existing ++ filter (λ i, i ∉ existing) incoming.

(** The branch of [upsertFunctionEvent] that handles an event detail when
    the method already has an entry: push the detail if the entry has no
    event of that type, merge the component names when both the event found
    and the incoming one carry names, and do nothing otherwise. *)
Definition upsertEventDetail
    (evs : list EventDetail) (eventDetail : EventDetail) : list EventDetail :=
  match list_find (λ e, type e = type eventDetail) evs with
  | None => evs ++ [eventDetail]
  | Some (j, existingEventForFunctionName) =>
      match componentNames existingEventForFunctionName,
            componentNames eventDetail with
      | Some existingNames, Some incomingNames =>
          <[ j := {| type := type existingEventForFunctionName;
                     componentNames :=
                       Some (mergeUnique existingNames incomingNames) |} ]> evs
      | _, _ => evs
      end
  end.

(** The whole [else] branch: the entry found is updated in place. *)
Definition upsertExisting (formEvent : FormEventDetails)
    (eventDetail : option EventDetail) (formTypes' : option (list FormType))
    : FormEventDetails :=
  {| functionName := functionName formEvent;
     formTypes :=
       match formTypes' with
       | Some incoming =>
           Some (mergeUnique (default [] (formTypes formEvent)) incoming)
       | None => formTypes formEvent
       end;
     events :=
       match eventDetail with
       | Some e => upsertEventDetail (events formEvent) e
       | None => events formEvent
       end |}.

Definition upsertInList (formEvents : list FormEventDetails)
    (fn : string) (eventDetail : option EventDetail)
    (formTypes' : option (list FormType)) : list FormEventDetails :=
  match list_find (λ event, functionName event = fn) formEvents with
  | None =>
      formEvents ++
        [{| functionName := fn;
            formTypes := formTypes';
            events := match eventDetail with Some e => [e] | None => [] end |}]
  | Some (i, formEvent) =>
      <[ i := upsertExisting formEvent eventDetail formTypes' ]> formEvents
  end.

(** [upsertFunctionEvent]; the profiler record it appends to is not part
    of the registry and is left out.  Event details are stored by value:
    every caller in the repository (the decorators) passes a fresh object
    literal, so no detail object is shared between two entries. *)
Definition upsertFunctionEvent (constructor : ClassId) (fn : string)
    (eventDetail : option EventDetail) (formTypes' : option (list FormType))
    (eventRegistry : Registry) : Registry :=
  <[ constructor :=
       upsertInList (getFormEvents constructor eventRegistry)
                    fn eventDetail formTypes' ]> eventRegistry.

(** One call of [upsertFunctionEvent], as data. *)
Record UpsertCall : Type := {
  call_class : ClassId;
  call_method : string;
  call_event : option EventDetail;
  call_formTypes : option (list FormType)
}.

Definition upsert (eventRegistry : Registry) (c : UpsertCall) : Registry :=
  upsertFunctionEvent (call_class c) (call_method c)
                      (call_event c) (call_formTypes c) eventRegistry.

(** A sequence of calls, applied in order. *)
Definition upserts (calls : list UpsertCall) (eventRegistry : Registry)
    : Registry :=
  foldl upsert eventRegistry calls.

(** ** Reading the registry *)

(** [l.find(a => key(a) === k)] as a lookup. *)
Definition lookupBy {A K : Type} `{EqDecision K}
    (key : A → K) (k : K) (l : list A) : option A :=
  snd <$> list_find (λ a, key a = k) l.

(** The entry of method [fn] of class [c], if any. *)
Definition methodBinding (eventRegistry : Registry) (c : ClassId) (fn : string)
    : option FormEventDetails :=
  lookupBy functionName fn (getFormEvents c eventRegistry).

Definition eventKinds (b : FormEventDetails) : list FormEventTypes :=
  type <$> events b.

(** The component names bound to kind [k] in an entry. *)
Definition namesOf (b : FormEventDetails) (k : FormEventTypes) : list string :=
  match lookupBy type k (events b) with
  | Some e => default [] (componentNames e)
  | None => []
  end.

(** Two lists hold the same elements. *)
Definition same_set {A : Type} (l1 l2 : list A) : Prop :=
  ∀ x, x ∈ l1 ↔ x ∈ l2.

(** Two optional filters are both absent, or both set to the same set. *)
Definition same_filter (o1 o2 : option (list FormType)) : Prop :=
  match o1, o2 with
  | None, None => True
  | Some l1, Some l2 => same_set l1 l2
  | _, _ => False
  end.

Definition binding_equiv (b1 b2 : FormEventDetails) : Prop :=
  same_set (eventKinds b1) (eventKinds b2) ∧
  (∀ k, same_set (namesOf b1 k) (namesOf b2 k)) ∧
  same_filter (formTypes b1) (formTypes b2).

(** What one call does to the entry of its method: create it, or update it. *)
Definition upsertBinding (ob : option FormEventDetails) (fn : string)
    (eventDetail : option EventDetail) (formTypes' : option (list FormType))
    : FormEventDetails :=
  match ob with
  | None =>
      {| functionName := fn;
         formTypes := formTypes';
         events := match eventDetail with Some e => [e] | None => [] end |}
  | Some formEvent => upsertExisting formEvent eventDetail formTypes'
  end.

(** ** Invariants of the registry *)

Definition methods_unique (fes : list FormEventDetails) : Prop :=
  NoDup (functionName <$> fes).

Definition kinds_unique (fes : list FormEventDetails) : Prop :=
  Forall (λ fe, NoDup (eventKinds fe)) fes.

Definition names_nodup (e : EventDetail) : Prop :=
  ∀ ns, componentNames e = Some ns → NoDup ns.

Definition names_unique (fes : list FormEventDetails) : Prop :=
  Forall (λ fe, Forall names_nodup (events fe)) fes.

Definition call_names_nodup (c : UpsertCall) : Prop :=
  ∀ e, call_event c = Some e → names_nodup e.

Definition events_well_typed (b : FormEventDetails) : Prop :=
  Forall well_typed (events b).

Definition call_well_typed (c : UpsertCall) : Prop :=
  ∀ e, call_event c = Some e → well_typed e.

(** ** Dispatcher.ts *)

(** *** The host form API

    The package [@sguez/d365-form-helpers] provides the form context (the
    accessors by name and the subscription entry points) and the type
    guards.  [Item] is the type of what the accessors return. *)
Record Host (Item : Type) : Type := {
  getTab : list string → list Item;
  getAttribute : list string → list Item;
  getControl : list string → list Item;
  isAttribute : Item → bool;
  isTabControl : Item → bool;
  isGridControl : Item → bool;
  isIframeControl : Item → bool;
  isKbSearchControl : Item → bool;
  isLookupControl : Item → bool;
  isStandardControl : Item → bool;
  getName : Item → string
}.

Arguments getTab {Item} _ _.
Arguments getAttribute {Item} _ _.
Arguments getControl {Item} _ _.
Arguments isAttribute {Item} _ _.
Arguments isTabControl {Item} _ _.
Arguments isGridControl {Item} _ _.
Arguments isIframeControl {Item} _ _.
Arguments isKbSearchControl {Item} _ _.
Arguments isLookupControl {Item} _ _.
Arguments isStandardControl {Item} _ _.
Arguments getName {Item} _ _.

(** [Xrm.DisplayState] *)
Inductive DisplayState : Set := expanded | collapsed.

#[global] Instance DisplayState_eq_dec : EqDecision DisplayState.
Proof. solve_decision. Defined.

(** The form-level subscriptions taking a handler: the methods of the form
    context named by [applySimpleEvents]'s [eventFunction]. *)
Inductive FormSubscription : Set :=
  | addOnDataLoad | addOnLoad | addLoaded
  | addOnSave | addOnPostSave
  | addOnProcessStatusChange | addOnPreProcessStatusChange
  | addOnPreStageChange | addOnStageChange | addOnStageSelected.

(** The subscriptions taking a list of components and a handler. *)
Inductive BatchSubscription : Set :=
  | addTabStateChange | addOnChange
  | addOnLookupTagClick | addPreSearch
  | addSubGridOnLoad | addSubGridOnRecordSelect
  | addOnReadyStateComplete
  | addOnOutputChange
  | addOnResultOpened | addOnSelection | addOnPostSearch.

#[global] Instance FormSubscription_eq_dec : EqDecision FormSubscription.
Proof. solve_decision. Defined.

#[global] Instance BatchSubscription_eq_dec : EqDecision BatchSubscription.
Proof. solve_decision. Defined.

(** The callbacks the dispatcher hands to the host:
    [instance[functionName].bind(instance)], and the arrow function that
    [_applyOnTabSpecificStateEvents] wraps around it. *)
Inductive Listener : Type :=
  | BoundMethod (fn : string)
  | TabStateListener (authorizedTabDisplayState : DisplayState)
                     (handler : Listener).

#[global] Instance Listener_eq_dec : EqDecision Listener.
Proof. solve_decision. Defined.

(** The method a listener ends up calling. *)
Fixpoint listenerMethod (l : Listener) : string :=
  match l with
  | BoundMethod fn => fn
  | TabStateListener _ handler => listenerMethod handler
  end.

(** What a value [instance[name]] can be, as far as the dispatcher looks:
    falsy (in particular [undefined], no such member), a function, or a
    truthy value that is not a function, such as a number or a string,
    on which [.bind] is [undefined]. *)
Inductive Member : Set := member_falsy | member_function | member_other.

Record Instance : Type := {
  constructor : ClassId;
  constructor_name : string;
  member : string → Member
}.

(** The end of a run: normal, or by the [TypeError] of calling [.bind] on a
    member that has none.  The effects made before the throw stay. *)
Inductive Completion (S : Type) : Type :=
  | Normal (s : S)
  | Throw (s : S).

Arguments Normal {S} s.
Arguments Throw {S} s.

Definition andThen {S : Type} (f g : S → Completion S) (s : S) : Completion S :=
  match f s with
  | Normal s' => g s'
  | Throw s' => Throw s'
  end.

Notation "f >> g" := (andThen f g) (at level 61, left associativity).

(** [for (const x of l) body], where [continue] is [Normal]. *)
Fixpoint forEach {A S : Type}
    (l : list A) (body : A → S → Completion S) (s : S) : Completion S :=
  match l with
  | [] => Normal s
  | x :: l' =>
      match body x s with
      | Normal s' => forEach l' body s'
      | Throw s' => Throw s'
      end
  end.

(** The double quote character of the messages. *)
Definition dquote : string := String (ascii_of_nat 34) EmptyString.

(** [names.join(', ')] *)
Definition join (names : list string) : string := String.concat ", " names.

(** *** Incoming events, for the listeners *)

(** What a listener reads of an event: [getEventSource()] of the form
    context derived from it, and [getDisplayState()] of a tab. *)
Record EventContext (Item : Type) : Type := {
  getEventSource : option Item;
  getDisplayState : Item → DisplayState
}.

Arguments getEventSource {Item} _.
Arguments getDisplayState {Item} _ _.

(** Running a listener on an event: the user methods it calls. *)
Fixpoint fire {Item : Type} (l : Listener) (executionContext : EventContext Item)
    : list string :=
  match l with
  | BoundMethod fn => [fn]
  | TabStateListener authorizedTabDisplayState handler =>
      match getEventSource executionContext with
      | Some tabControl =>
          if bool_decide (getDisplayState executionContext tabControl
                          = authorizedTabDisplayState)
          then fire handler executionContext
          else []
      | None => []
      end
  end.

(** *** State of a dispatch *)

(** A call made to the host. *)
Inductive HostCall (Item : Type) : Type :=
  | FormCall (op : FormSubscription) (handler : Listener)
  | BatchCall (op : BatchSubscription) (items : list Item) (handler : Listener)
  | TabCall (tabControl : Item) (listener : Listener).

Arguments FormCall {Item} op handler.
Arguments BatchCall {Item} op items handler.
Arguments TabCall {Item} tabControl listener.

Definition callListener {Item : Type} (c : HostCall Item) : Listener :=
  match c with
  | FormCall _ h | BatchCall _ _ h | TabCall _ h => h
  end.

(** [warningCounts], the calls made to the host so far, and the lines given
    to [warnMessage] so far.  [warnMessage] comes from [utils/logger], which
    is not among the sources; what it does with a line is outside the
    dispatcher, so each call is recorded with its argument. *)
Record DispatchState (Item : Type) : Type := {
  warningCounts : list (string * nat);
  hostCalls : list (HostCall Item);
  warned : list string
}.

Arguments warningCounts {Item} _.
Arguments hostCalls {Item} _.
Arguments warned {Item} _.

(** [Map.prototype.get] and [set] on the insertion-ordered map: [set] keeps
    the position of a key already present and appends a new one. *)
Definition map_get (m : list (string * nat)) (k : string) : option nat :=
  snd <$> lookupBy fst k m.

Definition map_set (m : list (string * nat)) (k : string) (v : nat)
    : list (string * nat) :=
  match list_find (λ p, fst p = k) m with
  | Some (i, _) => <[ i := (k, v) ]> m
  | None => m ++ [(k, v)]
  end.

Definition countWarning (message : string) (m : list (string * nat))
    : list (string * nat) :=
  let count := default 0 (map_get m message) in
  map_set m message (count + 1).

(** The line [flushGroupedWarnings] gives to [warnMessage] for an entry. *)
Definition warningLine (entry : string * nat) : string :=
  let '(msg, count) := entry in
  let prefix := if 1 <? count then "(" +:+ pretty count +:+ "x)"
                else EmptyString in
  prefix +:+ " " +:+ msg.

Section dispatcher.
Context {Item : Type}.
Implicit Types s : DispatchState Item.

Definition logGroupedWarning (message : string) s : DispatchState Item :=
  {| warningCounts := countWarning message (warningCounts s);
     hostCalls := hostCalls s;
     warned := warned s |}.

Definition flushGroupedWarnings s : DispatchState Item :=
  {| warningCounts := [];
     hostCalls := hostCalls s;
     warned := warned s ++ (warningLine <$> warningCounts s) |}.

Definition callHost (c : HostCall Item) s : DispatchState Item :=
  {| warningCounts := warningCounts s;
     hostCalls := hostCalls s ++ [c];
     warned := warned s |}.

Definition isFormTypeAuthorized
    (formTypes' : option (list FormType)) (currentFormType : FormType) : bool :=
  match formTypes' with
  | None => true
  | Some l => (length l =? 0) || bool_decide (currentFormType ∈ l)
  end.

Definition validateHandlers (instance : Instance)
    (handlers : list FormEventDetails) s : DispatchState Item :=
  let formUnknownEvents :=
    functionName <$> filter (λ h, length (events h) = 0) handlers in
  if 0 <? length formUnknownEvents then
    logGroupedWarning
      ("[D365FormEventDispatcher] " +:+ constructor_name instance +:+
       ".validateHandlers - Method" +:+
       (if 1 <? length formUnknownEvents then "s" else EmptyString) +:+
       " " +:+ dquote +:+ join formUnknownEvents +:+ dquote +:+
       " has @FormTypes but no events.") s
  else s.

(** [handlers.filter(h => h.events.find(e => e.type === eventType))] *)
Definition handlersOf (handlers : list FormEventDetails)
    (eventType : FormEventTypes) : list FormEventDetails :=
  filter (λ h, is_Some (lookupBy type eventType (events h))) handlers.

Definition applySimpleEvents (instance : Instance)
    (handlers : list FormEventDetails) (formType : FormType)
    (eventType : FormEventTypes) (eventFunction : FormSubscription)
    : DispatchState Item → Completion (DispatchState Item) :=
  forEach (handlersOf handlers eventType) (λ formEvent s,
    if negb (isFormTypeAuthorized (formTypes formEvent) formType)
    then Normal s
    else match member instance (functionName formEvent) with
         | member_falsy => Normal s
         | member_other => Throw s
         | member_function =>
             let functionBindToInstance :=
               BoundMethod (functionName formEvent) in
             Normal (callHost (FormCall eventFunction functionBindToInstance) s)
         end).

Definition notFoundMessage (instance : Instance)
    (unfoundItemNames : list string) (eventType : FormEventTypes)
    (fn : string) (formType : FormType) : string :=
  "[D365FormEventDispatcher] " +:+ constructor_name instance +:+
  " - Attribute" +:+
  (if 1 <? length unfoundItemNames then "s" else EmptyString) +:+
  " " +:+ dquote +:+ join unfoundItemNames +:+ dquote +:+
  " not found or not applicable for event " +:+
  dquote +:+ FormEventTypes_value eventType +:+ dquote +:+
  " on function " +:+ dquote +:+ fn +:+ dquote +:+
  " and form type " +:+ FormTypeLabel formType +:+ ".".

(** The body of the inner loop of [applyComponentEvents], for one event
    detail of the method. *)
Definition applyComponentEvent (instance : Instance) (formType : FormType)
    (eventType : FormEventTypes)
    (getItems : list string → list Item)
    (itemTypeChecker : Item → bool)
    (getItemName : Item → string)
    (register : list Item → Listener → DispatchState Item → DispatchState Item)
    (fn : string) (functionBindToInstance : Listener)
    (event : EventDetail) s : DispatchState Item :=
  let formItemNames := default [] (componentNames event) in
  let items := filter (λ item, itemTypeChecker item) (getItems formItemNames) in
  let s1 := register items functionBindToInstance s in
  let foundItemNames := getItemName <$> items in
  let unfoundItemNames :=
    filter (λ itemName, itemName ∉ foundItemNames) formItemNames in
  if 0 <? length unfoundItemNames then
    logGroupedWarning
      (notFoundMessage instance unfoundItemNames eventType fn formType) s1
  else s1.

Definition applyComponentEvents (instance : Instance)
    (handlers : list FormEventDetails) (formType : FormType)
    (eventType : FormEventTypes)
    (getItems : list string → list Item)
    (itemTypeChecker : Item → bool)
    (getItemName : Item → string)
    (register : list Item → Listener → DispatchState Item → DispatchState Item)
    : DispatchState Item → Completion (DispatchState Item) :=
  forEach (handlersOf handlers eventType) (λ formEvent s,
    if negb (isFormTypeAuthorized (formTypes formEvent) formType)
    then Normal s
    else match member instance (functionName formEvent) with
         | member_falsy => Normal s
         | member_other => Throw s
         | member_function =>
             let functionBindToInstance :=
               BoundMethod (functionName formEvent) in
             forEach
               (filter (λ eventDetail,
                          isMatchingComponentEvent eventDetail eventType)
                       (events formEvent))
               (λ event s,
                  Normal (applyComponentEvent instance formType eventType
                            getItems itemTypeChecker getItemName register
                            (functionName formEvent) functionBindToInstance
                            event s))
               s
         end).

(** [(formContext, items, handler) => formContext.op(items, handler)] *)
Definition registerBatch (op : BatchSubscription)
    (items : list Item) (handler : Listener) s : DispatchState Item :=
  callHost (BatchCall op items handler) s.

(** The [register] of [_applyOnTabSpecificStateEvents]: each tab gets, by
    its own [addTabStateChange], a listener around the handler. *)
Definition registerTabSpecific (authorizedTabDisplayState : DisplayState)
    (items : list Item) (handler : Listener) s : DispatchState Item :=
  foldl (λ s tabControl,
           callHost (TabCall tabControl
                       (TabStateListener authorizedTabDisplayState handler)) s)
        s items.

Section with_host.
Context (formContext : Host Item) (instance : Instance)
        (handlers : list FormEventDetails) (formType : FormType).

Definition applyOnDataLoadEvents :=
  applySimpleEvents instance handlers formType OnDataLoad addOnDataLoad.
Definition applyOnLoadEvents :=
  applySimpleEvents instance handlers formType OnLoad addOnLoad.
Definition applyLoadedEvents :=
  applySimpleEvents instance handlers formType Loaded addLoaded.

Definition applyOnSaveEvents :=
  applySimpleEvents instance handlers formType OnSave addOnSave.
Definition applyOnPostSaveEvents :=
  applySimpleEvents instance handlers formType OnPostSave addOnPostSave.

Definition applyOnTabStateChangeEvents :=
  applyComponentEvents instance handlers formType OnTabStateChange
    (getTab formContext) (isTabControl formContext) (getName formContext)
    (registerBatch addTabStateChange).

Definition _applyOnTabSpecificStateEvents (eventType : FormEventTypes)
    (authorizedTabDisplayState : DisplayState) :=
  applyComponentEvents instance handlers formType eventType
    (getTab formContext) (isTabControl formContext) (getName formContext)
    (registerTabSpecific authorizedTabDisplayState).

Definition applyOnTabExpandEvents :=
  _applyOnTabSpecificStateEvents OnTabExpand expanded.
Definition applyOnTabCollapseEvents :=
  _applyOnTabSpecificStateEvents OnTabCollapse collapsed.

Definition applyOnChangeEvents :=
  applyComponentEvents instance handlers formType OnChange
    (getAttribute formContext) (isAttribute formContext)
    (getName formContext) (registerBatch addOnChange).

Definition applyOnLookupTagClickEvents :=
  applyComponentEvents instance handlers formType OnLookupTagClick
    (getControl formContext) (isLookupControl formContext)
    (getName formContext) (registerBatch addOnLookupTagClick).
Definition applyPreSearchEvents :=
  applyComponentEvents instance handlers formType PreSearch
    (getControl formContext) (isLookupControl formContext)
    (getName formContext) (registerBatch addPreSearch).

Definition applySubGridOnLoadEvents :=
  applyComponentEvents instance handlers formType SubGridOnLoad
    (getControl formContext) (isGridControl formContext)
    (getName formContext) (registerBatch addSubGridOnLoad).
Definition applySubGridOnRecordSelectEvents :=
  applyComponentEvents instance handlers formType SubGridOnRecordSelect
    (getControl formContext) (isGridControl formContext)
    (getName formContext) (registerBatch addSubGridOnRecordSelect).

Definition applyOnReadyStateCompleteEvents :=
  applyComponentEvents instance handlers formType OnReadyStateComplete
    (getControl formContext) (isIframeControl formContext)
    (getName formContext) (registerBatch addOnReadyStateComplete).

Definition applyOnProcessStatusChangeEvents :=
  applySimpleEvents instance handlers formType
    OnProcessStatusChange addOnProcessStatusChange.
Definition applyOnPreProcessStatusChangeEvents :=
  applySimpleEvents instance handlers formType
    OnPreProcessStatusChange addOnPreProcessStatusChange.
Definition applyOnPreStageChangeEvents :=
  applySimpleEvents instance handlers formType
    OnPreStageChange addOnPreStageChange.
Definition applyOnStageChangeEvents :=
  applySimpleEvents instance handlers formType
    OnStageChange addOnStageChange.
Definition applyOnStageSelectedEvents :=
  applySimpleEvents instance handlers formType
    OnStageSelected addOnStageSelected.

(** As in the source, the event type passed here is
    [FormEventTypes.OnReadyStateComplete]. *)
Definition applyOnOutputChangeEvents :=
  applyComponentEvents instance handlers formType OnReadyStateComplete
    (getControl formContext) (isStandardControl formContext)
    (getName formContext) (registerBatch addOnOutputChange).

Definition applyOnResultOpenedEvents :=
  applyComponentEvents instance handlers formType OnResultOpened
    (getControl formContext) (isKbSearchControl formContext)
    (getName formContext) (registerBatch addOnResultOpened).
Definition applyOnSelectionEvents :=
  applyComponentEvents instance handlers formType OnSelection
    (getControl formContext) (isKbSearchControl formContext)
    (getName formContext) (registerBatch addOnSelection).
Definition applyPostSearchEvents :=
  applyComponentEvents instance handlers formType PostSearch
    (getControl formContext) (isKbSearchControl formContext)
    (getName formContext) (registerBatch addOnPostSearch).
End with_host.

(** [FormEventDispatcher.apply]; [formContext] is what
    [ContextProvider.from(executionContext)] returns. *)
Definition apply (eventRegistry : Registry) (instance : Instance)
    (formContext : Host Item) (formType : FormType)
    : DispatchState Item → Completion (DispatchState Item) :=
  let formEvents := getFormEvents (constructor instance) eventRegistry in
  (λ s, Normal (validateHandlers instance formEvents s))

  >> applyOnDataLoadEvents instance formEvents formType
  >> applyOnLoadEvents instance formEvents formType
  >> applyLoadedEvents instance formEvents formType

  >> applyOnSaveEvents instance formEvents formType
  >> applyOnPostSaveEvents instance formEvents formType

  >> applyOnTabStateChangeEvents formContext instance formEvents formType
  >> applyOnTabExpandEvents formContext instance formEvents formType
  >> applyOnTabCollapseEvents formContext instance formEvents formType

  >> applyOnChangeEvents formContext instance formEvents formType

  >> applyOnLookupTagClickEvents formContext instance formEvents formType
  >> applyPreSearchEvents formContext instance formEvents formType

  >> applySubGridOnLoadEvents formContext instance formEvents formType
  >> applySubGridOnRecordSelectEvents formContext instance formEvents formType

  >> applyOnReadyStateCompleteEvents formContext instance formEvents formType

  >> applyOnProcessStatusChangeEvents instance formEvents formType
  >> applyOnPreProcessStatusChangeEvents instance formEvents formType
  >> applyOnPreStageChangeEvents instance formEvents formType
  >> applyOnStageChangeEvents instance formEvents formType
  >> applyOnStageSelectedEvents instance formEvents formType

  >> applyOnOutputChangeEvents formContext instance formEvents formType

  >> applyOnResultOpenedEvents formContext instance formEvents formType
  >> applyOnSelectionEvents formContext instance formEvents formType
  >> applyPostSearchEvents formContext instance formEvents formType

  >> (λ s, Normal (flushGroupedWarnings s)).

(** The 23 steps of [apply] between validation and flush, in order. *)
Definition dispatchSteps (formContext : Host Item) (instance : Instance)
    (handlers : list FormEventDetails) (formType : FormType)
    : list (DispatchState Item → Completion (DispatchState Item)) :=
  [ applyOnDataLoadEvents instance handlers formType;
    applyOnLoadEvents instance handlers formType;
    applyLoadedEvents instance handlers formType;
    applyOnSaveEvents instance handlers formType;
    applyOnPostSaveEvents instance handlers formType;
    applyOnTabStateChangeEvents formContext instance handlers formType;
    applyOnTabExpandEvents formContext instance handlers formType;
    applyOnTabCollapseEvents formContext instance handlers formType;
    applyOnChangeEvents formContext instance handlers formType;
    applyOnLookupTagClickEvents formContext instance handlers formType;
    applyPreSearchEvents formContext instance handlers formType;
    applySubGridOnLoadEvents formContext instance handlers formType;
    applySubGridOnRecordSelectEvents formContext instance handlers formType;
    applyOnReadyStateCompleteEvents formContext instance handlers formType;
    applyOnProcessStatusChangeEvents instance handlers formType;
    applyOnPreProcessStatusChangeEvents instance handlers formType;
    applyOnPreStageChangeEvents instance handlers formType;
    applyOnStageChangeEvents instance handlers formType;
    applyOnStageSelectedEvents instance handlers formType;
    applyOnOutputChangeEvents formContext instance handlers formType;
    applyOnResultOpenedEvents formContext instance handlers formType;
    applyOnSelectionEvents formContext instance handlers formType;
    applyPostSearchEvents formContext instance handlers formType ].
End dispatcher.

(** A dispatch state with nothing queued, no call made and no line logged. *)
Definition idle {Item : Type} : DispatchState Item :=
  {| warningCounts := []; hostCalls := []; warned := [] |}.

(** ** Auxiliary definitions for the proofs *)

(** The event of the incoming kind after [upsertEventDetail]. *)
Definition mergedEvent (existing : option EventDetail) (e : EventDetail)
    : EventDetail :=
  match existing with
  | None => e
  | Some ex =>
      match componentNames ex, componentNames e with
      | Some a, Some b =>
          {| type := type ex; componentNames := Some (mergeUnique a b) |}
      | _, _ => ex
      end
  end.

(** The entry a call creates when its method has none. *)
Definition newBinding (fn : string) (eventDetail : option EventDetail)
    (formTypes' : option (list FormType)) : FormEventDetails :=
  {| functionName := fn;
     formTypes := formTypes';
     events := match eventDetail with Some e => [e] | None => [] end |}.

Definition targets (c : ClassId) (fn : string) (call : UpsertCall) : Prop :=
  call_class call = c ∧ call_method call = fn.

(** The entry of the method after a sequence of calls that all target it,
    from the entry before. *)
Definition bindingAfter (fn : string) (calls : list UpsertCall)
    (ob : option FormEventDetails) : option FormEventDetails :=
  foldl (λ ob call,
           Some (upsertBinding ob fn (call_event call) (call_formTypes call)))
        ob calls.

(** Membership in the kinds, names and form types of an optional entry. *)
Definition hasKind (ob : option FormEventDetails) (k : FormEventTypes) : Prop :=
  ∃ b, ob = Some b ∧ k ∈ eventKinds b.

Definition hasName (ob : option FormEventDetails)
    (k : FormEventTypes) (n : string) : Prop :=
  ∃ b, ob = Some b ∧ n ∈ namesOf b k.

Definition hasFilter (ob : option FormEventDetails) : Prop :=
  ∃ b, ob = Some b ∧ is_Some (formTypes b).

Definition hasFormType (ob : option FormEventDetails) (f : FormType) : Prop :=
  ∃ b l, ob = Some b ∧ formTypes b = Some l ∧ f ∈ l.

Definition callHasKind (call : UpsertCall) (k : FormEventTypes) : Prop :=
  ∃ e, call_event call = Some e ∧ type e = k.

Definition callHasName (call : UpsertCall)
    (k : FormEventTypes) (n : string) : Prop :=
  ∃ e ns, call_event call = Some e ∧ type e = k ∧
          componentNames e = Some ns ∧ n ∈ ns.

Definition callHasFormType (call : UpsertCall) (f : FormType) : Prop :=
  ∃ l, call_formTypes call = Some l ∧ f ∈ l.

(** The event details of an entry of kinds other than [skip], and what a
    call made with an event detail of kind [skip] for another method leaves
    of an entry whatever objects the caller shares: the method name, the
    form types, the kinds and the details of the other kinds. *)
Definition detailsExcept (skip : option FormEventTypes) (h : FormEventDetails)
    : list EventDetail :=
  filter (λ e, Some (type e) ≠ skip) (events h).

Definition entryView (skip : option FormEventTypes) (h : FormEventDetails)
    : string * option (list FormType) * list FormEventTypes * list EventDetail :=
  (functionName h, formTypes h, eventKinds h, detailsExcept skip h).

(** An event list has taken an event detail in: it holds an event of the
    detail's kind and, when both carry names, every name of the detail. *)
Definition absorbsEvent (evs : list EventDetail) (e : EventDetail) : Prop :=
  ∃ j ex, list_find (λ e0, type e0 = type e) evs = Some (j, ex) ∧
          ∀ a b, componentNames ex = Some a → componentNames e = Some b →
                 ∀ x, x ∈ b → x ∈ a.

(** An entry has taken the arguments of a call in. *)
Definition absorbs (b : FormEventDetails) (eventDetail : option EventDetail)
    (formTypes' : option (list FormType)) : Prop :=
  (∀ e, eventDetail = Some e → absorbsEvent (events b) e) ∧
  (∀ inc, formTypes' = Some inc →
     ∃ l, formTypes b = Some l ∧ ∀ x, x ∈ inc → x ∈ l).

(** The registry has taken a call in. *)
Definition applied (r : Registry) (call : UpsertCall) : Prop :=
  ∃ b, methodBinding r (call_class call) (call_method call) = Some b ∧
       absorbs b (call_event call) (call_formTypes call).

(** The distinct messages of a sequence, in the order of their first
    occurrence, and the number of occurrences of a message. *)
Definition firstSeen (msgs : list string) : list string :=
  reverse (remove_dups (reverse msgs)).

Definition occurrences (m : string) (msgs : list string) : nat :=
  length (filter (λ x, x = m) msgs).

(** A sequence of [logGroupedWarning] calls. *)
Definition logAll {Item : Type} (msgs : list string) (s : DispatchState Item)
    : DispatchState Item :=
  foldl (λ s m, logGroupedWarning m s) s msgs.

(** Every counter of [before] is still in [after], with a count that is
    not smaller. *)
Definition countersGrow (before after : list (string * nat)) : Prop :=
  ∀ m n, map_get before m = Some n →
         ∃ n', map_get after m = Some n' ∧ n ≤ n'.

(** The state a run ends in, normally or not. *)
Definition final {S : Type} (c : Completion S) : S :=
  match c with Normal s | Throw s => s end.

(** From [s] to [s'] the host received more calls, all satisfying [P], and
    no call was taken back. *)
Definition addsCalls {Item : Type} (P : HostCall Item → Prop)
    (s s' : DispatchState Item) : Prop :=
  ∃ new, hostCalls s' = hostCalls s ++ new ∧ Forall P new.

(** The entry without its form type filter. *)
Definition unfiltered (h : FormEventDetails) : FormEventDetails :=
  {| functionName := functionName h; formTypes := None; events := events h |}.

(** The form-level subscription that [apply] uses for a global kind. *)
Definition globalSubscription (k : FormEventTypes) : option FormSubscription :=
  match k with
  | OnDataLoad => Some addOnDataLoad
  | OnLoad => Some addOnLoad
  | Loaded => Some addLoaded
  | OnSave => Some addOnSave
  | OnPostSave => Some addOnPostSave
  | OnProcessStatusChange => Some addOnProcessStatusChange
  | OnPreProcessStatusChange => Some addOnPreProcessStatusChange
  | OnPreStageChange => Some addOnPreStageChange
  | OnStageChange => Some addOnStageChange
  | OnStageSelected => Some addOnStageSelected
  | _ => None
  end.

(** A call made on account of an event of kind [k] of an entry of
    [handlers] that passes the form type filter and names a function of the
    instance. *)
Definition callForKind {Item : Type} (instance : Instance)
    (handlers : list FormEventDetails) (formType : FormType)
    (k : FormEventTypes) (c : HostCall Item) : Prop :=
  ∃ h, h ∈ handlers ∧ k ∈ eventKinds h ∧
       isFormTypeAuthorized (formTypes h) formType = true ∧
       member instance (functionName h) = member_function ∧
       listenerMethod (callListener c) = functionName h.

(** A call made on account of an event of some kind other than
    [OnOutputChange]. *)
Definition callFor {Item : Type} (instance : Instance)
    (handlers : list FormEventDetails) (formType : FormType)
    (c : HostCall Item) : Prop :=
  ∃ k, k ≠ OnOutputChange ∧ callForKind instance handlers formType k c.


(** The method names that [validateHandlers] reports: those of the entries
    without events. *)
Definition eventlessNames (handlers : list FormEventDetails) : list string :=
  functionName <$> filter (λ h, events h = []) handlers.

(** The message of [validateHandlers] for the methods [names]. *)
Definition noEventsMessage (instance : Instance) (names : list string) : string :=
  "[D365FormEventDispatcher] " +:+ constructor_name instance +:+
  ".validateHandlers - Method" +:+
  (if decide (1 < length names) then "s" else EmptyString) +:+
  " " +:+ dquote +:+ join names +:+ dquote +:+
  " has @FormTypes but no events.".

(** ** Example data *)

Module Examples.
(** Two decorators on one method, the way
    [@D365Event.Column.OnChange("firstname")] and
    [@D365Event.Column.OnChange("lastname")] with
    [@D365Event.Filter.FormTypes(Create)] call the registry. *)
Definition onChangeFirst : UpsertCall :=
  {| call_class := 1%positive; call_method := "onNameChange";
     call_event := Some {| type := OnChange;
                           componentNames := Some ["firstname"] |};
     call_formTypes := None |}.

Definition onChangeLast : UpsertCall :=
  {| call_class := 1%positive; call_method := "onNameChange";
     call_event := Some {| type := OnChange;
                           componentNames := Some ["lastname"] |};
     call_formTypes := Some [Create] |}.

(** [@D365Event.Column.OnChange("firstname", "firstname")] *)
Definition onChangeTwice : UpsertCall :=
  {| call_class := 1%positive; call_method := "onNameChange";
     call_event := Some {| type := OnChange;
                           componentNames := Some ["firstname"; "firstname"] |};
     call_formTypes := None |}.

(** A form layout as a list of named components, and the host API over it:
    an accessor returns, for each requested name in turn, the components
    of its family that bear the name. *)
Inductive ControlKind : Set :=
  | attributeKind | tabKind | gridKind | iframeKind
  | kbSearchKind | lookupKind | standardKind.

#[global] Instance ControlKind_eq_dec : EqDecision ControlKind.
Proof. solve_decision. Defined.

Record Control : Type := { controlName : string; controlKind : ControlKind }.

#[global] Instance Control_eq_dec : EqDecision Control.
Proof. solve_decision. Defined.

Definition resolve (layout : list Control) (names : list string)
    : list Control :=
  names ≫= (λ n, filter (λ c, controlName c = n) layout).

Definition formOf (layout : list Control) : Host Control :=
  {| getTab := resolve (filter (λ c, controlKind c = tabKind) layout);
     getAttribute :=
       resolve (filter (λ c, controlKind c = attributeKind) layout);
     getControl :=
       resolve (filter (λ c, controlKind c ≠ tabKind ∧
                             controlKind c ≠ attributeKind) layout);
     isAttribute c := bool_decide (controlKind c = attributeKind);
     isTabControl c := bool_decide (controlKind c = tabKind);
     isGridControl c := bool_decide (controlKind c = gridKind);
     isIframeControl c := bool_decide (controlKind c = iframeKind);
     isKbSearchControl c := bool_decide (controlKind c = kbSearchKind);
     isLookupControl c := bool_decide (controlKind c = lookupKind);
     isStandardControl c := bool_decide (controlKind c = standardKind);
     getName := controlName |}.

(** An instance of class [c] whose function members are [methods] and whose
    truthy members that are not functions are [others]. *)
Definition instanceOf (c : ClassId) (name : string)
    (methods others : list string) : Instance :=
  {| constructor := c;
     constructor_name := name;
     member fn := if decide (fn ∈ methods) then member_function
                  else if decide (fn ∈ others) then member_other
                  else member_falsy |}.

Definition componentCall (fn : string) (k : FormEventTypes)
    (names : list string) : UpsertCall :=
  {| call_class := 1%positive; call_method := fn;
     call_event := Some {| type := k; componentNames := Some names |};
     call_formTypes := None |}.

Definition globalCall (fn : string) (k : FormEventTypes) : UpsertCall :=
  {| call_class := 1%positive; call_method := fn;
     call_event := Some {| type := k; componentNames := None |};
     call_formTypes := None |}.

Definition filterCall (fn : string) (l : list FormType) : UpsertCall :=
  {| call_class := 1%positive; call_method := fn;
     call_event := None; call_formTypes := Some l |}.

(** The PCF example of the README:
    [@D365Event.PCF.OnOutputChange("pcf_currency")] on [onPcfOutputChange]. *)
Definition pcfRegistry : Registry :=
  upserts [componentCall "onPcfOutputChange" OnOutputChange ["pcf_currency"]] ∅.
Definition pcfHandler : Instance :=
  instanceOf 1%positive "PCFExamples" ["onPcfOutputChange"] [].
Definition pcfControl : Control :=
  {| controlName := "pcf_currency"; controlKind := standardKind |}.

(** [@D365Event.IFrame.OnReadyStateComplete("IFRAME_map")] on [onFrameReady]. *)
Definition frameRegistry : Registry :=
  upserts [componentCall "onFrameReady" OnReadyStateComplete ["IFRAME_map"]] ∅.
Definition frameHandler : Instance :=
  instanceOf 1%positive "IFrameExamples" ["onFrameReady"] [].
Definition frameControl : Control :=
  {| controlName := "IFRAME_map"; controlKind := iframeKind |}.

(** Names [a], [b], [c] of which only [a] is on the form. *)
Definition partialRegistry (k : FormEventTypes) : Registry :=
  upserts [componentCall "onEvent" k ["a"; "b"; "c"]] ∅.
Definition partialHandler : Instance :=
  instanceOf 1%positive "Handler" ["onEvent"] [].
Definition controlA (kind : ControlKind) : Control :=
  {| controlName := "a"; controlKind := kind |}.

(** A registered name that is a truthy member but not a function. *)
Definition totalRegistry : Registry := upserts [globalCall "total" OnLoad] ∅.
Definition totalHandler : Instance :=
  instanceOf 1%positive "Totals" [] ["total"].
Definition ghostHandler : Instance :=
  instanceOf 1%positive "Totals" [] [].

(** [@D365Event.Form.OnLoad()] with
    [@D365Event.Filter.FormTypes(Create, Update)] on [onLoad]. *)
Definition filteredRegistry : Registry :=
  upserts [globalCall "onLoad" OnLoad; filterCall "onLoad" [Create; Update]] ∅.
Definition filteredBinding : FormEventDetails :=
  {| functionName := "onLoad";
     formTypes := Some [Create; Update];
     events := [ {| type := OnLoad; componentNames := None |} ] |}.
Definition filteredHandler : Instance :=
  instanceOf 1%positive "Handler" ["onLoad"] [].

(** [@D365Event.Tab.OnExpand("T1")] on [onExpand]. *)
Definition tabRegistry : Registry :=
  upserts [componentCall "onExpand" OnTabExpand ["T1"]] ∅.
Definition tabHandler : Instance :=
  instanceOf 1%positive "Tabs" ["onExpand"] [].
Definition tabT1 : Control := {| controlName := "T1"; controlKind := tabKind |}.
Definition stateChange (st : DisplayState) : EventContext Control :=
  {| getEventSource := Some tabT1; getDisplayState := λ _, st |}.

(** [@D365Event.PCF.OnOutputChange("pcf_currency")] with
    [@D365Event.Filter.FormTypes(Create, Update)] on [onPcfOutputChange],
    and the same filter with [@D365Event.Column.OnChange("firstname")] on
    [onNameChange]. *)
Definition pcfFilteredRegistry : Registry :=
  upserts [componentCall "onPcfOutputChange" OnOutputChange ["pcf_currency"];
           filterCall "onPcfOutputChange" [Create; Update]] ∅.
Definition changeFilteredRegistry : Registry :=
  upserts [componentCall "onNameChange" OnChange ["firstname"];
           filterCall "onNameChange" [Create; Update]] ∅.
Definition changeHandler : Instance :=
  instanceOf 1%positive "Handler" ["onNameChange"] [].
Definition firstnameAttribute : Control :=
  {| controlName := "firstname"; controlKind := attributeKind |}.

(** A class whose dispatch stops in its last but one step: [total] is a
    truthy member that is not a function. *)
Definition brokenRegistry : Registry :=
  upserts [globalCall "onData" OnDataLoad;
           componentCall "onName" OnChange ["firstname"; "missing"];
           componentCall "total" OnSelection ["kb"];
           componentCall "late" PostSearch ["kb"]] ∅.
Definition brokenHandler : Instance :=
  instanceOf 1%positive "Handler" ["onData"; "onName"; "late"] ["total"].
Definition kbControl : Control :=
  {| controlName := "kb"; controlKind := kbSearchKind |}.
Definition brokenState : DispatchState Control :=
  {| warningCounts :=
       [(notFoundMessage brokenHandler ["missing"] OnChange "onName" Create,
         1)];
     hostCalls :=
       [FormCall addOnDataLoad (BoundMethod "onData");
        BatchCall addOnChange [firstnameAttribute] (BoundMethod "onName")];
     warned := [] |}.

(** Two methods that only have [@D365Event.Filter.FormTypes], and an
    instance without members. *)
Definition eventlessRegistry : Registry :=
  upserts [filterCall "first" [Create]; filterCall "second" []] ∅.
Definition plainHandler : Instance :=
  instanceOf 1%positive "Handler" [] [].
End Examples.

(** ** The decorators ([D365Event]) *)

(** A method decorator receives the prototype, whose [constructor] is the
    class, and the property key, and acts on the registry. *)
Definition upsertSimpleEvent (formType : FormEventTypes)
    (target : ClassId) (propertyKey : string)
    (eventRegistry : Registry) : Registry :=
  upsertFunctionEvent target propertyKey
    (Some {| type := formType; componentNames := None |}) None eventRegistry.

Definition upsertComponentEvent (formType : FormEventTypes)
    (componentNames' : list string)
    (target : ClassId) (propertyKey : string)
    (eventRegistry : Registry) : Registry :=
  upsertFunctionEvent target propertyKey
    (Some {| type := formType; componentNames := Some componentNames' |})
    None eventRegistry.

Definition D365Event_Filter_FormTypes
    (formType : FormType) (otherFormTypes : list FormType)
    (target : ClassId) (propertyKey : string)
    (eventRegistry : Registry) : Registry :=
  upsertFunctionEvent target propertyKey None
    (Some (formType :: otherFormTypes)) eventRegistry.

Definition D365Event_Form_OnLoad := upsertSimpleEvent OnLoad.
Definition D365Event_Form_OnDataLoad := upsertSimpleEvent OnDataLoad.
Definition D365Event_Form_Loaded := upsertSimpleEvent Loaded.
Definition D365Event_Form_OnSave := upsertSimpleEvent OnSave.
Definition D365Event_Form_OnPostSave := upsertSimpleEvent OnPostSave.

Definition D365Event_Tab_OnStateChange
    (tabControlName : string) (othertabControlNames : list string) :=
  upsertComponentEvent OnTabStateChange
    (tabControlName :: othertabControlNames).
Definition D365Event_Tab_OnExpand
    (tabControlName : string) (othertabControlNames : list string) :=
  upsertComponentEvent OnTabExpand (tabControlName :: othertabControlNames).
Definition D365Event_Tab_OnCollapse
    (tabControlName : string) (othertabControlNames : list string) :=
  upsertComponentEvent OnTabCollapse (tabControlName :: othertabControlNames).

Definition D365Event_Column_OnChange
    (attributeName : string) (otherAttributeNames : list string) :=
  upsertComponentEvent OnChange (attributeName :: otherAttributeNames).

Definition D365Event_Lookup_OnTagClick
    (lookupControlName : string) (otherLookupControlNames : list string) :=
  upsertComponentEvent OnLookupTagClick
    (lookupControlName :: otherLookupControlNames).
Definition D365Event_Lookup_OnPreSearch
    (lookupControlName : string) (otherLookupControlNames : list string) :=
  upsertComponentEvent PreSearch (lookupControlName :: otherLookupControlNames).

Definition D365Event_SubGrid_OnLoad
    (gridControlName : string) (otherGridControlNames : list string) :=
  upsertComponentEvent SubGridOnLoad (gridControlName :: otherGridControlNames).
Definition D365Event_SubGrid_OnRecordSelected
    (gridControlName : string) (otherGridControlNames : list string) :=
  upsertComponentEvent SubGridOnRecordSelect
    (gridControlName :: otherGridControlNames).

Definition D365Event_IFrame_OnReadyStateComplete
    (webresourceControlName : string)
    (otherWebresourceControlNames : list string) :=
  upsertComponentEvent OnReadyStateComplete
    (webresourceControlName :: otherWebresourceControlNames).

Definition D365Event_Process_OnStatusChange :=
  upsertSimpleEvent OnProcessStatusChange.
Definition D365Event_Process_OnPreStatusChange :=
  upsertSimpleEvent OnPreProcessStatusChange.
Definition D365Event_Process_OnPreStageChange :=
  upsertSimpleEvent OnPreStageChange.
Definition D365Event_Process_OnStageChange :=
  upsertSimpleEvent OnStageChange.
Definition D365Event_Process_OnStageSelected :=
  upsertSimpleEvent OnStageSelected.

Definition D365Event_PCF_OnOutputChange
    (pcfControlName : string) (otherPcfControlNames : list string) :=
  upsertComponentEvent OnOutputChange (pcfControlName :: otherPcfControlNames).

Definition D365Event_KnowledgeBaseSearch_OnResultOpened
    (kbSearchControlName : string)
    (otherKbSearchControlNameControlNames : list string) :=
  upsertComponentEvent OnResultOpened
    (kbSearchControlName :: otherKbSearchControlNameControlNames).
Definition D365Event_KnowledgeBaseSearch_OnSelection
    (kbSearchControlName : string)
    (otherKbSearchControlNameControlNames : list string) :=
  upsertComponentEvent OnSelection
    (kbSearchControlName :: otherKbSearchControlNameControlNames).
Definition D365Event_KnowledgeBaseSearch_PostSearch
    (kbSearchControlName : string)
    (otherKbSearchControlNameControlNames : list string) :=
  upsertComponentEvent PostSearch
    (kbSearchControlName :: otherKbSearchControlNameControlNames).

(** A use of a decorator of [D365Event], as data: which member, with which
    arguments. *)
Inductive Decoration : Type :=
  | Filter_FormTypes (formType : FormType) (otherFormTypes : list FormType)
  | Form_OnLoad | Form_OnDataLoad | Form_Loaded | Form_OnSave | Form_OnPostSave
  | Tab_OnStateChange (n : string) (others : list string)
  | Tab_OnExpand (n : string) (others : list string)
  | Tab_OnCollapse (n : string) (others : list string)
  | Column_OnChange (n : string) (others : list string)
  | Lookup_OnTagClick (n : string) (others : list string)
  | Lookup_OnPreSearch (n : string) (others : list string)
  | SubGrid_OnLoad (n : string) (others : list string)
  | SubGrid_OnRecordSelected (n : string) (others : list string)
  | IFrame_OnReadyStateComplete (n : string) (others : list string)
  | Process_OnStatusChange | Process_OnPreStatusChange
  | Process_OnPreStageChange | Process_OnStageChange | Process_OnStageSelected
  | PCF_OnOutputChange (n : string) (others : list string)
  | KnowledgeBaseSearch_OnResultOpened (n : string) (others : list string)
  | KnowledgeBaseSearch_OnSelection (n : string) (others : list string)
  | KnowledgeBaseSearch_PostSearch (n : string) (others : list string).

Definition decoratorOf (d : Decoration)
    : ClassId → string → Registry → Registry :=
  match d with
  | Filter_FormTypes f fs => D365Event_Filter_FormTypes f fs
  | Form_OnLoad => D365Event_Form_OnLoad
  | Form_OnDataLoad => D365Event_Form_OnDataLoad
  | Form_Loaded => D365Event_Form_Loaded
  | Form_OnSave => D365Event_Form_OnSave
  | Form_OnPostSave => D365Event_Form_OnPostSave
  | Tab_OnStateChange n ns => D365Event_Tab_OnStateChange n ns
  | Tab_OnExpand n ns => D365Event_Tab_OnExpand n ns
  | Tab_OnCollapse n ns => D365Event_Tab_OnCollapse n ns
  | Column_OnChange n ns => D365Event_Column_OnChange n ns
  | Lookup_OnTagClick n ns => D365Event_Lookup_OnTagClick n ns
  | Lookup_OnPreSearch n ns => D365Event_Lookup_OnPreSearch n ns
  | SubGrid_OnLoad n ns => D365Event_SubGrid_OnLoad n ns
  | SubGrid_OnRecordSelected n ns => D365Event_SubGrid_OnRecordSelected n ns
  | IFrame_OnReadyStateComplete n ns =>
      D365Event_IFrame_OnReadyStateComplete n ns
  | Process_OnStatusChange => D365Event_Process_OnStatusChange
  | Process_OnPreStatusChange => D365Event_Process_OnPreStatusChange
  | Process_OnPreStageChange => D365Event_Process_OnPreStageChange
  | Process_OnStageChange => D365Event_Process_OnStageChange
  | Process_OnStageSelected => D365Event_Process_OnStageSelected
  | PCF_OnOutputChange n ns => D365Event_PCF_OnOutputChange n ns
  | KnowledgeBaseSearch_OnResultOpened n ns =>
      D365Event_KnowledgeBaseSearch_OnResultOpened n ns
  | KnowledgeBaseSearch_OnSelection n ns =>
      D365Event_KnowledgeBaseSearch_OnSelection n ns
  | KnowledgeBaseSearch_PostSearch n ns =>
      D365Event_KnowledgeBaseSearch_PostSearch n ns
  end.

(** A decorator applied to method [decorated_method] of class
    [decorated_class]. *)
Record Decorated : Type := {
  decorated_class : ClassId;
  decorated_method : string;
  decoration : Decoration
}.

(** The registry after the decorators of a program have run, in the order
    in which they run. *)
Definition decorate (ds : list Decorated) (eventRegistry : Registry)
    : Registry :=
  foldl (λ r d, decoratorOf (decoration d)
                  (decorated_class d) (decorated_method d) r)
        eventRegistry ds.

(** The [upsertFunctionEvent] call that a decorator makes. *)
Definition callOf (d : Decorated) : UpsertCall :=
  match decoration d with
  | Filter_FormTypes f fs =>
      {| call_class := decorated_class d; call_method := decorated_method d;
         call_event := None; call_formTypes := Some (f :: fs) |}
  | Form_OnLoad | Form_OnDataLoad | Form_Loaded | Form_OnSave
  | Form_OnPostSave | Process_OnStatusChange | Process_OnPreStatusChange
  | Process_OnPreStageChange | Process_OnStageChange
  | Process_OnStageSelected =>
      {| call_class := decorated_class d; call_method := decorated_method d;
         call_event :=
           Some {| type := match decoration d with
                           | Form_OnLoad => OnLoad
                           | Form_OnDataLoad => OnDataLoad
                           | Form_Loaded => Loaded
                           | Form_OnSave => OnSave
                           | Form_OnPostSave => OnPostSave
                           | Process_OnStatusChange => OnProcessStatusChange
                           | Process_OnPreStatusChange =>
                               OnPreProcessStatusChange
                           | Process_OnPreStageChange => OnPreStageChange
                           | Process_OnStageChange => OnStageChange
                           | _ => OnStageSelected
                           end;
                   componentNames := None |};
         call_formTypes := None |}
  | Tab_OnStateChange n ns | Tab_OnExpand n ns | Tab_OnCollapse n ns
  | Column_OnChange n ns | Lookup_OnTagClick n ns | Lookup_OnPreSearch n ns
  | SubGrid_OnLoad n ns | SubGrid_OnRecordSelected n ns
  | IFrame_OnReadyStateComplete n ns | PCF_OnOutputChange n ns
  | KnowledgeBaseSearch_OnResultOpened n ns
  | KnowledgeBaseSearch_OnSelection n ns
  | KnowledgeBaseSearch_PostSearch n ns =>
      {| call_class := decorated_class d; call_method := decorated_method d;
         call_event :=
           Some {| type := match decoration d with
                           | Tab_OnStateChange _ _ => OnTabStateChange
                           | Tab_OnExpand _ _ => OnTabExpand
                           | Tab_OnCollapse _ _ => OnTabCollapse
                           | Column_OnChange _ _ => OnChange
                           | Lookup_OnTagClick _ _ => OnLookupTagClick
                           | Lookup_OnPreSearch _ _ => PreSearch
                           | SubGrid_OnLoad _ _ => SubGridOnLoad
                           | SubGrid_OnRecordSelected _ _ =>
                               SubGridOnRecordSelect
                           | IFrame_OnReadyStateComplete _ _ =>
                               OnReadyStateComplete
                           | PCF_OnOutputChange _ _ => OnOutputChange
                           | KnowledgeBaseSearch_OnResultOpened _ _ =>
                               OnResultOpened
                           | KnowledgeBaseSearch_OnSelection _ _ => OnSelection
                           | _ => PostSearch
                           end;
                   componentNames := Some (n :: ns) |};
         call_formTypes := None |}
  end.

(** ** What a dispatch subscribes, as lists *)

#[global] Instance Member_eq_dec : EqDecision Member.
Proof. solve_decision. Defined.

(** An entry that passes the form type filter and names a function. *)
Definition processed (instance : Instance) (formType : FormType)
    (h : FormEventDetails) : Prop :=
  isFormTypeAuthorized (formTypes h) formType = true ∧
  member instance (functionName h) = member_function.

#[global] Instance processed_dec instance formType h :
  Decision (processed instance formType h).
Proof. unfold processed. apply _. Defined.

(** An entry with an event of kind [k] that passes the filter and names a
    truthy member that is not a function. *)
Definition blockedAt (instance : Instance) (handlers : list FormEventDetails)
    (formType : FormType) (k : FormEventTypes) : Prop :=
  ∃ h, h ∈ handlers ∧ k ∈ eventKinds h ∧
       isFormTypeAuthorized (formTypes h) formType = true ∧
       member instance (functionName h) = member_other.

Definition blocked (instance : Instance) (handlers : list FormEventDetails)
    (formType : FormType) : Prop :=
  ∃ k, k ≠ OnOutputChange ∧ blockedAt instance handlers formType k.

(** A step that, when it ends normally, has given the host exactly the
    calls [cs], in this order, after those already made. *)
Definition callsExactly {Item : Type}
    (step : DispatchState Item → Completion (DispatchState Item))
    (cs : list (HostCall Item)) : Prop :=
  ∀ s s', step s = Normal s' → hostCalls s' = hostCalls s ++ cs.

Definition simpleCalls {Item : Type} (instance : Instance)
    (handlers : list FormEventDetails) (formType : FormType)
    (k : FormEventTypes) (op : FormSubscription) : list (HostCall Item) :=
  (λ h, FormCall op (BoundMethod (functionName h))) <$>
  filter (processed instance formType) (handlersOf handlers k).

Definition componentCalls {Item : Type} (instance : Instance)
    (handlers : list FormEventDetails) (formType : FormType)
    (k : FormEventTypes)
    (getItems : list string → list Item) (itemTypeChecker : Item → bool)
    (registered : list Item → Listener → list (HostCall Item))
    : list (HostCall Item) :=
  filter (processed instance formType) (handlersOf handlers k) ≫= (λ h,
    filter (λ e, isMatchingComponentEvent e k) (events h) ≫= (λ e,
      registered
        (filter (λ item, itemTypeChecker item)
                (getItems (default [] (componentNames e))))
        (BoundMethod (functionName h)))).

Definition batchCalls {Item : Type} (op : BatchSubscription)
    (items : list Item) (handler : Listener) : list (HostCall Item) :=
  [BatchCall op items handler].

Definition tabCalls {Item : Type} (st : DisplayState)
    (items : list Item) (handler : Listener) : list (HostCall Item) :=
  (λ tab, TabCall tab (TabStateListener st handler)) <$> items.

(** The calls of a whole dispatch, step after step. *)
Definition expectedCalls {Item : Type} (formContext : Host Item)
    (instance : Instance) (handlers : list FormEventDetails)
    (formType : FormType) : list (HostCall Item) :=
  let simple := simpleCalls instance handlers formType in
  let component := componentCalls instance handlers formType in
  let tabs k := component k (getTab formContext) (isTabControl formContext) in
  let controls k chk := component k (getControl formContext) (chk formContext) in
  concat
    [ simple OnDataLoad addOnDataLoad;
      simple OnLoad addOnLoad;
      simple Loaded addLoaded;
      simple OnSave addOnSave;
      simple OnPostSave addOnPostSave;
      tabs OnTabStateChange (batchCalls addTabStateChange);
      tabs OnTabExpand (tabCalls expanded);
      tabs OnTabCollapse (tabCalls collapsed);
      component OnChange (getAttribute formContext) (isAttribute formContext)
        (batchCalls addOnChange);
      controls OnLookupTagClick isLookupControl (batchCalls addOnLookupTagClick);
      controls PreSearch isLookupControl (batchCalls addPreSearch);
      controls SubGridOnLoad isGridControl (batchCalls addSubGridOnLoad);
      controls SubGridOnRecordSelect isGridControl
        (batchCalls addSubGridOnRecordSelect);
      controls OnReadyStateComplete isIframeControl
        (batchCalls addOnReadyStateComplete);
      simple OnProcessStatusChange addOnProcessStatusChange;
      simple OnPreProcessStatusChange addOnPreProcessStatusChange;
      simple OnPreStageChange addOnPreStageChange;
      simple OnStageChange addOnStageChange;
      simple OnStageSelected addOnStageSelected;
      controls OnReadyStateComplete isStandardControl
        (batchCalls addOnOutputChange);
      controls OnResultOpened isKbSearchControl (batchCalls addOnResultOpened);
      controls OnSelection isKbSearchControl (batchCalls addOnSelection);
      controls PostSearch isKbSearchControl (batchCalls addOnPostSearch) ].

(** ** HandlerBase.ts: listing the registered events *)

(** The console calls of [logRegisteredFormEvents]. *)
Inductive ConsoleCall : Type :=
  | console_group (label : string)
  | console_debug (text : string)
  | console_groupEnd.

(** The line of an event detail: its kind and, for a component event, its
    names between brackets. *)
Definition detailLine (detail : EventDetail) : string :=
  let extras := match componentNames detail with
                | Some names => "[" +:+ join names +:+ "]"
                | None => EmptyString
                end in
  let typeDesc := "@" +:+ FormEventTypes_value (type detail) +:+ " " in
  typeDesc +:+ extras.

(** The line of the form types of an entry:
    [formTypes?.map(label).join(", ") ?? "All"]. *)
Definition formTypesLine (formEvents : FormEventDetails) : string :=
  "FormTypes: " +:+
  match formTypes formEvents with
  | Some l => join (FormTypeLabel <$> l)
  | None => "All"
  end.

Definition logRegisteredFormEvents (instance : Instance)
    (eventRegistry : Registry) : list ConsoleCall :=
  [console_group
     ("[D365FormEventHandlerBase - Profiling] Events registered from " +:+
      constructor_name instance +:+ " class")] ++
  (getFormEvents (constructor instance) eventRegistry ≫= (λ formEvents,
     [console_group ("+ " +:+ functionName formEvents)] ++
     (console_debug ∘ detailLine <$> events formEvents) ++
     [console_debug (formTypesLine formEvents); console_groupEnd])) ++
  [console_groupEnd].

(** The depth of the open groups after a sequence of console calls, from
    depth [d]; [None] if a group is closed that was not open. *)
Fixpoint groupDepth (d : nat) (calls : list ConsoleCall) : option nat :=
  match calls with
  | [] => Some d
  | console_group _ :: calls' => groupDepth (S d) calls'
  | console_debug _ :: calls' => groupDepth d calls'
  | console_groupEnd :: calls' =>
      match d with
      | 0 => None
      | S d' => groupDepth d' calls'
      end
  end.

(** The texts written by [console.debug]. *)
Definition debugLines (calls : list ConsoleCall) : list string :=
  calls ≫= (λ c, match c with console_debug t => [t] | _ => [] end).

(** ** A dispatch as one pass over its work *)

(** The two [register] functions that [apply] gives to
    [applyComponentEvents]. *)
Inductive Registration : Type :=
  | BatchReg (op : BatchSubscription)
  | TabReg (authorizedTabDisplayState : DisplayState).

(** The arguments that [apply] gives to [applySimpleEvents] or to
    [applyComponentEvents] in one of its 23 steps. *)
Inductive Step (Item : Type) : Type :=
  | SimpleStep (eventType : FormEventTypes) (eventFunction : FormSubscription)
  | ComponentStep (eventType : FormEventTypes)
      (getItems : list string → list Item) (itemTypeChecker : Item → bool)
      (getItemName : Item → string) (register : Registration).

Arguments SimpleStep {Item} eventType eventFunction.
Arguments ComponentStep {Item} eventType getItems itemTypeChecker
  getItemName register.

Section work.
Context {Item : Type}.

Definition registerOf (reg : Registration)
    : list Item → Listener → DispatchState Item → DispatchState Item :=
  match reg with
  | BatchReg op => registerBatch op
  | TabReg st => registerTabSpecific st
  end.

Definition registeredBy (reg : Registration)
    (items : list Item) (handler : Listener) : list (HostCall Item) :=
  match reg with
  | BatchReg op => batchCalls op items handler
  | TabReg st => tabCalls st items handler
  end.

Definition stepKind (step : Step Item) : FormEventTypes :=
  match step with
  | SimpleStep eventType _ | ComponentStep eventType _ _ _ _ => eventType
  end.

(** The 23 steps of [apply], in order, each with the arguments that its
    [applyXxxEvents] passes in the source; the twentieth is
    [applyOnOutputChangeEvents], with [OnReadyStateComplete]. *)
Definition stepTable (formContext : Host Item) : list (Step Item) :=
  let tabs k := ComponentStep k (getTab formContext) (isTabControl formContext)
                  (getName formContext) in
  let controls k chk := ComponentStep k (getControl formContext)
                          (chk formContext) (getName formContext) in
  [ SimpleStep OnDataLoad addOnDataLoad;
    SimpleStep OnLoad addOnLoad;
    SimpleStep Loaded addLoaded;
    SimpleStep OnSave addOnSave;
    SimpleStep OnPostSave addOnPostSave;
    tabs OnTabStateChange (BatchReg addTabStateChange);
    tabs OnTabExpand (TabReg expanded);
    tabs OnTabCollapse (TabReg collapsed);
    ComponentStep OnChange (getAttribute formContext) (isAttribute formContext)
      (getName formContext) (BatchReg addOnChange);
    controls OnLookupTagClick isLookupControl (BatchReg addOnLookupTagClick);
    controls PreSearch isLookupControl (BatchReg addPreSearch);
    controls SubGridOnLoad isGridControl (BatchReg addSubGridOnLoad);
    controls SubGridOnRecordSelect isGridControl
      (BatchReg addSubGridOnRecordSelect);
    controls OnReadyStateComplete isIframeControl
      (BatchReg addOnReadyStateComplete);
    SimpleStep OnProcessStatusChange addOnProcessStatusChange;
    SimpleStep OnPreProcessStatusChange addOnPreProcessStatusChange;
    SimpleStep OnPreStageChange addOnPreStageChange;
    SimpleStep OnStageChange addOnStageChange;
    SimpleStep OnStageSelected addOnStageSelected;
    controls OnReadyStateComplete isStandardControl
      (BatchReg addOnOutputChange);
    controls OnResultOpened isKbSearchControl (BatchReg addOnResultOpened);
    controls OnSelection isKbSearchControl (BatchReg addOnSelection);
    controls PostSearch isKbSearchControl (BatchReg addOnPostSearch) ].

Definition runStep (instance : Instance) (handlers : list FormEventDetails)
    (formType : FormType) (step : Step Item)
    : DispatchState Item → Completion (DispatchState Item) :=
  match step with
  | SimpleStep eventType eventFunction =>
      applySimpleEvents instance handlers formType eventType eventFunction
  | ComponentStep eventType getItems itemTypeChecker getItemName register =>
      applyComponentEvents instance handlers formType eventType
        getItems itemTypeChecker getItemName (registerOf register)
  end.

(** One turn of the loop of a step: what the step does for one entry. *)
Definition runItem (instance : Instance) (formType : FormType)
    (item : Step Item * FormEventDetails)
    : DispatchState Item → Completion (DispatchState Item) :=
  runStep instance [item.2] formType item.1.

(** The turns of a dispatch, in the order in which they are taken: step
    after step, and in a step the entries that have an event of the step's
    kind, in registry order. *)
Definition workList (formContext : Host Item)
    (handlers : list FormEventDetails) : list (Step Item * FormEventDetails) :=
  stepTable formContext ≫= (λ step,
    (λ h, (step, h)) <$> handlersOf handlers (stepKind step)).

(** An entry that passes the form type filter and names a truthy member
    that is not a function: [.bind] on it raises a [TypeError]. *)
Definition offending (instance : Instance) (formType : FormType)
    (item : Step Item * FormEventDetails) : Prop :=
  isFormTypeAuthorized (formTypes item.2) formType = true ∧
  member instance (functionName item.2) = member_other.

#[global] Instance offending_dec instance formType item :
  Decision (offending instance formType item).
Proof. unfold offending. apply _. Defined.

(** The components of an event detail that a step finds and accepts, and
    the names it does not find. *)
Definition foundItems (getItems : list string → list Item)
    (itemTypeChecker : Item → bool) (event : EventDetail) : list Item :=
  filter (λ item, itemTypeChecker item)
         (getItems (default [] (componentNames event))).

Definition unfoundNames (getItems : list string → list Item)
    (itemTypeChecker : Item → bool) (getItemName : Item → string)
    (event : EventDetail) : list string :=
  filter (λ itemName,
            itemName ∉ getItemName <$> foundItems getItems itemTypeChecker event)
         (default [] (componentNames event)).

(** The calls a turn makes to the host. *)
Definition itemCalls (instance : Instance) (formType : FormType)
    (item : Step Item * FormEventDetails) : list (HostCall Item) :=
  let h := item.2 in
  if decide (processed instance formType h) then
    match item.1 with
    | SimpleStep _ op => [FormCall op (BoundMethod (functionName h))]
    | ComponentStep k getItems chk _ reg =>
        filter (λ e, isMatchingComponentEvent e k) (events h) ≫= (λ e,
          registeredBy reg (foundItems getItems chk e)
                       (BoundMethod (functionName h)))
    end
  else [].

(** The messages a turn queues. *)
Definition itemWarnings (instance : Instance) (formType : FormType)
    (item : Step Item * FormEventDetails) : list string :=
  let h := item.2 in
  if decide (processed instance formType h) then
    match item.1 with
    | SimpleStep _ _ => []
    | ComponentStep k getItems chk nm _ =>
        filter (λ e, isMatchingComponentEvent e k) (events h) ≫= (λ e,
          if decide (unfoundNames getItems chk nm e = []) then []
          else [notFoundMessage instance (unfoundNames getItems chk nm e) k
                  (functionName h) formType])
    end
  else [].

(** The message of the validation, if any. *)
Definition validationWarnings (instance : Instance)
    (handlers : list FormEventDetails) : list string :=
  if decide (eventlessNames handlers = []) then []
  else [noEventsMessage instance (eventlessNames handlers)].

(** A state after more host calls and more queued messages. *)
Definition queueAll (messages : list string) (counts : list (string * nat))
    : list (string * nat) :=
  foldl (λ counts message, countWarning message counts) counts messages.

Definition effects (calls : list (HostCall Item)) (messages : list string)
    (s : DispatchState Item) : DispatchState Item :=
  {| warningCounts := queueAll messages (warningCounts s);
     hostCalls := hostCalls s ++ calls;
     warned := warned s |}.

(** The turns taken before a dispatch stops: all of them, or those before
    the first offending one. *)
Definition turnsTaken (instance : Instance) (formType : FormType)
    (work : list (Step Item * FormEventDetails)) : list (Step Item * FormEventDetails) :=
  match list_find (offending instance formType) work with
  | Some (i, _) => take i work
  | None => work
  end.

(** The queue when the steps of a dispatch end, from the queue before: the
    validation message, then the messages of the turns taken. *)
Definition pendingAfter (formContext : Host Item) (instance : Instance)
    (handlers : list FormEventDetails) (formType : FormType)
    (counts : list (string * nat)) : list (string * nat) :=
  queueAll (validationWarnings instance handlers ++
            (turnsTaken instance formType (workList formContext handlers)
               ≫= itemWarnings instance formType))
           counts.
End work.
(** * Lemmas *)

Section keyed.
Context {A K : Type} `{EqDecision K} (key : A → K).

Lemma find_insert_same (l : list A) k i x x' :
  list_find (λ a, key a = k) l = Some (i, x) → key x' = k →
  list_find (λ a, key a = k) (<[i:=x']> l) = Some (i, x').
Proof.
  intros Hf Hk. apply list_find_Some in Hf as (Hl & _ & Hmin).
  apply list_find_Some. split_and!.
  - apply list_lookup_insert_eq. by eapply lookup_lt_Some.
  - done.
  - intros j y Hj Hlt. rewrite list_lookup_insert_ne in Hj by lia. eauto.
Qed.

Lemma find_insert_other (l : list A) k k' i x x' :
  list_find (λ a, key a = k) l = Some (i, x) → key x' = k → k' ≠ k →
  list_find (λ a, key a = k') (<[i:=x']> l) = list_find (λ a, key a = k') l.
Proof.
  intros Hf Hk Hne. apply list_find_Some in Hf as (Hl & Hx & _).
  revert i Hl. induction l as [|y l IH]; intros i Hl; [done|].
  destruct i as [|i]; simpl in *.
  - simplify_eq. rewrite !decide_False by congruence. done.
  - case_decide; [done|]. by rewrite IH.
Qed.

Lemma lookupBy_insert (l : list A) k k' i x x' :
  list_find (λ a, key a = k) l = Some (i, x) → key x' = k →
  lookupBy key k' (<[i:=x']> l) =
    if decide (k' = k) then Some x' else lookupBy key k' l.
Proof.
  intros Hf Hk. unfold lookupBy. case_decide as Hd.
  - subst k'. by erewrite find_insert_same.
  - by erewrite find_insert_other.
Qed.

Lemma lookupBy_snoc (l : list A) k k' x' :
  list_find (λ a, key a = k) l = None → key x' = k →
  lookupBy key k' (l ++ [x']) =
    if decide (k' = k) then Some x' else lookupBy key k' l.
Proof.
  intros Hf Hk. unfold lookupBy. case_decide as Hd.
  - subst k'. rewrite list_find_app_r by done. simpl.
    by rewrite decide_True.
  - destruct (list_find (λ a, key a = k') l) as [[j y]|] eqn:E.
    + by erewrite list_find_app_l.
    + rewrite list_find_app_r by done. simpl.
      rewrite decide_False by congruence. done.
Qed.

Lemma keys_insert (l : list A) k i x x' :
  list_find (λ a, key a = k) l = Some (i, x) → key x' = k →
  key <$> <[i:=x']> l = key <$> l.
Proof.
  intros Hf Hk. apply list_find_Some in Hf as (Hl & Hx & _).
  rewrite list_fmap_insert. apply list_insert_id.
  rewrite list_lookup_fmap, Hl. simpl. congruence.
Qed.

Lemma find_None_keys (l : list A) k :
  list_find (λ a, key a = k) l = None → k ∉ key <$> l.
Proof.
  intros Hf%list_find_None Hin. apply list_elem_of_fmap in Hin as (a & -> & Ha).
  rewrite Forall_forall in Hf. by eapply Hf.
Qed.

Lemma lookupBy_Some_elem (l : list A) k x :
  lookupBy key k l = Some x → x ∈ l ∧ key x = k.
Proof.
  unfold lookupBy. intros ([i y] & Hf & ->)%fmap_Some.
  apply list_find_Some in Hf as (Hl & Hx & _). simpl.
  split; [by eapply list_elem_of_lookup_2 | done].
Qed.

Lemma lookupBy_is_Some (l : list A) k :
  is_Some (lookupBy key k l) ↔ k ∈ key <$> l.
Proof.
  split.
  - intros [x (Hx & <-)%lookupBy_Some_elem]. by apply list_elem_of_fmap_2.
  - intros (a & -> & Ha)%list_elem_of_fmap. unfold lookupBy.
    destruct (list_find_elem_of (λ b, key b = key a) l a Ha eq_refl)
      as [[i y] ->]. by eexists.
Qed.
End keyed.

(** ** mergeUnique *)

Section mergeUnique.
Context {A : Type} `{EqDecision A}.
Implicit Types l k : list A.

Lemma elem_of_mergeUnique l k x : x ∈ mergeUnique l k ↔ x ∈ l ∨ x ∈ k.
Proof.
  unfold mergeUnique. rewrite elem_of_app, list_elem_of_filter.
  destruct (decide (x ∈ l)); tauto.
Qed.

Lemma mergeUnique_absorb l k : (∀ x, x ∈ k → x ∈ l) → mergeUnique l k = l.
Proof.
  intros Hsub. unfold mergeUnique.
  assert (filter (λ i, i ∉ l) k = []) as ->; [|by rewrite app_nil_r].
  induction k as [|y k IH]; [done|].
  rewrite filter_cons_False.
  - apply IH. intros x Hx. apply Hsub. by right.
  - intros Hn. apply Hn, Hsub. by left.
Qed.

Lemma NoDup_mergeUnique l k : NoDup l → NoDup k → NoDup (mergeUnique l k).
Proof.
  intros Hl Hk. unfold mergeUnique. apply NoDup_app. split_and!.
  - done.
  - intros x Hx (Hnot & _)%list_elem_of_filter. done.
  - by apply NoDup_filter.
Qed.
End mergeUnique.

(** ** upsertEventDetail *)

Lemma upsertEventDetail_lookup evs e k :
  lookupBy type k (upsertEventDetail evs e) =
    if decide (k = type e)
    then Some (mergedEvent (lookupBy type (type e) evs) e)
    else lookupBy type k evs.
Proof.
  unfold upsertEventDetail, mergedEvent.
  destruct (list_find (λ e0, type e0 = type e) evs) as [[j ex]|] eqn:Hf.
  - assert (lookupBy type (type e) evs = Some ex) as Hl
      by (unfold lookupBy; by rewrite Hf).
    rewrite Hl.
    assert (type ex = type e) as Hty by (apply lookupBy_Some_elem in Hl; tauto).
    destruct (componentNames ex) as [a|] eqn:Ha;
      [destruct (componentNames e) as [b|] eqn:Hb|].
    + by erewrite lookupBy_insert.
    + case_decide; by subst.
    + case_decide; by subst.
  - assert (lookupBy type (type e) evs = None) as ->
      by (unfold lookupBy; by rewrite Hf).
    by erewrite lookupBy_snoc.
Qed.

Lemma upsertEventDetail_kinds evs e k :
  k ∈ type <$> upsertEventDetail evs e ↔ k ∈ type <$> evs ∨ k = type e.
Proof.
  unfold upsertEventDetail.
  destruct (list_find (λ e0, type e0 = type e) evs) as [[j ex]|] eqn:Hf.
  - assert (type e ∈ type <$> evs) as Hin.
    { apply list_find_Some in Hf as (Hl & Hx & _). rewrite <- Hx.
      apply list_elem_of_fmap_2. by eapply list_elem_of_lookup_2. }
    assert (type ex = type e) as Hty
      by (apply list_find_Some in Hf; tauto).
    destruct (componentNames ex), (componentNames e);
      try (erewrite keys_insert by (done || exact Hty));
      (split; [tauto | by intros [?| ->]]).
  - rewrite fmap_app, elem_of_app. simpl. rewrite list_elem_of_singleton.
    done.
Qed.

Lemma upsertEventDetail_NoDup evs e :
  NoDup (type <$> evs) → NoDup (type <$> upsertEventDetail evs e).
Proof.
  intros Hnd. unfold upsertEventDetail.
  destruct (list_find (λ e0, type e0 = type e) evs) as [[j ex]|] eqn:Hf.
  - assert (type ex = type e) as Hty
      by (by apply list_find_Some in Hf as (_ & ? & _)).
    destruct (componentNames ex), (componentNames e);
      try (erewrite keys_insert by (done || exact Hty)); done.
  - rewrite fmap_app. apply NoDup_app. split_and!; [done| |apply NoDup_singleton].
    intros k Hk Hk'. apply list_elem_of_singleton in Hk' as ->.
    by apply find_None_keys in Hf.
Qed.

Lemma upsertEventDetail_Forall (P : EventDetail → Prop) evs e :
  Forall P evs → P e →
  (∀ ex a b, ex ∈ evs → P ex → type ex = type e →
     componentNames ex = Some a → componentNames e = Some b →
     P {| type := type ex; componentNames := Some (mergeUnique a b) |}) →
  Forall P (upsertEventDetail evs e).
Proof.
  intros Hall He Hmerge. unfold upsertEventDetail.
  destruct (list_find (λ e0, type e0 = type e) evs) as [[j ex]|] eqn:Hf.
  - apply list_find_Some in Hf as (Hl & Hx & _).
    destruct (componentNames ex) as [a|] eqn:Ha; [|done].
    destruct (componentNames e) as [b|] eqn:Hb; [|done].
    apply Forall_insert; [done|].
    apply Hmerge; try done.
    + by eapply list_elem_of_lookup_2.
    + rewrite Forall_forall in Hall. apply Hall.
      by eapply list_elem_of_lookup_2.
  - apply Forall_app. split; [done|]. by apply Forall_singleton.
Qed.

Lemma upsertEventDetail_names_nodup evs e :
  Forall names_nodup evs → names_nodup e →
  Forall names_nodup (upsertEventDetail evs e).
Proof.
  intros Hall He. apply upsertEventDetail_Forall; [done..|].
  intros ex a b _ Hex _ Ha Hb ns [= <-].
  apply NoDup_mergeUnique; [by apply Hex | by apply He].
Qed.

Lemma upsertEventDetail_well_typed evs e :
  Forall well_typed evs → well_typed e →
  Forall well_typed (upsertEventDetail evs e).
Proof.
  intros Hall He. apply upsertEventDetail_Forall; [done..|].
  intros ex a b _ Hex _ Ha Hb. unfold well_typed, isComponentEventDetail in *.
  simpl. by rewrite Ha in Hex.
Qed.

Lemma upsertEventDetail_idem evs e :
  upsertEventDetail (upsertEventDetail evs e) e = upsertEventDetail evs e.
Proof.
  destruct (list_find (λ e0, type e0 = type e) evs) as [[j ex]|] eqn:Hf.
  - assert (type ex = type e) as Hty
      by (apply list_find_Some in Hf; tauto).
    destruct (componentNames ex) as [a|] eqn:Ha;
      [destruct (componentNames e) as [b|] eqn:Hb|].
    + assert (upsertEventDetail evs e =
                <[ j := {| type := type ex;
                           componentNames := Some (mergeUnique a b) |} ]> evs)
        as -> by (unfold upsertEventDetail; by rewrite Hf, Ha, Hb).
      unfold upsertEventDetail.
      erewrite find_insert_same by (done || exact Hty). simpl. rewrite Hb.
      rewrite (mergeUnique_absorb (mergeUnique a b) b)
        by (intros x Hx; apply elem_of_mergeUnique; by right).
      by rewrite list_insert_insert_eq.
    + assert (upsertEventDetail evs e = evs) as Hu
        by (unfold upsertEventDetail; by rewrite Hf, Ha, Hb).
      by rewrite !Hu.
    + assert (upsertEventDetail evs e = evs) as Hu
        by (unfold upsertEventDetail; by rewrite Hf, Ha).
      by rewrite !Hu.
  - assert (upsertEventDetail evs e = evs ++ [e]) as ->
      by (unfold upsertEventDetail; by rewrite Hf).
    unfold upsertEventDetail.
    rewrite list_find_app_r by done. simpl. rewrite decide_True by done.
    simpl. destruct (componentNames e) as [b|] eqn:Hb; [|done].
    rewrite (mergeUnique_absorb b b) by done.
    apply list_insert_id. rewrite lookup_app_r by lia.
    rewrite Nat.sub_diag. destruct e; simpl in *; by subst.
Qed.

(** ** upsertInList and upsertFunctionEvent *)

Lemma upsertBinding_None fn oe oft :
  upsertBinding None fn oe oft = newBinding fn oe oft.
Proof. done. Qed.

Lemma upsertInList_lookup fes fn oe oft fn' :
  lookupBy functionName fn' (upsertInList fes fn oe oft) =
    if decide (fn' = fn)
    then Some (upsertBinding (lookupBy functionName fn fes) fn oe oft)
    else lookupBy functionName fn' fes.
Proof.
  unfold upsertInList, upsertBinding.
  destruct (list_find (λ ev, functionName ev = fn) fes) as [[i fe]|] eqn:Hf.
  - assert (lookupBy functionName fn fes = Some fe) as ->
      by (unfold lookupBy; by rewrite Hf).
    erewrite lookupBy_insert; [done | exact Hf |].
    simpl. apply list_find_Some in Hf. tauto.
  - assert (lookupBy functionName fn fes = None) as ->
      by (unfold lookupBy; by rewrite Hf).
    by erewrite lookupBy_snoc.
Qed.

Lemma upsertInList_methods_unique fes fn oe oft :
  methods_unique fes → methods_unique (upsertInList fes fn oe oft).
Proof.
  unfold methods_unique, upsertInList. intros Hnd.
  destruct (list_find (λ ev, functionName ev = fn) fes) as [[i fe]|] eqn:Hf.
  - erewrite keys_insert; [done | exact Hf |].
    simpl. apply list_find_Some in Hf. tauto.
  - rewrite fmap_app. apply NoDup_app. split_and!; [done| |apply NoDup_singleton].
    intros k Hk Hk'. apply list_elem_of_singleton in Hk' as ->.
    by apply find_None_keys in Hf.
Qed.

Lemma upsertInList_Forall (P : FormEventDetails → Prop) fes fn oe oft :
  Forall P fes → P (newBinding fn oe oft) →
  (∀ fe, fe ∈ fes → P fe → P (upsertExisting fe oe oft)) →
  Forall P (upsertInList fes fn oe oft).
Proof.
  intros Hall Hnew Hupd. unfold upsertInList.
  destruct (list_find (λ ev, functionName ev = fn) fes) as [[i fe]|] eqn:Hf.
  - apply list_find_Some in Hf as (Hl & _ & _).
    apply Forall_insert; [done|].
    assert (fe ∈ fes) as Hin by (by eapply list_elem_of_lookup_2).
    apply Hupd; [done|]. rewrite Forall_forall in Hall. by apply Hall.
  - apply Forall_app. split; [done|]. by apply Forall_singleton.
Qed.

Lemma upsertInList_kinds_unique fes fn oe oft :
  kinds_unique fes → kinds_unique (upsertInList fes fn oe oft).
Proof.
  intros Hall. apply upsertInList_Forall; [done|..].
  - unfold eventKinds. destruct oe; simpl; [apply NoDup_singleton|apply NoDup_nil_2].
  - intros fe _ Hfe. unfold eventKinds in *. destruct oe; simpl; [|done].
    by apply upsertEventDetail_NoDup.
Qed.

Lemma upsertInList_names_unique fes fn oe oft :
  (∀ e, oe = Some e → names_nodup e) →
  names_unique fes → names_unique (upsertInList fes fn oe oft).
Proof.
  intros He Hall. apply upsertInList_Forall; [done|..].
  - destruct oe as [e|]; simpl; [|done]. apply Forall_singleton. by apply He.
  - intros fe _ Hfe. destruct oe as [e|]; simpl; [|done].
    apply upsertEventDetail_names_nodup; [done|]. by apply He.
Qed.

Lemma upsertExisting_idem fe oe oft :
  upsertExisting (upsertExisting fe oe oft) oe oft = upsertExisting fe oe oft.
Proof.
  unfold upsertExisting. simpl. f_equal.
  - destruct oft as [inc|]; [|done]. simpl. f_equal.
    apply mergeUnique_absorb. intros x Hx. apply elem_of_mergeUnique. by right.
  - destruct oe as [e|]; [|done]. apply upsertEventDetail_idem.
Qed.

Lemma upsertExisting_new fn oe oft :
  upsertExisting (newBinding fn oe oft) oe oft = newBinding fn oe oft.
Proof.
  unfold upsertExisting, newBinding. simpl. f_equal.
  - destruct oft as [inc|]; [|done]. simpl. f_equal.
    by apply mergeUnique_absorb.
  - destruct oe as [e|]; [|done]. unfold upsertEventDetail. simpl.
    rewrite decide_True by done. simpl.
    destruct e as [t [b|]]; simpl; [|done].
    by rewrite mergeUnique_absorb.
Qed.

Lemma upsertInList_idem fes fn oe oft :
  upsertInList (upsertInList fes fn oe oft) fn oe oft =
  upsertInList fes fn oe oft.
Proof.
  destruct (list_find (λ ev, functionName ev = fn) fes) as [[i fe]|] eqn:Hf.
  - assert (upsertInList fes fn oe oft = <[ i := upsertExisting fe oe oft ]> fes)
      as -> by (unfold upsertInList; by rewrite Hf).
    unfold upsertInList.
    erewrite find_insert_same; [| exact Hf |].
    + by rewrite upsertExisting_idem, list_insert_insert_eq.
    + simpl. apply list_find_Some in Hf. tauto.
  - assert (upsertInList fes fn oe oft = fes ++ [newBinding fn oe oft])
      as -> by (unfold upsertInList; by rewrite Hf).
    unfold upsertInList.
    rewrite list_find_app_r by done. simpl. rewrite decide_True by done.
    simpl. fold (newBinding fn oe oft). rewrite upsertExisting_new.
    apply list_insert_id. rewrite lookup_app_r by lia.
    by rewrite Nat.sub_diag.
Qed.

Lemma getFormEvents_upsert (r : Registry) c fn oe oft c' :
  getFormEvents c' (upsertFunctionEvent c fn oe oft r) =
    if decide (c' = c) then upsertInList (getFormEvents c r) fn oe oft
    else getFormEvents c' r.
Proof.
  unfold getFormEvents at 1, upsertFunctionEvent.
  rewrite lookup_insert. case_decide; case_decide; subst; done.
Qed.

Lemma getFormEvents_empty c : getFormEvents c ∅ = [].
Proof. unfold getFormEvents. by rewrite lookup_empty. Qed.

Lemma upserts_snoc calls call (r : Registry) :
  upserts (calls ++ [call]) r = upsert (upserts calls r) call.
Proof. unfold upserts. by rewrite foldl_app. Qed.

Lemma upsertFunctionEvent_idem (r : Registry) c fn oe oft :
  upsertFunctionEvent c fn oe oft (upsertFunctionEvent c fn oe oft r) =
  upsertFunctionEvent c fn oe oft r.
Proof.
  unfold upsertFunctionEvent at 1.
  rewrite getFormEvents_upsert, decide_True by done.
  rewrite upsertInList_idem. unfold upsertFunctionEvent.
  by rewrite insert_insert_eq.
Qed.

(** An invariant of the lists of entries, kept by every call, holds of the
    registry built by any sequence of calls. *)
Lemma upserts_invariant (P : list FormEventDetails → Prop)
    (Q : UpsertCall → Prop) calls :
  P [] →
  (∀ fes call, Q call → P fes →
     P (upsertInList fes (call_method call) (call_event call)
                     (call_formTypes call))) →
  Forall Q calls →
  ∀ c, P (getFormEvents c (upserts calls ∅)).
Proof.
  intros Hnil Hstep. induction calls as [|call calls IH] using rev_ind.
  - intros _ c. by rewrite getFormEvents_empty.
  - intros [Hcalls Hcall]%Forall_app c.
    apply Forall_cons in Hcall as [Hcall _].
    rewrite upserts_snoc. unfold upsert.
    rewrite getFormEvents_upsert. case_decide; [|by apply IH].
    apply Hstep; [done|]. by apply IH.
Qed.

(** ** One call, seen from the entry of its method *)

Lemma methodBinding_upsert (r : Registry) c fn oe oft :
  methodBinding (upsertFunctionEvent c fn oe oft r) c fn =
  Some (upsertBinding (methodBinding r c fn) fn oe oft).
Proof.
  unfold methodBinding. rewrite getFormEvents_upsert, decide_True by done.
  by rewrite upsertInList_lookup, decide_True.
Qed.

Lemma methodBinding_upserts (r : Registry) c fn calls :
  Forall (targets c fn) calls →
  methodBinding (upserts calls r) c fn =
  bindingAfter fn calls (methodBinding r c fn).
Proof.
  revert r. induction calls as [|call calls IH]; intros r Hall; [done|].
  apply Forall_cons in Hall as [[Hc Hm] Hall].
  unfold upserts, bindingAfter. simpl. fold (upserts calls (upsert r call)).
  rewrite IH by done. unfold upsert. rewrite Hc, Hm.
  by rewrite methodBinding_upsert.
Qed.

Lemma lookupBy_singleton (e : EventDetail) k :
  lookupBy type k [e] = if decide (type e = k) then Some e else None.
Proof. unfold lookupBy. simpl. by case_decide. Qed.

Lemma upsertBinding_kinds ob fn oe oft k :
  k ∈ eventKinds (upsertBinding ob fn oe oft) ↔
  hasKind ob k ∨ (∃ e, oe = Some e ∧ type e = k).
Proof.
  unfold hasKind. destruct ob as [fe|]; simpl.
  - unfold eventKinds at 1. simpl. destruct oe as [e|].
    + rewrite upsertEventDetail_kinds. split.
      * intros [?| ->]; [left|right]; eauto.
      * intros [(b & [= <-] & ?)|(e' & [= <-] & ?)]; eauto.
    + split; [eauto|]. intros [(b & [= <-] & ?)|(e' & ? & ?)]; done.
  - unfold eventKinds at 1. simpl. destruct oe as [e|]; simpl.
    + rewrite list_elem_of_singleton. split.
      * intros ->. right. eauto.
      * intros [(b & ? & ?)|(e' & [= <-] & ?)]; done.
    + rewrite elem_of_nil. split; [done|].
      intros [(b & ? & ?)|(e' & ? & ?)]; done.
Qed.

Lemma well_typed_same_kind e1 e2 a :
  well_typed e1 → well_typed e2 → type e1 = type e2 →
  componentNames e1 = Some a → is_Some (componentNames e2).
Proof.
  unfold well_typed, isComponentEventDetail. intros H1 H2 Hty Ha.
  rewrite Ha in H1. rewrite Hty in H1. rewrite <- H1 in H2.
  destruct (componentNames e2); [eauto|done].
Qed.

Lemma upsertBinding_names ob fn oe oft k n :
  (∀ b, ob = Some b → events_well_typed b) →
  (∀ e, oe = Some e → well_typed e) →
  n ∈ namesOf (upsertBinding ob fn oe oft) k ↔
  hasName ob k n ∨
  (∃ e ns, oe = Some e ∧ type e = k ∧ componentNames e = Some ns ∧ n ∈ ns).
Proof.
  intros Hob Hoe. unfold hasName. destruct ob as [fe|]; simpl.
  - destruct oe as [e|]; simpl.
    2:{ unfold namesOf at 1. simpl. fold (namesOf fe k). split; [eauto|].
        intros [(b & [= <-] & ?)|(e' & ? & ? & ?)]; done. }
    unfold namesOf at 1. simpl. rewrite upsertEventDetail_lookup.
    case_decide as Hk.
    + subst k. unfold mergedEvent.
      destruct (lookupBy type (type e) (events fe)) as [ex|] eqn:Hl.
      * assert (ex ∈ events fe ∧ type ex = type e) as [Hin Hty]
          by (by apply lookupBy_Some_elem).
        assert (well_typed ex) as Hwex.
        { specialize (Hob fe eq_refl). unfold events_well_typed in Hob.
          rewrite Forall_forall in Hob. by apply Hob. }
        assert (well_typed e) as Hwe by (by apply Hoe).
        destruct (componentNames ex) as [a|] eqn:Ha.
        -- destruct (well_typed_same_kind ex e a Hwex Hwe Hty Ha) as [b Hb].
           rewrite Hb. simpl. rewrite elem_of_mergeUnique. split.
           ++ intros [?|?].
              ** left. exists fe. split; [done|]. unfold namesOf.
                 by rewrite Hl, Ha.
              ** right. exists e, b. eauto.
           ++ intros [(b0 & [= <-] & Hn)|(e' & ns & [= <-] & _ & Hns & Hn)].
              ** left. unfold namesOf in Hn. by rewrite Hl, Ha in Hn.
              ** right. congruence.
        -- rewrite Ha. simpl. rewrite elem_of_nil. split; [done|].
           intros [(b0 & [= <-] & Hn)|(e' & ns & [= <-] & _ & Hns & Hn)].
           ++ unfold namesOf in Hn. rewrite Hl, Ha in Hn. simpl in Hn.
              by apply elem_of_nil in Hn.
           ++ destruct (well_typed_same_kind e ex ns Hwe Hwex (eq_sym Hty) Hns)
                as [a Ha']. congruence.
      * split.
        -- intros Hn. right. destruct (componentNames e) as [b|] eqn:Hb.
           ++ exists e, b. eauto.
           ++ simpl in Hn. by apply elem_of_nil in Hn.
        -- intros [(b0 & [= <-] & Hn)|(e' & ns & [= <-] & _ & Hns & Hn)].
           ++ unfold namesOf in Hn. rewrite Hl in Hn.
              by apply elem_of_nil in Hn.
           ++ by rewrite Hns.
    + fold (namesOf fe k). split; [eauto|].
      intros [(b0 & [= <-] & Hn)|(e' & ns & [= <-] & ? & _)]; [done|congruence].
  - unfold namesOf. simpl. destruct oe as [e|]; simpl.
    + rewrite lookupBy_singleton. case_decide as Hk.
      * split.
        -- intros Hn. right. destruct (componentNames e) as [b|] eqn:Hb.
           ++ exists e, b. eauto.
           ++ simpl in Hn. by apply elem_of_nil in Hn.
        -- intros [(b0 & ? & _)|(e' & ns & [= <-] & _ & Hns & Hn)]; [done|].
           by rewrite Hns.
      * rewrite elem_of_nil. split; [done|].
        intros [(b0 & ? & _)|(e' & ns & [= <-] & ? & _)]; done.
    + rewrite elem_of_nil. split; [done|].
      intros [(b0 & ? & _)|(e' & ns & ? & _)]; done.
Qed.

Lemma upsertBinding_filter ob fn oe oft :
  is_Some (formTypes (upsertBinding ob fn oe oft)) ↔
  hasFilter ob ∨ is_Some oft.
Proof.
  unfold hasFilter. destruct ob as [fe|]; simpl.
  - destruct oft as [inc|]; simpl.
    + split; [eauto|]. intros _. eauto.
    + split; [eauto|]. intros [(b & [= <-] & ?)|[? ?]]; done.
  - split; [eauto|]. intros [(b & ? & ?)|?]; done.
Qed.

Lemma upsertBinding_formType ob fn oe oft f :
  (∃ l, formTypes (upsertBinding ob fn oe oft) = Some l ∧ f ∈ l) ↔
  hasFormType ob f ∨ (∃ l, oft = Some l ∧ f ∈ l).
Proof.
  unfold hasFormType. destruct ob as [fe|]; simpl.
  - destruct oft as [inc|]; simpl.
    + split.
      * intros (l & [= <-] & [Hf|Hf]%elem_of_mergeUnique); [|eauto].
        left. destruct (formTypes fe) as [l0|] eqn:E; simpl in Hf.
        -- exists fe, l0. eauto.
        -- by apply elem_of_nil in Hf.
      * intros [(b & l & [= <-] & Hl & Hf)|(l & [= <-] & Hf)];
          eexists; (split; [done|]); apply elem_of_mergeUnique.
        -- left. by rewrite Hl.
        -- by right.
    + split.
      * intros (l & Hl & Hf). left. exists fe, l. eauto.
      * intros [(b & l & [= <-] & Hl & Hf)|(l & ? & _)]; [eauto|done].
  - split; [eauto|]. intros [(b & l & ? & _)|?]; done.
Qed.

Lemma upsertBinding_well_typed ob fn oe oft :
  (∀ b, ob = Some b → events_well_typed b) →
  (∀ e, oe = Some e → well_typed e) →
  events_well_typed (upsertBinding ob fn oe oft).
Proof.
  intros Hob Hoe. unfold events_well_typed. destruct ob as [fe|]; simpl.
  - destruct oe as [e|]; [|by apply Hob].
    apply upsertEventDetail_well_typed; [by apply Hob | by apply Hoe].
  - destruct oe as [e|]; [|done]. apply Forall_singleton. by apply Hoe.
Qed.

Lemma exists_elem_of_cons {A : Type} (P : A → Prop) x (l : list A) :
  (∃ y, y ∈ x :: l ∧ P y) ↔ P x ∨ (∃ y, y ∈ l ∧ P y).
Proof.
  split.
  - intros (y & [->|Hy]%elem_of_cons & Hp); eauto.
  - intros [Hp|(y & Hy & Hp)]; [exists x|exists y];
      (split; [|done]); apply elem_of_cons; eauto.
Qed.

(** The entry after a sequence of calls holds what the entry before held
    and what the calls brought, whatever the order of the calls. *)
Lemma bindingAfter_spec fn calls :
  Forall call_well_typed calls →
  ∀ ob, (∀ b, ob = Some b → events_well_typed b) →
  (is_Some (bindingAfter fn calls ob) ↔ is_Some ob ∨ ∃ call, call ∈ calls) ∧
  (∀ k, hasKind (bindingAfter fn calls ob) k ↔
        hasKind ob k ∨ ∃ call, call ∈ calls ∧ callHasKind call k) ∧
  (∀ k n, hasName (bindingAfter fn calls ob) k n ↔
          hasName ob k n ∨ ∃ call, call ∈ calls ∧ callHasName call k n) ∧
  (hasFilter (bindingAfter fn calls ob) ↔
     hasFilter ob ∨ ∃ call, call ∈ calls ∧ is_Some (call_formTypes call)) ∧
  (∀ f, hasFormType (bindingAfter fn calls ob) f ↔
        hasFormType ob f ∨ ∃ call, call ∈ calls ∧ callHasFormType call f).
Proof.
  induction calls as [|call calls IH]; intros Hcalls ob Hob.
  - simpl.
    assert (∀ P : UpsertCall → Prop, ¬ ∃ call, call ∈ [] ∧ P call) as Hno.
    { intros P (call & Hin & _). by apply elem_of_nil in Hin. }
    split_and!; intros; (split; [eauto|]).
    + intros [?|(call & Hin)]; [done|]. by eapply not_elem_of_nil in Hin.
    + intros [?|Hex]; [done|]. by apply Hno in Hex.
    + intros [?|Hex]; [done|]. by apply Hno in Hex.
    + intros [?|Hex]; [done|]. by apply Hno in Hex.
    + intros [?|Hex]; [done|]. by apply Hno in Hex.
  - apply Forall_cons in Hcalls as [Hcall Hcalls].
    unfold bindingAfter. simpl.
    fold (bindingAfter fn calls
            (Some (upsertBinding ob fn (call_event call) (call_formTypes call)))).
    set (b' := upsertBinding ob fn (call_event call) (call_formTypes call)).
    assert (∀ b, Some b' = Some b → events_well_typed b) as Hb'.
    { intros b [= <-]. by apply upsertBinding_well_typed. }
    destruct (IH Hcalls (Some b') Hb') as (I1 & I2 & I3 & I4 & I5).
    split_and!.
    + rewrite I1. split; [|eauto]. intros _. right. exists call. by left.
    + intros k. rewrite I2, exists_elem_of_cons.
      assert (hasKind (Some b') k ↔ k ∈ eventKinds b') as ->.
      { unfold hasKind. split; [by intros (b & [= <-] & ?)|eauto]. }
      unfold b'. rewrite upsertBinding_kinds. unfold callHasKind. tauto.
    + intros k n. rewrite I3, exists_elem_of_cons.
      assert (hasName (Some b') k n ↔ n ∈ namesOf b' k) as ->.
      { unfold hasName. split; [by intros (b & [= <-] & ?)|eauto]. }
      unfold b'. rewrite upsertBinding_names by done.
      unfold callHasName. tauto.
    + rewrite I4, exists_elem_of_cons.
      assert (hasFilter (Some b') ↔ is_Some (formTypes b')) as ->.
      { unfold hasFilter. split; [by intros (b & [= <-] & ?)|eauto]. }
      unfold b'. rewrite upsertBinding_filter. tauto.
    + intros f. rewrite I5, exists_elem_of_cons.
      assert (hasFormType (Some b') f ↔ ∃ l, formTypes b' = Some l ∧ f ∈ l)
        as ->.
      { unfold hasFormType. split.
        - intros (b & l & [= <-] & ?). eauto.
        - intros (l & ? & ?). eauto. }
      unfold b'. rewrite upsertBinding_formType. unfold callHasFormType. tauto.
Qed.

(** ** A call already applied is absorbed *)

Lemma absorbsEvent_upsert evs e : absorbsEvent (upsertEventDetail evs e) e.
Proof.
  unfold absorbsEvent, upsertEventDetail.
  destruct (list_find (λ e0, type e0 = type e) evs) as [[j ex]|] eqn:Hf.
  - assert (type ex = type e) as Hty
      by (apply list_find_Some in Hf; tauto).
    destruct (componentNames ex) as [a|] eqn:Ha;
      [destruct (componentNames e) as [b|] eqn:Hb|].
    + eexists j, _. split.
      * eapply (find_insert_same type); [exact Hf | exact Hty].
      * simpl. intros a' b' [= <-] [= <-] x Hx.
        apply elem_of_mergeUnique. by right.
    + exists j, ex. split; [done|]. intros; congruence.
    + exists j, ex. split; [done|]. intros; congruence.
  - eexists _, e. split.
    + rewrite list_find_app_r by done. simpl.
      rewrite decide_True by done. simpl. reflexivity.
    + intros a b Ha Hb x Hx. congruence.
Qed.

Lemma absorbsEvent_keep evs e e' :
  absorbsEvent evs e → absorbsEvent (upsertEventDetail evs e') e.
Proof.
  intros (j & ex & Hf & Hsub). unfold absorbsEvent, upsertEventDetail.
  destruct (list_find (λ e0, type e0 = type e') evs) as [[j' ex']|] eqn:Hf'.
  - assert (type ex' = type e') as Hty'
      by (apply list_find_Some in Hf'; tauto).
    destruct (componentNames ex') as [a'|] eqn:Ha';
      [destruct (componentNames e') as [b'|] eqn:Hb'|]; [|by eauto..].
    destruct (decide (type e = type e')) as [Heq|Hne].
    + rewrite Heq in Hf. rewrite Hf in Hf'. injection Hf' as <- <-.
      eexists j, _. split.
      * rewrite Heq. eapply (find_insert_same type); [exact Hf | exact Hty'].
      * simpl. intros a b [= <-] Hb x Hx. apply elem_of_mergeUnique. left.
        by eapply Hsub.
    + exists j, ex. split; [|done].
      by erewrite (find_insert_other type); [| exact Hf' | exact Hty' |].
  - exists j, ex. split; [|done]. by erewrite list_find_app_l.
Qed.

Lemma upsertEventDetail_absorbed evs e :
  absorbsEvent evs e → upsertEventDetail evs e = evs.
Proof.
  intros (j & ex & Hf & Hsub). unfold upsertEventDetail. rewrite Hf.
  destruct (componentNames ex) as [a|] eqn:Ha;
    [destruct (componentNames e) as [b|] eqn:Hb|]; [|done..].
  rewrite mergeUnique_absorb by (by eapply Hsub).
  apply list_insert_id. apply list_find_Some in Hf as (Hl & _ & _).
  rewrite Hl. f_equal. destruct ex as [t n]. simpl in *. by subst.
Qed.

Lemma absorbs_upsertBinding ob fn oe oft :
  absorbs (upsertBinding ob fn oe oft) oe oft.
Proof.
  destruct ob as [b|]; simpl; split; simpl.
  - intros e ->. apply absorbsEvent_upsert.
  - intros inc ->. eexists. split; [done|]. intros x Hx.
    apply elem_of_mergeUnique. by right.
  - intros e ->. exists 0, e. split.
    + simpl. by rewrite decide_True.
    + intros a b Ha Hb x Hx. congruence.
  - intros inc ->. by exists inc.
Qed.

Lemma absorbs_keep b oe oft oe' oft' :
  absorbs b oe oft → absorbs (upsertExisting b oe' oft') oe oft.
Proof.
  intros [He Hft]. split; simpl.
  - intros e Hoe. destruct oe' as [e'|]; [|by apply He].
    apply absorbsEvent_keep. by apply He.
  - intros inc Hoft. destruct (Hft inc Hoft) as (l & Hl & Hsub).
    destruct oft' as [inc'|]; [|by eauto].
    eexists. split; [done|]. intros x Hx. apply elem_of_mergeUnique. left.
    rewrite Hl. simpl. by apply Hsub.
Qed.

Lemma upsertExisting_absorbed b oe oft :
  absorbs b oe oft → upsertExisting b oe oft = b.
Proof.
  intros [He Hft]. destruct b as [fn fts evs]. unfold upsertExisting. simpl in *.
  f_equal.
  - destruct oft as [inc|]; [|done].
    destruct (Hft inc eq_refl) as (l & -> & Hsub). simpl.
    by rewrite mergeUnique_absorb.
  - destruct oe as [e|]; [|done]. apply upsertEventDetail_absorbed. by apply He.
Qed.

Lemma applied_upsert (r : Registry) call : applied (upsert r call) call.
Proof.
  unfold applied, upsert. rewrite methodBinding_upsert. eexists. split; [done|].
  apply absorbs_upsertBinding.
Qed.

Lemma applied_keep (r : Registry) call call' :
  applied r call → applied (upsert r call') call.
Proof.
  intros (b & Hb & Habs). unfold applied, upsert, methodBinding in *.
  rewrite getFormEvents_upsert. case_decide as Hc; [|by eauto].
  rewrite upsertInList_lookup. case_decide as Hm; [|rewrite <- Hc; by eauto].
  rewrite <- Hm, <- Hc, Hb. simpl. eexists. split; [done|].
  by apply absorbs_keep.
Qed.

Lemma applied_upserts (r : Registry) call calls :
  applied r call → applied (upserts calls r) call.
Proof.
  revert r. induction calls as [|call' calls IH]; intros r Hr; [done|].
  simpl. apply IH. by apply applied_keep.
Qed.

Lemma upsert_applied (r : Registry) call : applied r call → upsert r call = r.
Proof.
  intros (b & Hb & Habs). unfold upsert, upsertFunctionEvent.
  unfold methodBinding, lookupBy in Hb.
  destruct (list_find (λ a, functionName a = call_method call)
              (getFormEvents (call_class call) r)) as [[i b']|] eqn:Hf;
    [|done].
  simpl in Hb. injection Hb as ->.
  unfold upsertInList. rewrite Hf. rewrite upsertExisting_absorbed by done.
  apply list_find_Some in Hf as (Hl & _ & _).
  rewrite list_insert_id by done.
  unfold getFormEvents in *.
  destruct (r !! call_class call) as [l|] eqn:Hr; simpl in *.
  - by apply insert_id.
  - by rewrite lookup_nil in Hl.
Qed.

(** A call identical to one made earlier, whatever calls came in between,
    changes nothing. *)
Lemma upsert_again (r : Registry) calls0 call calls1 :
  upsert (upserts (calls0 ++ call :: calls1) r) call =
  upserts (calls0 ++ call :: calls1) r.
Proof.
  apply upsert_applied. unfold upserts. rewrite foldl_app. simpl.
  apply (applied_upserts _ call calls1). apply applied_upsert.
Qed.

Lemma binding_equiv_of_members ob1 ob2 :
  (is_Some ob1 ↔ is_Some ob2) →
  (∀ k, hasKind ob1 k ↔ hasKind ob2 k) →
  (∀ k n, hasName ob1 k n ↔ hasName ob2 k n) →
  (hasFilter ob1 ↔ hasFilter ob2) →
  (∀ f, hasFormType ob1 f ↔ hasFormType ob2 f) →
  option_Forall2 binding_equiv ob1 ob2.
Proof.
  intros Hs Hk Hn Hf Hm.
  destruct ob1 as [b1|], ob2 as [b2|].
  - constructor. split_and!.
    + intros k. specialize (Hk k). unfold hasKind in Hk. split; intros Hin.
      * destruct (proj1 Hk) as (b & [= <-] & ?); eauto.
      * destruct (proj2 Hk) as (b & [= <-] & ?); eauto.
    + intros k n. specialize (Hn k n). unfold hasName in Hn. split; intros Hin.
      * destruct (proj1 Hn) as (b & [= <-] & ?); eauto.
      * destruct (proj2 Hn) as (b & [= <-] & ?); eauto.
    + unfold same_filter, hasFilter, hasFormType in *.
      destruct (formTypes b1) as [l1|] eqn:E1, (formTypes b2) as [l2|] eqn:E2.
      * intros f. specialize (Hm f). split; intros Hin.
        -- destruct (proj1 Hm) as (b & l & [= <-] & Hl & ?); [eauto|].
           congruence.
        -- destruct (proj2 Hm) as (b & l & [= <-] & Hl & ?); [eauto|].
           congruence.
      * destruct (proj1 Hf) as (b & [= <-] & Hl); [eauto|].
        rewrite E2 in Hl. by destruct Hl.
      * destruct (proj2 Hf) as (b & [= <-] & Hl); [eauto|].
        rewrite E1 in Hl. by destruct Hl.
      * done.
  - destruct (proj1 Hs); [eauto|done].
  - destruct (proj2 Hs); [eauto|done].
  - constructor.
Qed.

(** * The registry: invariants and order independence *)

(** C2. For every sequence of [upsertFunctionEvent] calls that target the
    same class and method, made of event details as [Types.ts] declares
    them, and every permutation of it, the entry of the method after the
    permuted sequence has the same event kinds, the same component names
    for every kind and the same form type filter as after the original
    sequence, all compared as sets (and it exists after the one iff it
    exists after the other). *)
Theorem upsert_order_independent (r : Registry) c fn calls1 calls2 :
  calls1 ≡ₚ calls2 →
  Forall (targets c fn) calls1 →
  Forall call_well_typed calls1 →
  (∀ b, methodBinding r c fn = Some b → events_well_typed b) →
  option_Forall2 binding_equiv
    (methodBinding (upserts calls1 r) c fn)
    (methodBinding (upserts calls2 r) c fn).
Proof.
  intros Hperm Ht1 Hw1 Hr.
  assert (Forall (targets c fn) calls2) as Ht2 by (by rewrite <- Hperm).
  assert (Forall call_well_typed calls2) as Hw2 by (by rewrite <- Hperm).
  rewrite !methodBinding_upserts by done.
  destruct (bindingAfter_spec fn calls1 Hw1 _ Hr) as (A1 & A2 & A3 & A4 & A5).
  destruct (bindingAfter_spec fn calls2 Hw2 _ Hr) as (B1 & B2 & B3 & B4 & B5).
  assert (∀ P : UpsertCall → Prop,
            (∃ call, call ∈ calls1 ∧ P call) ↔ (∃ call, call ∈ calls2 ∧ P call))
    as Hex.
  { intros P. split; intros (call & Hin & Hp); exists call; split; try done.
    - by rewrite <- Hperm.
    - by rewrite Hperm. }
  apply binding_equiv_of_members.
  - rewrite A1, B1.
    assert ((∃ call, call ∈ calls1) ↔ (∃ call, call ∈ calls2)) as ->; [|done].
    split; intros (call & Hin); exists call.
    + by rewrite <- Hperm.
    + by rewrite Hperm.
  - intros k. by rewrite A2, B2, Hex.
  - intros k n. by rewrite A3, B3, Hex.
  - by rewrite A4, B4, Hex.
  - intros f. by rewrite A5, B5, Hex.
Qed.

Lemma upsert_order_independent_witness :
  ([Examples.onChangeFirst; Examples.onChangeLast]
     ≡ₚ [Examples.onChangeLast; Examples.onChangeFirst]) ∧
  option_Forall2 binding_equiv
    (methodBinding
       (upserts [Examples.onChangeFirst; Examples.onChangeLast] ∅)
       1%positive "onNameChange")
    (methodBinding
       (upserts [Examples.onChangeLast; Examples.onChangeFirst] ∅)
       1%positive "onNameChange").
Proof.
  split; [apply perm_swap|].
  apply (upsert_order_independent ∅ 1%positive "onNameChange").
  - apply perm_swap.
  - repeat constructor.
  - repeat constructor; intros e [= <-]; reflexivity.
  - intros b Hb. unfold methodBinding in Hb.
    rewrite getFormEvents_empty in Hb. discriminate Hb.
Defined.

(** Without the typing of event details the order of two calls shows: a
    detail of kind [OnChange] without names, then one with names, leaves no
    name; the other way round leaves the name. *)
Example order_matters_for_untyped_details :
  let bare := {| call_class := 1%positive; call_method := "m";
                 call_event := Some {| type := OnChange;
                                       componentNames := None |};
                 call_formTypes := None |} in
  let named := {| call_class := 1%positive; call_method := "m";
                  call_event := Some {| type := OnChange;
                                        componentNames := Some ["a"] |};
                  call_formTypes := None |} in
  ((λ b, namesOf b OnChange) <$>
     methodBinding (upserts [bare; named] ∅) 1%positive "m") = Some [] ∧
  ((λ b, namesOf b OnChange) <$>
     methodBinding (upserts [named; bare] ∅) 1%positive "m") = Some ["a"].
Proof. split; vm_compute; reflexivity. Qed.

(** C6, amended. After any sequence of [upsertFunctionEvent] calls, a class
    has at most one entry per method name and an entry has at most one
    event per kind; if no call brings a name list that repeats a name, no
    stored name list repeats a name; merging a name that is already there
    changes nothing; and making a call a second time, with arguments
    identical to those of a call already made, leaves the registry (hence
    the entry of the method) unchanged: right after the first, and also
    after any number of other calls in between, from any registry. *)
Theorem registry_invariants (calls : list UpsertCall) :
  (∀ c, methods_unique (getFormEvents c (upserts calls ∅))) ∧
  (∀ c, kinds_unique (getFormEvents c (upserts calls ∅))) ∧
  (Forall call_names_nodup calls →
   ∀ c, names_unique (getFormEvents c (upserts calls ∅))) ∧
  (∀ (existing : list string) n,
     n ∈ existing → mergeUnique existing [n] = existing) ∧
  (∀ c fn eventDetail formTypes',
     upsertFunctionEvent c fn eventDetail formTypes'
       (upsertFunctionEvent c fn eventDetail formTypes' (upserts calls ∅)) =
     upsertFunctionEvent c fn eventDetail formTypes' (upserts calls ∅)) ∧
  (∀ (r : Registry) calls0 call calls1,
     upsert (upserts (calls0 ++ call :: calls1) r) call =
     upserts (calls0 ++ call :: calls1) r).
Proof.
  split_and!.
  - apply (upserts_invariant methods_unique (λ _, True)).
    + apply NoDup_nil_2.
    + intros fes call _. apply upsertInList_methods_unique.
    + by apply Forall_true.
  - apply (upserts_invariant kinds_unique (λ _, True)).
    + apply Forall_nil_2.
    + intros fes call _. apply upsertInList_kinds_unique.
    + by apply Forall_true.
  - apply (upserts_invariant names_unique call_names_nodup).
    + apply Forall_nil_2.
    + intros fes call Hcall. by apply upsertInList_names_unique.
  - intros existing n Hn. apply mergeUnique_absorb.
    by intros x ->%list_elem_of_singleton.
  - intros. apply upsertFunctionEvent_idem.
  - intros. apply upsert_again.
Qed.

Lemma registry_invariants_witness :
  Forall call_names_nodup [Examples.onChangeFirst; Examples.onChangeLast] ∧
  names_unique
    (getFormEvents 1%positive
       (upserts [Examples.onChangeFirst; Examples.onChangeLast] ∅)).
Proof.
  assert (Forall call_names_nodup
            [Examples.onChangeFirst; Examples.onChangeLast]) as H.
  { repeat constructor; intros e [= <-] ns [= <-];
      apply NoDup_singleton. }
  split; [exact H|].
  exact (proj1 (proj2 (proj2
           (registry_invariants
              [Examples.onChangeFirst; Examples.onChangeLast]))) H 1%positive).
Defined.

(** A call repeated after another call has merged into the same entry. *)
Example repeated_call_absorbed :
  upserts [Examples.onChangeFirst; Examples.onChangeLast;
           Examples.onChangeFirst] ∅ =
  upserts [Examples.onChangeFirst; Examples.onChangeLast] ∅.
Proof. vm_compute. reflexivity. Qed.

(** C6 as stated fails: a name repeated in the name list of a single call
    is stored twice. *)
Lemma duplicate_names_kept :
  methodBinding (upserts [Examples.onChangeTwice] ∅) 1%positive "onNameChange"
  = Some {| functionName := "onNameChange";
            formTypes := None;
            events := [ {| type := OnChange;
                           componentNames :=
                             Some ["firstname"; "firstname"] |} ] |} ∧
  ¬ names_unique (getFormEvents 1%positive (upserts [Examples.onChangeTwice] ∅)).
Proof.
  split; [vm_compute; reflexivity|].
  intros H. apply Forall_cons in H as [H _].
  apply Forall_cons in H as [H _].
  specialize (H _ eq_refl).
  apply NoDup_cons in H as [H _]. apply H. by left.
Qed.

(** * The warning aggregator *)

Lemma firstSeen_snoc msgs m :
  firstSeen (msgs ++ [m]) =
    if decide (m ∈ msgs) then firstSeen msgs else firstSeen msgs ++ [m].
Proof.
  unfold firstSeen. rewrite reverse_snoc. simpl.
  destruct (decide_rel elem_of m (reverse msgs)) as [Hin|Hin];
    rewrite elem_of_reverse in Hin.
  - by rewrite decide_True.
  - rewrite decide_False by done. by rewrite reverse_cons.
Qed.

Lemma elem_of_firstSeen msgs m : m ∈ firstSeen msgs ↔ m ∈ msgs.
Proof.
  unfold firstSeen.
  by rewrite elem_of_reverse, elem_of_remove_dups, elem_of_reverse.
Qed.

Lemma NoDup_firstSeen msgs : NoDup (firstSeen msgs).
Proof.
  unfold firstSeen. rewrite reverse_Permutation. apply NoDup_remove_dups.
Qed.

Lemma occurrences_snoc msgs m x :
  occurrences x (msgs ++ [m]) =
    occurrences x msgs + (if decide (m = x) then 1 else 0).
Proof.
  unfold occurrences. rewrite filter_app, length_app. f_equal.
  rewrite filter_cons. by case_decide.
Qed.

Lemma occurrences_absent msgs m : m ∉ msgs → occurrences m msgs = 0.
Proof.
  intros Hm. unfold occurrences.
  assert (filter (λ x, x = m) msgs = []) as ->; [|done].
  induction msgs as [|y msgs IH]; [done|].
  rewrite not_elem_of_cons in Hm. destruct Hm as [Hne Hm].
  rewrite filter_cons_False by congruence. by apply IH.
Qed.

(** The counters after a sequence of messages, from no counter. *)
Lemma countWarning_all msgs :
  foldl (λ counts m, countWarning m counts) [] msgs =
  (λ m, (m, occurrences m msgs)) <$> firstSeen msgs.
Proof.
  induction msgs as [|m msgs IH] using rev_ind; [done|].
  rewrite foldl_app. simpl. rewrite IH. clear IH.
  rewrite firstSeen_snoc. unfold countWarning, map_get, map_set.
  case_decide as Hin.
  - apply elem_of_firstSeen, list_elem_of_lookup in Hin as [i Hi].
    assert (list_find (λ p : string * nat, p.1 = m)
              ((λ m0, (m0, occurrences m0 msgs)) <$> firstSeen msgs)
            = Some (i, (m, occurrences m msgs))) as Hf.
    { apply list_find_Some. split_and!.
      - by rewrite list_lookup_fmap, Hi.
      - done.
      - intros j [y c] Hj Hlt Hy. simpl in Hy. subst y.
        rewrite list_lookup_fmap in Hj.
        destruct (firstSeen msgs !! j) as [y|] eqn:Ej; [|done].
        simpl in Hj. injection Hj as -> _.
        assert (j = i) by (eapply NoDup_lookup; eauto using NoDup_firstSeen).
        lia. }
    unfold lookupBy. rewrite Hf. simpl.
    apply list_eq. intros j. rewrite list_lookup_fmap.
    destruct (decide (j = i)) as [->|Hne].
    + rewrite list_lookup_insert_eq
        by (rewrite length_fmap; by eapply lookup_lt_Some).
      rewrite Hi. simpl. rewrite occurrences_snoc, decide_True by done. done.
    + rewrite list_lookup_insert_ne by done. rewrite list_lookup_fmap.
      destruct (firstSeen msgs !! j) as [y|] eqn:Ej; [|done]. simpl.
      rewrite occurrences_snoc, decide_False; [by rewrite Nat.add_0_r|].
      intros <-. apply Hne. eapply NoDup_lookup; eauto using NoDup_firstSeen.
  - assert (list_find (λ p : string * nat, p.1 = m)
              ((λ m0, (m0, occurrences m0 msgs)) <$> firstSeen msgs) = None)
      as Hf.
    { apply list_find_None, Forall_fmap, Forall_forall. intros y Hy. simpl.
      intros ->. by apply Hin, elem_of_firstSeen. }
    unfold lookupBy. rewrite Hf. simpl. rewrite fmap_app. simpl.
    rewrite occurrences_snoc, decide_True by done.
    rewrite (occurrences_absent msgs m) by done. f_equal.
    apply list_fmap_ext. intros j y Hy.
    rewrite occurrences_snoc, decide_False; [by rewrite Nat.add_0_r|].
    intros ->. apply Hin, elem_of_firstSeen. by eapply list_elem_of_lookup_2.
Qed.

Lemma logAll_state {Item : Type} msgs (s : DispatchState Item) :
  warningCounts (logAll msgs s) =
    foldl (λ counts m, countWarning m counts) (warningCounts s) msgs ∧
  hostCalls (logAll msgs s) = hostCalls s ∧
  warned (logAll msgs s) = warned s.
Proof.
  revert s. induction msgs as [|m msgs IH]; intros s; [done|].
  unfold logAll. simpl. fold (logAll msgs (logGroupedWarning m s)).
  destruct (IH (logGroupedWarning m s)) as (-> & -> & ->). done.
Qed.

(** C7. Each [logGroupedWarning] call counts its exact message; from no
    pending warning, after any sequence of messages, the counters hold each
    distinct message once, in the order of first occurrence, with its
    number of occurrences; [flushGroupedWarnings] gives the logger one line
    per distinct message in that order, the line being the message after a
    space, preceded by the count marker [(Nx)] exactly when the count [N] is
    greater than 1; after the flush no counter is left and a second flush
    logs nothing. *)
Theorem warning_aggregation {Item : Type}
    (msgs : list string) (s : DispatchState Item) :
  warningCounts s = [] →
  warningCounts (logAll msgs s) =
    (λ m, (m, occurrences m msgs)) <$> firstSeen msgs ∧
  warned (flushGroupedWarnings (logAll msgs s)) =
    warned s ++
    ((λ m, (if decide (1 < occurrences m msgs)
            then "(" +:+ pretty (occurrences m msgs) +:+ "x)"
            else EmptyString) +:+ " " +:+ m) <$> firstSeen msgs) ∧
  warningCounts (flushGroupedWarnings (logAll msgs s)) = [] ∧
  flushGroupedWarnings (flushGroupedWarnings (logAll msgs s)) =
    flushGroupedWarnings (logAll msgs s).
Proof.
  intros Hs. destruct (logAll_state msgs s) as (Hc & Hh & Hw).
  rewrite Hs, countWarning_all in Hc. split_and!.
  - done.
  - unfold flushGroupedWarnings. simpl. rewrite Hc, Hw. f_equal.
    rewrite <- list_fmap_compose. apply list_fmap_ext. intros i m _. simpl.
    destruct (1 <? occurrences m msgs) eqn:E.
    + apply Nat.ltb_lt in E. by rewrite decide_True.
    + apply Nat.ltb_ge in E. rewrite decide_False by lia. done.
  - done.
  - unfold flushGroupedWarnings. simpl. by rewrite app_nil_r.
Qed.

Lemma warning_aggregation_witness :
  warningCounts (@idle unit) = [] ∧
  warned (flushGroupedWarnings
            (logAll ["tab missing"; "field missing"; "tab missing"]
                    (@idle unit)))
  = ["(2x) tab missing"; " field missing"].
Proof.
  split; [reflexivity|].
  exact (proj1 (proj2
           (warning_aggregation
              ["tab missing"; "field missing"; "tab missing"]
              (@idle unit) eq_refl))).
Defined.

(** * The dispatcher *)

Section dispatch_lemmas.
Context {Item : Type}.
Implicit Types s : DispatchState Item.
Implicit Types P : HostCall Item → Prop.

(** ** Sequencing *)

Lemma andThen_ext (f f' g g' : DispatchState Item → Completion (DispatchState Item)) s :
  (∀ s, f s = f' s) → (∀ s, g s = g' s) → (f >> g) s = (f' >> g') s.
Proof. intros Hf Hg. unfold andThen. rewrite Hf. destruct (f' s); auto. Qed.

Lemma forEach_app {A : Type} (l1 l2 : list A)
    (body : A → DispatchState Item → Completion (DispatchState Item)) s :
  forEach (l1 ++ l2) body s = (forEach l1 body >> forEach l2 body) s.
Proof.
  revert s. induction l1 as [|x l1 IH]; intros s; [done|].
  simpl. unfold andThen. simpl. destruct (body x s); [|done].
  rewrite IH. done.
Qed.

Lemma forEach_ext {A : Type} (l : list A)
    (body body' : A → DispatchState Item → Completion (DispatchState Item)) s :
  (∀ x s, x ∈ l → body x s = body' x s) →
  forEach l body s = forEach l body' s.
Proof.
  revert s. induction l as [|x l IH]; intros s Hb; [done|].
  simpl. rewrite Hb by (by left). destruct (body' x s); [|done].
  apply IH. intros y s' Hy. apply Hb. by right.
Qed.

(** ** Calls added *)

Lemma addsCalls_refl P s : addsCalls P s s.
Proof. exists []. by rewrite app_nil_r. Qed.

Lemma addsCalls_trans P s1 s2 s3 :
  addsCalls P s1 s2 → addsCalls P s2 s3 → addsCalls P s1 s3.
Proof.
  intros (n1 & H1 & F1) (n2 & H2 & F2). exists (n1 ++ n2). split.
  - by rewrite H2, H1, app_assoc.
  - by apply Forall_app.
Qed.

Lemma addsCalls_mono P Q s s' :
  (∀ c, P c → Q c) → addsCalls P s s' → addsCalls Q s s'.
Proof.
  intros HPQ (n & H & F). exists n. split; [done|].
  eapply Forall_impl; eauto.
Qed.

Lemma addsCalls_callHost P c s : P c → addsCalls P s (callHost c s).
Proof. intros Hc. exists [c]. split; [done|]. by apply Forall_singleton. Qed.

Lemma addsCalls_log P m s : addsCalls P s (logGroupedWarning m s).
Proof. exists []. simpl. by rewrite app_nil_r. Qed.

Lemma addsCalls_flush P s : addsCalls P s (flushGroupedWarnings s).
Proof. exists []. simpl. by rewrite app_nil_r. Qed.

Lemma addsCalls_elem P s s' c :
  addsCalls P s s' → c ∈ hostCalls s' → c ∈ hostCalls s ∨ P c.
Proof.
  intros (n & H & F) Hc. rewrite H in Hc.
  apply elem_of_app in Hc as [?|Hc]; [by left|right].
  rewrite Forall_forall in F. by apply F.
Qed.

Lemma addsCalls_keeps P s s' c :
  addsCalls P s s' → c ∈ hostCalls s → c ∈ hostCalls s'.
Proof. intros (n & H & F) Hc. rewrite H. apply elem_of_app. by left. Qed.

Lemma forEach_addsCalls {A : Type} P (l : list A)
    (body : A → DispatchState Item → Completion (DispatchState Item)) :
  (∀ x s, x ∈ l → addsCalls P s (final (body x s))) →
  ∀ s, addsCalls P s (final (forEach l body s)).
Proof.
  induction l as [|x l IH]; intros Hb s; [apply addsCalls_refl|].
  simpl. specialize (Hb x s (list_elem_of_here _ _)) as Hx.
  destruct (body x s) as [s1|s1]; [|done].
  eapply addsCalls_trans; [exact Hx|]. apply IH.
  intros y s' Hy. apply Hb. by right.
Qed.

Lemma andThen_addsCalls P
    (f g : DispatchState Item → Completion (DispatchState Item)) s :
  (∀ s, addsCalls P s (final (f s))) →
  (∀ s, addsCalls P s (final (g s))) →
  addsCalls P s (final ((f >> g) s)).
Proof.
  intros Hf Hg. unfold andThen. specialize (Hf s).
  destruct (f s) as [s1|s1]; [|done].
  eapply addsCalls_trans; [exact Hf|]. apply Hg.
Qed.

(** In a run that ends normally, each element of the list had its turn, and
    what the host had received after that turn is still there at the end. *)
Lemma forEach_turn {A : Type} (l : list A)
    (body : A → DispatchState Item → Completion (DispatchState Item)) :
  (∀ x s, x ∈ l → addsCalls (λ _, True) s (final (body x s))) →
  ∀ s s' x, forEach l body s = Normal s' → x ∈ l →
  ∃ sa sb, body x sa = Normal sb ∧ addsCalls (λ _, True) sb s'.
Proof.
  induction l as [|y l IH]; intros Hb s s' x Hrun Hx.
  - by apply elem_of_nil in Hx.
  - simpl in Hrun. destruct (body y s) as [s1|s1] eqn:Hy; [|done].
    assert (∀ x s, x ∈ l → addsCalls (λ _, True) s (final (body x s))) as Hb'.
    { intros z s2 Hz. apply Hb. by right. }
    apply elem_of_cons in Hx as [->|Hx].
    + exists s, s1. split; [done|].
      pose proof (forEach_addsCalls (λ _, True) l body Hb' s1) as H.
      by rewrite Hrun in H.
    + by eapply IH.
Qed.

(** ** The two generic dispatchers *)

Lemma handlersOf_app (hs1 hs2 : list FormEventDetails) k :
  handlersOf (hs1 ++ hs2) k = handlersOf hs1 k ++ handlersOf hs2 k.
Proof. unfold handlersOf. apply filter_app. Qed.

Lemma handlersOf_elem (hs : list FormEventDetails) k h :
  h ∈ handlersOf hs k ↔ h ∈ hs ∧ k ∈ eventKinds h.
Proof.
  unfold handlersOf. rewrite list_elem_of_filter, lookupBy_is_Some.
  unfold eventKinds. tauto.
Qed.

Lemma applySimpleEvents_app inst hs1 hs2 ft k op s :
  applySimpleEvents inst (hs1 ++ hs2) ft k op s =
  (applySimpleEvents inst hs1 ft k op >> applySimpleEvents inst hs2 ft k op) s.
Proof. unfold applySimpleEvents. by rewrite handlersOf_app, forEach_app. Qed.

Lemma applyComponentEvents_app inst hs1 hs2 ft k
    (getItems : list string → list Item) chk nm reg s :
  applyComponentEvents inst (hs1 ++ hs2) ft k getItems chk nm reg s =
  (applyComponentEvents inst hs1 ft k getItems chk nm reg
   >> applyComponentEvents inst hs2 ft k getItems chk nm reg) s.
Proof. unfold applyComponentEvents. by rewrite handlersOf_app, forEach_app. Qed.

(** An entry that fails the form type filter, or whose method the instance
    lacks, is passed over. *)
Lemma applySimpleEvents_skip inst h ft k op s :
  isFormTypeAuthorized (formTypes h) ft = false ∨
  member inst (functionName h) = member_falsy →
  applySimpleEvents inst [h] ft k op s = Normal s.
Proof.
  intros Hskip. unfold applySimpleEvents, handlersOf.
  rewrite filter_cons, filter_nil. case_decide; [|done]. simpl.
  destruct Hskip as [-> | Hm]; [done|].
  rewrite Hm. by destruct (negb _).
Qed.

Lemma applyComponentEvents_skip inst h ft k
    (getItems : list string → list Item) chk nm reg s :
  isFormTypeAuthorized (formTypes h) ft = false ∨
  member inst (functionName h) = member_falsy →
  applyComponentEvents inst [h] ft k getItems chk nm reg s = Normal s.
Proof.
  intros Hskip. unfold applyComponentEvents, handlersOf.
  rewrite filter_cons, filter_nil. case_decide; [|done]. simpl.
  destruct Hskip as [-> | Hm]; [done|].
  rewrite Hm. by destruct (negb _).
Qed.

(** An entry that passes the filter is handled as the entry without filter. *)
Lemma applySimpleEvents_unfiltered inst h ft k op s :
  isFormTypeAuthorized (formTypes h) ft = true →
  applySimpleEvents inst [h] ft k op s =
  applySimpleEvents inst [unfiltered h] ft k op s.
Proof.
  intros Hauth. unfold applySimpleEvents, handlersOf.
  rewrite !filter_cons, !filter_nil. simpl.
  case_decide; [|done]. simpl. by rewrite Hauth.
Qed.

Lemma applyComponentEvents_unfiltered inst h ft k
    (getItems : list string → list Item) chk nm reg s :
  isFormTypeAuthorized (formTypes h) ft = true →
  applyComponentEvents inst [h] ft k getItems chk nm reg s =
  applyComponentEvents inst [unfiltered h] ft k getItems chk nm reg s.
Proof.
  intros Hauth. unfold applyComponentEvents, handlersOf.
  rewrite !filter_cons, !filter_nil. simpl.
  case_decide; [|done]. simpl. by rewrite Hauth.
Qed.

(** Replacing the entries in the middle of the list by entries that are
    handled alike does not change a step. *)
Lemma applySimpleEvents_middle inst hs1 mid mid' hs2 ft k op s :
  (∀ s, applySimpleEvents inst mid ft k op s =
        applySimpleEvents inst mid' ft k op s) →
  applySimpleEvents inst (hs1 ++ mid ++ hs2) ft k op s =
  applySimpleEvents inst (hs1 ++ mid' ++ hs2) ft k op s.
Proof.
  intros Hmid. rewrite !applySimpleEvents_app.
  apply andThen_ext; [done|]. intros s1. rewrite !applySimpleEvents_app.
  by apply andThen_ext.
Qed.

Lemma applyComponentEvents_middle inst hs1 mid mid' hs2 ft k
    (getItems : list string → list Item) chk nm reg s :
  (∀ s, applyComponentEvents inst mid ft k getItems chk nm reg s =
        applyComponentEvents inst mid' ft k getItems chk nm reg s) →
  applyComponentEvents inst (hs1 ++ mid ++ hs2) ft k getItems chk nm reg s =
  applyComponentEvents inst (hs1 ++ mid' ++ hs2) ft k getItems chk nm reg s.
Proof.
  intros Hmid. rewrite !applyComponentEvents_app.
  apply andThen_ext; [done|]. intros s1. rewrite !applyComponentEvents_app.
  by apply andThen_ext.
Qed.
End dispatch_lemmas.

Section dispatch_facts.
Context {Item : Type}.
Implicit Types s : DispatchState Item.

(** ** Every call made to the host is made for an entry that passed *)

Lemma registerBatch_calls op (items : list Item) handler s :
  addsCalls (λ c, listenerMethod (callListener c) = listenerMethod handler)
            s (registerBatch op items handler s).
Proof. by apply addsCalls_callHost. Qed.

Lemma registerTabSpecific_calls st (items : list Item) handler s :
  addsCalls (λ c, listenerMethod (callListener c) = listenerMethod handler)
            s (registerTabSpecific st items handler s).
Proof.
  unfold registerTabSpecific. revert s.
  induction items as [|tab items IH]; intros s; [apply addsCalls_refl|].
  simpl. eapply addsCalls_trans; [|apply IH]. by apply addsCalls_callHost.
Qed.

Lemma applySimpleEvents_calls inst hs ft k op s :
  addsCalls (callForKind inst hs ft k) s
    (final (applySimpleEvents inst hs ft k op s)).
Proof.
  unfold applySimpleEvents. apply forEach_addsCalls. intros h s' Hh.
  apply handlersOf_elem in Hh as [Hin Hk].
  destruct (isFormTypeAuthorized (formTypes h) ft) eqn:Ha; simpl;
    [|apply addsCalls_refl].
  destruct (member inst (functionName h)) eqn:Hm; simpl;
    try apply addsCalls_refl.
  apply addsCalls_callHost. by exists h.
Qed.

Lemma applyComponentEvent_calls inst ft k
    (getItems : list string → list Item) chk nm reg fn handler e s :
  (∀ items handler s,
     addsCalls (λ c, listenerMethod (callListener c) = listenerMethod handler)
               s (reg items handler s)) →
  addsCalls (λ c, listenerMethod (callListener c) = listenerMethod handler) s
    (applyComponentEvent inst ft k getItems chk nm reg fn handler e s).
Proof.
  intros Hreg. unfold applyComponentEvent.
  match goal with |- context [if ?b then _ else _] => destruct b end.
  - eapply addsCalls_trans; [apply Hreg|apply addsCalls_log].
  - apply Hreg.
Qed.

Lemma applyComponentEvents_calls inst hs ft k
    (getItems : list string → list Item) chk nm reg s :
  (∀ items handler s,
     addsCalls (λ c, listenerMethod (callListener c) = listenerMethod handler)
               s (reg items handler s)) →
  addsCalls (callForKind inst hs ft k) s
    (final (applyComponentEvents inst hs ft k getItems chk nm reg s)).
Proof.
  intros Hreg. unfold applyComponentEvents. apply forEach_addsCalls.
  intros h s' Hh. apply handlersOf_elem in Hh as [Hin Hk].
  destruct (isFormTypeAuthorized (formTypes h) ft) eqn:Ha; simpl;
    [|apply addsCalls_refl].
  destruct (member inst (functionName h)) eqn:Hm; simpl;
    try apply addsCalls_refl.
  apply forEach_addsCalls. intros e s'' _. simpl.
  eapply addsCalls_mono; [|by apply applyComponentEvent_calls].
  intros c Hc. by exists h.
Qed.

Lemma dispatchSteps_calls (host : Host Item) inst hs ft :
  Forall (λ step, ∀ s, addsCalls (callFor inst hs ft) s (final (step s)))
         (dispatchSteps host inst hs ft).
Proof.
  unfold dispatchSteps.
  repeat (apply Forall_cons; split); try apply Forall_nil_2; intros s;
    (eapply addsCalls_mono;
     [| first [ apply applySimpleEvents_calls
              | apply applyComponentEvents_calls; intros;
                first [apply registerBatch_calls
                      |apply registerTabSpecific_calls] ] ];
     intros c Hc;
     match type of Hc with callForKind _ _ _ ?k _ => exists k end;
     split; [discriminate|exact Hc]).
Qed.

Lemma validateHandlers_calls P inst hs s :
  addsCalls P s (validateHandlers inst hs s).
Proof.
  unfold validateHandlers.
  match goal with |- context [if ?b then _ else _] => destruct b end;
    [apply addsCalls_log|apply addsCalls_refl].
Qed.

(** [apply] is validation, the 23 steps in order, and the flush. *)
Lemma apply_steps r (inst : Instance) (host : Host Item) ft s :
  apply r inst host ft s =
  ((λ s, Normal (validateHandlers inst
                   (getFormEvents (constructor inst) r) s))
   >> forEach (dispatchSteps host inst
                 (getFormEvents (constructor inst) r) ft) (λ step, step)
   >> (λ s, Normal (flushGroupedWarnings s))) s.
Proof.
  unfold apply, dispatchSteps, andThen. simpl.
  repeat match goal with
         | |- context [match ?f ?x with Normal _ => _ | Throw _ => _ end] =>
             lazymatch f with
             | forEach _ _ => fail
             | _ => destruct (f x); [|reflexivity]
             end
         end.
  reflexivity.
Qed.

Lemma dispatch_calls (host : Host Item) inst hs ft s :
  addsCalls (callFor inst hs ft) s
    (final (forEach (dispatchSteps host inst hs ft) (λ step, step) s)).
Proof.
  apply forEach_addsCalls. intros step s' Hstep.
  pose proof (dispatchSteps_calls host inst hs ft) as Hall.
  rewrite Forall_forall in Hall. by apply Hall.
Qed.

Lemma apply_calls r inst (host : Host Item) ft s :
  addsCalls (callFor inst (getFormEvents (constructor inst) r) ft) s
    (final (apply r inst host ft s)).
Proof.
  rewrite apply_steps. apply andThen_addsCalls; [|intros; apply addsCalls_flush].
  intros s1. apply andThen_addsCalls.
  - intros s2. apply validateHandlers_calls.
  - intros s2. apply dispatch_calls.
Qed.

(** ** Runs that end normally *)

Lemma forEach_completes {A : Type} (l : list A)
    (body : A → DispatchState Item → Completion (DispatchState Item)) :
  (∀ x s, x ∈ l → ∃ s', body x s = Normal s') →
  ∀ s, ∃ s', forEach l body s = Normal s'.
Proof.
  induction l as [|x l IH]; intros Hb s; [by eexists|].
  simpl. destruct (Hb x s (list_elem_of_here _ _)) as [s1 ->].
  apply IH. intros y s' Hy. apply Hb. by right.
Qed.

Lemma applySimpleEvents_completes inst hs ft k op s :
  (∀ h, h ∈ hs → member inst (functionName h) ≠ member_other) →
  ∃ s', applySimpleEvents inst hs ft k op s = Normal s'.
Proof.
  intros Hm. unfold applySimpleEvents. apply forEach_completes.
  intros h s1 [Hin _]%handlersOf_elem. specialize (Hm h Hin).
  destruct (negb _); [by eexists|].
  destruct (member inst (functionName h)); [by eexists|by eexists|].
  by destruct Hm.
Qed.

Lemma applyComponentEvents_completes inst hs ft k
    (getItems : list string → list Item) chk nm reg s :
  (∀ h, h ∈ hs → member inst (functionName h) ≠ member_other) →
  ∃ s', applyComponentEvents inst hs ft k getItems chk nm reg s = Normal s'.
Proof.
  intros Hm. unfold applyComponentEvents. apply forEach_completes.
  intros h s1 [Hin _]%handlersOf_elem. specialize (Hm h Hin).
  destruct (negb _); [by eexists|].
  destruct (member inst (functionName h)); [by eexists| |by destruct Hm].
  apply forEach_completes. intros e s2 _. by eexists.
Qed.

Lemma dispatch_completes (host : Host Item) inst hs ft s :
  (∀ h, h ∈ hs → member inst (functionName h) ≠ member_other) →
  ∃ s', forEach (dispatchSteps host inst hs ft) (λ step, step) s = Normal s'.
Proof.
  intros Hm. apply forEach_completes. intros step s1 Hstep.
  unfold dispatchSteps in Hstep.
  repeat (apply elem_of_cons in Hstep as [->|Hstep];
          [first [by apply applySimpleEvents_completes
                 |by apply applyComponentEvents_completes]|]).
  by apply elem_of_nil in Hstep.
Qed.

Lemma apply_completes r inst (host : Host Item) ft s :
  (∀ h, h ∈ getFormEvents (constructor inst) r →
        member inst (functionName h) ≠ member_other) →
  ∃ s', apply r inst host ft s = Normal s'.
Proof.
  intros Hm. rewrite apply_steps. unfold andThen.
  destruct (dispatch_completes host inst _ ft
              (validateHandlers inst (getFormEvents (constructor inst) r) s) Hm)
    as [s1 ->].
  by eexists.
Qed.

(** ** Entries handled alike *)

Lemma validateHandlers_names inst hs hs' s :
  functionName <$> filter (λ h, length (events h) = 0) hs =
  functionName <$> filter (λ h, length (events h) = 0) hs' →
  validateHandlers inst hs s = validateHandlers inst hs' s.
Proof. intros H. unfold validateHandlers. by rewrite H. Qed.

Lemma apply_middle r r' inst (host : Host Item) ft hs1 mid mid' hs2 s :
  getFormEvents (constructor inst) r = hs1 ++ mid ++ hs2 →
  getFormEvents (constructor inst) r' = hs1 ++ mid' ++ hs2 →
  functionName <$> filter (λ h, length (events h) = 0) mid =
  functionName <$> filter (λ h, length (events h) = 0) mid' →
  (∀ k op s, applySimpleEvents inst mid ft k op s =
             applySimpleEvents inst mid' ft k op s) →
  (∀ k (getItems : list string → list Item) chk nm reg s,
     applyComponentEvents inst mid ft k getItems chk nm reg s =
     applyComponentEvents inst mid' ft k getItems chk nm reg s) →
  apply r inst host ft s = apply r' inst host ft s.
Proof.
  intros Hr Hr' Hv Hs Hc. unfold apply. rewrite Hr, Hr'. simpl.
  unfold applyOnDataLoadEvents, applyOnLoadEvents, applyLoadedEvents,
    applyOnSaveEvents, applyOnPostSaveEvents, applyOnTabStateChangeEvents,
    applyOnTabExpandEvents, applyOnTabCollapseEvents,
    _applyOnTabSpecificStateEvents, applyOnChangeEvents,
    applyOnLookupTagClickEvents, applyPreSearchEvents,
    applySubGridOnLoadEvents, applySubGridOnRecordSelectEvents,
    applyOnReadyStateCompleteEvents, applyOnProcessStatusChangeEvents,
    applyOnPreProcessStatusChangeEvents, applyOnPreStageChangeEvents,
    applyOnStageChangeEvents, applyOnStageSelectedEvents,
    applyOnOutputChangeEvents, applyOnResultOpenedEvents,
    applyOnSelectionEvents, applyPostSearchEvents.
  repeat (apply andThen_ext;
          [intros ? |
           intros ?;
           first [ by apply applySimpleEvents_middle
                 | by apply applyComponentEvents_middle
                 | done ]]).
  f_equal. apply validateHandlers_names.
  rewrite !filter_app, !fmap_app. by rewrite Hv.
Qed.

(** ** A global kind is subscribed *)

Lemma global_step (host : Host Item) inst hs ft k op :
  globalSubscription k = Some op →
  applySimpleEvents inst hs ft k op ∈ dispatchSteps host inst hs ft.
Proof.
  intros Hk. unfold dispatchSteps.
  destruct k; simpl in Hk; try discriminate Hk; injection Hk as <-;
    repeat first [apply list_elem_of_here | apply list_elem_of_further].
Qed.

Lemma applySimpleEvents_registers inst hs ft k op h s s' :
  h ∈ hs → k ∈ eventKinds h →
  isFormTypeAuthorized (formTypes h) ft = true →
  member inst (functionName h) = member_function →
  applySimpleEvents inst hs ft k op s = Normal s' →
  FormCall op (BoundMethod (functionName h)) ∈ hostCalls s'.
Proof.
  intros Hin Hk Ha Hm Hrun. unfold applySimpleEvents in Hrun.
  eapply forEach_turn in Hrun as (sa & sb & Hbody & Hkeep).
  - rewrite Ha, Hm in Hbody. simpl in Hbody. injection Hbody as <-.
    eapply addsCalls_keeps; [exact Hkeep|]. simpl.
    apply elem_of_app. right. by left.
  - intros x s1 _. destruct (negb _); [apply addsCalls_refl|].
    destruct (member inst (functionName x)); simpl;
      try apply addsCalls_refl. by apply addsCalls_callHost.
  - by apply handlersOf_elem.
Qed.

Lemma apply_registers_global r inst (host : Host Item) ft k op h s s' :
  h ∈ getFormEvents (constructor inst) r → k ∈ eventKinds h →
  globalSubscription k = Some op →
  isFormTypeAuthorized (formTypes h) ft = true →
  member inst (functionName h) = member_function →
  apply r inst host ft s = Normal s' →
  FormCall op (BoundMethod (functionName h)) ∈ hostCalls s'.
Proof.
  intros Hin Hk Hop Ha Hm Hrun. rewrite apply_steps in Hrun.
  unfold andThen in Hrun.
  destruct (forEach _ _ _) as [s2|s2] eqn:Hsteps; [|done].
  injection Hrun as <-. simpl.
  eapply forEach_turn in Hsteps as (sa & sb & Hstep & Hkeep).
  - eapply addsCalls_keeps; [exact Hkeep|].
    eapply applySimpleEvents_registers; [exact Hin|exact Hk|exact Ha|exact Hm|].
    exact Hstep.
  - intros step s1 Hs.
    pose proof (dispatchSteps_calls host inst
                  (getFormEvents (constructor inst) r) ft) as Hall.
    rewrite Forall_forall in Hall.
    eapply addsCalls_mono; [|by apply Hall]. done.
  - by apply global_step.
Qed.
End dispatch_facts.

(** ** Relations kept by every step *)

Section dispatch_relations.
Context {Item : Type}.
Implicit Types s : DispatchState Item.

Lemma forEach_preserves {A : Type} (R : DispatchState Item → DispatchState Item → Prop)
    (l : list A)
    (body : A → DispatchState Item → Completion (DispatchState Item)) :
  (∀ s, R s s) → (∀ a b c, R a b → R b c → R a c) →
  (∀ x s, x ∈ l → R s (final (body x s))) →
  ∀ s, R s (final (forEach l body s)).
Proof.
  intros Hrefl Htrans. induction l as [|x l IH]; intros Hb s; [apply Hrefl|].
  simpl. specialize (Hb x s (list_elem_of_here _ _)) as Hx.
  destruct (body x s) as [s1|s1]; [|done].
  eapply Htrans; [exact Hx|]. apply IH. intros y s' Hy. apply Hb. by right.
Qed.

(** A reflexive and transitive relation on dispatch states that every host
    call keeps, and every queued not-found message. *)
Section kept.
Context (R : DispatchState Item → DispatchState Item → Prop)
        (inst : Instance) (ft : FormType).
Hypothesis R_refl : ∀ s, R s s.
Hypothesis R_trans : ∀ a b c, R a b → R b c → R a c.
Hypothesis R_call : ∀ c s, R s (callHost c s).
Hypothesis R_log :
  ∀ names k fn s, R s (logGroupedWarning (notFoundMessage inst names k fn ft) s).

Lemma registerBatch_kept op (items : list Item) handler s :
  R s (registerBatch op items handler s).
Proof. apply R_call. Qed.

Lemma registerTabSpecific_kept st (items : list Item) handler s :
  R s (registerTabSpecific st items handler s).
Proof.
  unfold registerTabSpecific. revert s.
  induction items as [|tab items IH]; intros s; [apply R_refl|].
  simpl. eapply R_trans; [apply R_call|apply IH].
Qed.

Lemma applySimpleEvents_kept hs k op s :
  R s (final (applySimpleEvents inst hs ft k op s)).
Proof.
  unfold applySimpleEvents. apply forEach_preserves; [done..|].
  intros h s1 _. destruct (negb _); [apply R_refl|].
  destruct (member inst (functionName h)); simpl;
    [apply R_refl|apply R_call|apply R_refl].
Qed.

Lemma applyComponentEvents_kept hs k
    (getItems : list string → list Item) chk nm reg s :
  (∀ items handler s, R s (reg items handler s)) →
  R s (final (applyComponentEvents inst hs ft k getItems chk nm reg s)).
Proof.
  intros Hreg. unfold applyComponentEvents.
  apply forEach_preserves; [done..|].
  intros h s1 _. destruct (negb _); [apply R_refl|].
  destruct (member inst (functionName h)); try apply R_refl.
  apply forEach_preserves; [done..|].
  intros e s2 _. simpl. unfold applyComponentEvent.
  match goal with |- context [if ?b then _ else _] => destruct b end.
  - eapply R_trans; [apply Hreg|apply R_log].
  - apply Hreg.
Qed.

Lemma dispatch_kept (host : Host Item) hs s :
  R s (final (forEach (dispatchSteps host inst hs ft) (λ step, step) s)).
Proof.
  apply forEach_preserves; [done..|].
  intros step s1 Hstep. unfold dispatchSteps in Hstep.
  repeat (apply elem_of_cons in Hstep as [->|Hstep];
          [first [apply applySimpleEvents_kept
                 |apply applyComponentEvents_kept; intros;
                  first [apply registerBatch_kept
                        |apply registerTabSpecific_kept]]|]).
  by apply elem_of_nil in Hstep.
Qed.
End kept.

(** ** Counters *)

Lemma countWarning_same (counts : list (string * nat)) m :
  map_get (countWarning m counts) m = Some (default 0 (map_get counts m) + 1).
Proof.
  unfold countWarning, map_set, map_get.
  destruct (list_find (λ p : string * nat, p.1 = m) counts) as [[i p]|] eqn:Hf.
  - erewrite lookupBy_insert; [|exact Hf|done]. by rewrite decide_True.
  - erewrite lookupBy_snoc; [|exact Hf|done]. by rewrite decide_True.
Qed.

Lemma countWarning_other (counts : list (string * nat)) m m' :
  m' ≠ m → map_get (countWarning m counts) m' = map_get counts m'.
Proof.
  intros Hne. unfold countWarning, map_set, map_get.
  destruct (list_find (λ p : string * nat, p.1 = m) counts) as [[i p]|] eqn:Hf.
  - erewrite lookupBy_insert; [|exact Hf|done]. by rewrite decide_False.
  - erewrite lookupBy_snoc; [|exact Hf|done]. by rewrite decide_False.
Qed.

Lemma map_get_elem (counts : list (string * nat)) m n :
  map_get counts m = Some n → (m, n) ∈ counts.
Proof.
  unfold map_get. intros ([m' n'] & Hl & ->)%fmap_Some.
  apply lookupBy_Some_elem in Hl as [Hin Hk]. simpl in *. by subst.
Qed.

Lemma countersGrow_refl counts : countersGrow counts counts.
Proof. intros m n Hm. eauto. Qed.

Lemma countersGrow_trans c1 c2 c3 :
  countersGrow c1 c2 → countersGrow c2 c3 → countersGrow c1 c3.
Proof.
  intros H12 H23 m n Hm. destruct (H12 m n Hm) as (n2 & Hm2 & Hle).
  destruct (H23 m n2 Hm2) as (n3 & Hm3 & Hle'). exists n3. split; [done|lia].
Qed.

Lemma countersGrow_count counts m : countersGrow counts (countWarning m counts).
Proof.
  intros m' n Hm'. destruct (decide (m' = m)) as [->|Hne].
  - rewrite countWarning_same, Hm'. simpl. exists (n + 1). split; [done|lia].
  - rewrite countWarning_other by done. eauto.
Qed.

(** The queue only grows during the steps, and nothing is logged. *)
Lemma dispatch_queue (host : Host Item) inst hs ft s :
  countersGrow (warningCounts s)
    (warningCounts
       (final (forEach (dispatchSteps host inst hs ft) (λ step, step) s))) ∧
  warned (final (forEach (dispatchSteps host inst hs ft) (λ step, step) s))
  = warned s.
Proof.
  apply (dispatch_kept
           (λ s s', countersGrow (warningCounts s) (warningCounts s') ∧
                    warned s' = warned s) inst ft).
  - intros s0. split; [apply countersGrow_refl|done].
  - intros a b c [H1 H2] [H3 H4]. split; [by eapply countersGrow_trans|congruence].
  - intros c s0. split; [apply countersGrow_refl|done].
  - intros names k fn s0. split; [apply countersGrow_count|done].
Qed.

(** ** The two messages differ *)

Lemma append_cancel (a x y : string) : a +:+ x = a +:+ y → x = y.
Proof. induction a as [|c a IH]; simpl; [done|]. intros [= H]. by apply IH. Qed.

Lemma noEvents_notFound inst names names' k fn ft :
  noEventsMessage inst names ≠ notFoundMessage inst names' k fn ft.
Proof.
  unfold noEventsMessage, notFoundMessage. intros H.
  apply append_cancel, append_cancel in H. discriminate H.
Qed.

(** The steps leave the counter of the validation message as it is. *)
Lemma dispatch_keeps_noEvents (host : Host Item) inst hs ft names s :
  map_get
    (warningCounts
       (final (forEach (dispatchSteps host inst hs ft) (λ step, step) s)))
    (noEventsMessage inst names)
  = map_get (warningCounts s) (noEventsMessage inst names).
Proof.
  apply (dispatch_kept
           (λ s s', map_get (warningCounts s') (noEventsMessage inst names) =
                    map_get (warningCounts s) (noEventsMessage inst names))
           inst ft).
  - done.
  - congruence.
  - done.
  - intros names' k fn s0. simpl. apply countWarning_other.
    apply noEvents_notFound.
Qed.
End dispatch_relations.

Section dispatch_claims.
Context {Item : Type}.
Implicit Types s : DispatchState Item.

Lemma getFormEvents_insert (r : Registry) c l :
  getFormEvents c (<[c := l]> r) = l.
Proof. unfold getFormEvents. by rewrite lookup_insert_eq. Qed.

Lemma getFormEvents_untargeted (r : Registry) c calls :
  Forall (λ call, call_class call ≠ c) calls →
  getFormEvents c (upserts calls r) = getFormEvents c r.
Proof.
  revert r. induction calls as [|call calls IH]; intros r Hall; [done|].
  apply Forall_cons in Hall as [Hc Hall].
  unfold upserts. simpl. fold (upserts calls (upsert r call)).
  rewrite IH by done. unfold upsert.
  rewrite getFormEvents_upsert. by rewrite decide_False.
Qed.

Lemma apply_no_entries r inst (host : Host Item) ft s :
  getFormEvents (constructor inst) r = [] →
  apply r inst host ft s = Normal (flushGroupedWarnings s).
Proof. intros H. unfold apply. rewrite H. reflexivity. Qed.

Lemma flush_nothing_pending s :
  warningCounts s = [] → flushGroupedWarnings s = s.
Proof.
  intros H. destruct s as [w c l]. simpl in H. subst w.
  unfold flushGroupedWarnings. simpl. by rewrite app_nil_r.
Qed.

(** C8. For a class that no [upsertFunctionEvent] call has targeted,
    [getFormEvents] returns the empty list, and [apply] on an instance of
    the class ends normally having made no call to the host and queued no
    warning: it only flushes what was pending before it, so that with
    nothing pending the state is left as it was (no call, no warning
    queued, no line logged). *)
Theorem unregistered_class_dispatch
    (calls : list UpsertCall) inst (host : Host Item) ft s :
  Forall (λ call, call_class call ≠ constructor inst) calls →
  getFormEvents (constructor inst) (upserts calls ∅) = [] ∧
  apply (upserts calls ∅) inst host ft s = Normal (flushGroupedWarnings s) ∧
  (warningCounts s = [] → apply (upserts calls ∅) inst host ft s = Normal s).
Proof.
  intros Hcalls.
  assert (getFormEvents (constructor inst) (upserts calls ∅) = []) as Hnone.
  { rewrite getFormEvents_untargeted by done. apply getFormEvents_empty. }
  split_and!; [done|by apply apply_no_entries|].
  intros Hs. rewrite apply_no_entries by done.
  by rewrite flush_nothing_pending.
Qed.

(** ** Entries passed over *)

Lemma apply_without r inst (host : Host Item) ft hs1 h hs2 s :
  getFormEvents (constructor inst) r = hs1 ++ h :: hs2 →
  events h ≠ [] →
  isFormTypeAuthorized (formTypes h) ft = false ∨
  member inst (functionName h) = member_falsy →
  apply r inst host ft s =
  apply (<[constructor inst := hs1 ++ hs2]> r) inst host ft s.
Proof.
  intros Hr Hev Hskip.
  apply (apply_middle r _ inst host ft hs1 [h] [] hs2).
  - done.
  - by rewrite getFormEvents_insert.
  - rewrite filter_cons_False; [done|]. by destruct (events h).
  - intros k op s1. by rewrite applySimpleEvents_skip.
  - intros k getItems chk nm reg s1. by rewrite applyComponentEvents_skip.
Qed.

Lemma apply_unfiltered r inst (host : Host Item) ft hs1 h hs2 s :
  getFormEvents (constructor inst) r = hs1 ++ h :: hs2 →
  isFormTypeAuthorized (formTypes h) ft = true →
  apply r inst host ft s =
  apply (<[constructor inst := hs1 ++ unfiltered h :: hs2]> r) inst host ft s.
Proof.
  intros Hr Hauth.
  apply (apply_middle r _ inst host ft hs1 [h] [unfiltered h] hs2).
  - done.
  - by rewrite getFormEvents_insert.
  - rewrite !filter_cons, !filter_nil. simpl. by case_decide.
  - intros k op s1. by apply applySimpleEvents_unfiltered.
  - intros k getItems chk nm reg s1. by apply applyComponentEvents_unfiltered.
Qed.

Lemma apply_no_call_for r inst (host : Host Item) ft fn s c :
  (∀ h, h ∈ getFormEvents (constructor inst) r → functionName h = fn →
        isFormTypeAuthorized (formTypes h) ft = false ∨
        member inst fn ≠ member_function) →
  c ∈ hostCalls (final (apply r inst host ft s)) →
  c ∈ hostCalls s ∨ listenerMethod (callListener c) ≠ fn.
Proof.
  intros Hfn Hc.
  destruct (addsCalls_elem _ _ _ _ (apply_calls r inst host ft s) Hc)
    as [?|(k & _ & h & Hin & _ & Ha & Hm & Hl)]; [by left|].
  right. intros Heq. rewrite Hl in Heq.
  destruct (Hfn h Hin Heq) as [Hna|Hnm]; [congruence|].
  apply Hnm. by rewrite <- Heq.
Qed.

(** No call is ever made on account of an event of kind [OnOutputChange]:
    a method whose entries hold events of that kind only gets no call. *)
Lemma output_change_never_dispatched r inst (host : Host Item) ft fn s c :
  (∀ h, h ∈ getFormEvents (constructor inst) r → functionName h = fn →
        ∀ k, k ∈ eventKinds h → k = OnOutputChange) →
  c ∈ hostCalls (final (apply r inst host ft s)) →
  c ∈ hostCalls s ∨ listenerMethod (callListener c) ≠ fn.
Proof.
  intros Hfn Hc.
  destruct (addsCalls_elem _ _ _ _ (apply_calls r inst host ft s) Hc)
    as [?|(k & Hk & h & Hin & Hkin & _ & _ & Hl)]; [by left|].
  right. intros Heq. rewrite Hl in Heq. apply Hk. by eapply Hfn.
Qed.

(** The body of the inner loop of [applyComponentEvents] with a batch
    subscription: one call, on the components that resolve and pass the
    type check; one warning counted if some requested name is not the name
    of such a component, none otherwise; nothing logged yet. *)
Lemma applyComponentEvent_batch inst ft k
    (getItems : list string → list Item) (chk : Item → bool)
    (nm : Item → string) op fn handler e s :
  let names := default [] (componentNames e) in
  let items := filter (λ item, chk item) (getItems names) in
  let unfound := filter (λ n, n ∉ nm <$> items) names in
  let s' := applyComponentEvent inst ft k getItems chk nm
              (registerBatch op) fn handler e s in
  hostCalls s' = hostCalls s ++ [BatchCall op items handler] ∧
  warned s' = warned s ∧
  warningCounts s' =
    (if decide (unfound = []) then warningCounts s
     else countWarning (notFoundMessage inst unfound k fn ft)
                       (warningCounts s)).
Proof.
  simpl. unfold applyComponentEvent.
  destruct (filter _ (default [] (componentNames e))) as [|n unfound] eqn:E;
    simpl; rewrite ?E; by rewrite ?decide_True, ?decide_False by done.
Qed.

(** C9, amended. An entry whose method name yields no member of the
    instance (the lookup is [undefined] or another falsy value) is passed
    over: the dispatch runs exactly as on the registry without the entry,
    so the entry raises no error and queues no warning; no call made to the
    host is for that method; and if it is the only entry of the class the
    dispatch ends normally having only flushed what was pending. *)
Theorem missing_method_skipped r inst (host : Host Item) ft hs1 h hs2 s :
  getFormEvents (constructor inst) r = hs1 ++ h :: hs2 →
  events h ≠ [] →
  member inst (functionName h) = member_falsy →
  apply r inst host ft s =
    apply (<[constructor inst := hs1 ++ hs2]> r) inst host ft s ∧
  (∀ c, c ∈ hostCalls (final (apply r inst host ft s)) →
        c ∈ hostCalls s ∨ listenerMethod (callListener c) ≠ functionName h) ∧
  (hs1 = [] → hs2 = [] →
   apply r inst host ft s = Normal (flushGroupedWarnings s)).
Proof.
  intros Hr Hev Hm. split_and!.
  - apply (apply_without r inst host ft hs1 h hs2); auto.
  - intros c. apply (apply_no_call_for r inst host ft (functionName h)).
    intros h' _ _. right. by rewrite Hm.
  - intros -> ->. rewrite (apply_without r inst host ft [] h []) by auto.
    apply apply_no_entries. by rewrite getFormEvents_insert.
Qed.

Lemma isFormTypeAuthorized_spec (formTypes' : option (list FormType)) ft :
  isFormTypeAuthorized formTypes' ft = true ↔
  formTypes' = None ∨ formTypes' = Some [] ∨
  ∃ l, formTypes' = Some l ∧ ft ∈ l.
Proof.
  unfold isFormTypeAuthorized. destruct formTypes' as [l|]; [|by intuition].
  rewrite orb_true_iff, Nat.eqb_eq, bool_decide_eq_true. split.
  - intros [Hl|Hin]; [|by eauto].
    destruct l; [by auto|done].
  - intros [?|[[= ->]|(l' & [= ->] & Hin)]]; [done|by left|by right].
Qed.

(** The form type filter of an entry is an allow-list: the entry passes
    iff its filter is absent, empty, or holds the current form type.  An
    entry that does not pass is handled as if it were not registered, and
    no call made to the host is for its method; an entry that passes is
    handled as the same entry without filter, and, when its method is a
    function of the instance and it has an event of a global kind, the
    dispatch ends normally (if no registered name is a non-function member)
    with the method subscribed to that kind. *)
Theorem form_type_filter r inst (host : Host Item) ft hs1 h hs2 s :
  getFormEvents (constructor inst) r = hs1 ++ h :: hs2 →
  (isFormTypeAuthorized (formTypes h) ft = true ↔
   formTypes h = None ∨ formTypes h = Some [] ∨
   ∃ l, formTypes h = Some l ∧ ft ∈ l) ∧
  (isFormTypeAuthorized (formTypes h) ft = false → events h ≠ [] →
   apply r inst host ft s =
   apply (<[constructor inst := hs1 ++ hs2]> r) inst host ft s) ∧
  (isFormTypeAuthorized (formTypes h) ft = false →
   functionName h ∉ functionName <$> (hs1 ++ hs2) →
   ∀ c, c ∈ hostCalls (final (apply r inst host ft s)) →
        c ∈ hostCalls s ∨ listenerMethod (callListener c) ≠ functionName h) ∧
  (isFormTypeAuthorized (formTypes h) ft = true →
   apply r inst host ft s =
   apply (<[constructor inst := hs1 ++ unfiltered h :: hs2]> r)
         inst host ft s) ∧
  (isFormTypeAuthorized (formTypes h) ft = true →
   member inst (functionName h) = member_function →
   (∀ h', h' ∈ hs1 ++ h :: hs2 →
          member inst (functionName h') ≠ member_other) →
   ∀ k op, k ∈ eventKinds h → globalSubscription k = Some op →
   ∃ s', apply r inst host ft s = Normal s' ∧
         FormCall op (BoundMethod (functionName h)) ∈ hostCalls s').
Proof.
  intros Hr. split_and!.
  - apply isFormTypeAuthorized_spec.
  - intros Hna Hev. apply (apply_without r inst host ft hs1 h hs2); auto.
  - intros Hna Huniq c.
    apply (apply_no_call_for r inst host ft (functionName h)).
    intros h' Hin Hname.
    rewrite Hr in Hin. apply elem_of_app in Hin as [Hin|Hin].
    + destruct Huniq. rewrite <- Hname. apply list_elem_of_fmap_2.
      apply elem_of_app. by left.
    + apply elem_of_cons in Hin as [->|Hin]; [by left|].
      destruct Huniq. rewrite <- Hname. apply list_elem_of_fmap_2.
      apply elem_of_app. by right.
  - intros Ha. by apply apply_unfiltered.
  - intros Ha Hm Hall k op Hk Hop.
    destruct (apply_completes r inst host ft s) as [s' Hs'].
    { intros h' Hh'. apply Hall. by rewrite <- Hr. }
    exists s'. split; [done|].
    eapply apply_registers_global; [|exact Hk|exact Hop|exact Ha|exact Hm|exact Hs'].
    rewrite Hr. apply elem_of_app. right. by left.
Qed.

(** ** Validation *)

Lemma filter_length_zero (hs : list FormEventDetails) :
  filter (λ h, length (events h) = 0) hs = filter (λ h, events h = []) hs.
Proof.
  apply list_filter_iff. intros h. destruct (events h); simpl; split; done.
Qed.

Lemma validateHandlers_message inst (handlers : list FormEventDetails) s :
  validateHandlers inst handlers s =
    (if decide (eventlessNames handlers = []) then s
     else logGroupedWarning
            (noEventsMessage inst (eventlessNames handlers)) s).
Proof.
  unfold validateHandlers, noEventsMessage, eventlessNames.
  rewrite filter_length_zero.
  set (names := functionName <$> filter (λ h, events h = []) handlers).
  destruct names as [|n names]; [done|].
  rewrite decide_False by done.
  replace (0 <? length (n :: names)) with true by done.
  destruct (1 <? length (n :: names)) eqn:E.
  - apply Nat.ltb_lt in E. by rewrite decide_True.
  - apply Nat.ltb_ge in E. by rewrite decide_False by lia.
Qed.

(** C10. [validateHandlers] reports every entry of the class whose list of
    events is empty, whether or not the entry has a form type filter (the
    entry created by an [upsertFunctionEvent] call with neither an event
    detail nor form types is one of them).  If there is any, exactly one
    message is queued, which joins all their method names: its counter in
    [warningCounts] is one more than before (one if it had none, and from
    an empty queue the queue is that single counter), no other counter
    changes, no host call is made and nothing is logged yet; if there is
    none the state is unchanged.  Validation is the first thing [apply]
    does and the steps after it never touch that counter: when [apply]
    ends normally the line of the message, with that count, is among the
    lines it logs, and when [apply] throws the message is still queued
    with that count. *)
Theorem validateHandlers_reports_eventless
    inst (handlers : list FormEventDetails) s :
  (∀ h, h ∈ handlers → events h = [] →
        functionName h ∈ eventlessNames handlers) ∧
  validateHandlers inst handlers s =
    (if decide (eventlessNames handlers = []) then s
     else logGroupedWarning
            (noEventsMessage inst (eventlessNames handlers)) s) ∧
  (eventlessNames handlers = [] → validateHandlers inst handlers s = s) ∧
  (eventlessNames handlers ≠ [] →
   map_get (warningCounts (validateHandlers inst handlers s))
           (noEventsMessage inst (eventlessNames handlers))
     = Some (default 0 (map_get (warningCounts s)
                          (noEventsMessage inst (eventlessNames handlers)))
             + 1) ∧
   (∀ m, m ≠ noEventsMessage inst (eventlessNames handlers) →
         map_get (warningCounts (validateHandlers inst handlers s)) m
         = map_get (warningCounts s) m) ∧
   (warningCounts s = [] →
    warningCounts (validateHandlers inst handlers s)
    = [(noEventsMessage inst (eventlessNames handlers), 1)]) ∧
   hostCalls (validateHandlers inst handlers s) = hostCalls s ∧
   warned (validateHandlers inst handlers s) = warned s) ∧
  (∀ (r : Registry) c fn,
     methodBinding r c fn = None →
     ∃ b, methodBinding (upsertFunctionEvent c fn None None r) c fn = Some b ∧
          b ∈ getFormEvents c (upsertFunctionEvent c fn None None r) ∧
          events b = [] ∧ formTypes b = None) ∧
  (∀ (r : Registry) (host : Host Item) ft,
     apply r inst host ft s =
     ((λ s, forEach (dispatchSteps host inst
                       (getFormEvents (constructor inst) r) ft)
                    (λ step, step) s)
      >> (λ s, Normal (flushGroupedWarnings s)))
       (validateHandlers inst (getFormEvents (constructor inst) r) s)) ∧
  (∀ (r : Registry) (host : Host Item) ft s',
     getFormEvents (constructor inst) r = handlers →
     eventlessNames handlers ≠ [] →
     (apply r inst host ft s = Normal s' →
      ∃ lines,
        warned s' = warned s ++ lines ∧
        warningLine
          (noEventsMessage inst (eventlessNames handlers),
           default 0 (map_get (warningCounts s)
                        (noEventsMessage inst (eventlessNames handlers))) + 1)
        ∈ lines) ∧
     (apply r inst host ft s = Throw s' →
      map_get (warningCounts s')
              (noEventsMessage inst (eventlessNames handlers))
        = Some (default 0 (map_get (warningCounts s)
                             (noEventsMessage inst (eventlessNames handlers)))
                + 1) ∧
      warned s' = warned s)).
Proof.
  set (names := eventlessNames handlers).
  set (message := noEventsMessage inst names).
  set (count := default 0 (map_get (warningCounts s) message) + 1).
  assert (names ≠ [] →
          validateHandlers inst handlers s = logGroupedWarning message s)
    as Hlog.
  { intros Hne. rewrite validateHandlers_message. fold names.
    by rewrite decide_False. }
  split_and!.
  - intros h Hin Hev. apply list_elem_of_fmap_2, list_elem_of_filter. done.
  - apply validateHandlers_message.
  - intros Hnil. rewrite validateHandlers_message. fold names.
    by rewrite decide_True.
  - intros Hne. rewrite (Hlog Hne). simpl. split_and!.
    + apply countWarning_same.
    + intros m Hm. by apply countWarning_other.
    + intros ->. done.
    + done.
    + done.
  - intros r c fn Hnone. rewrite methodBinding_upsert, Hnone. simpl.
    eexists. split; [done|]. split_and!; [|done..].
    unfold methodBinding in *.
    rewrite getFormEvents_upsert, decide_True by done.
    unfold upsertInList. unfold lookupBy in Hnone.
    destruct (list_find _ _) as [[i x]|]; [done|].
    apply elem_of_app. right. by left.
  - intros r host ft. rewrite apply_steps. unfold andThen. done.
  - intros r host ft s' Hr Hne. rewrite apply_steps. unfold andThen.
    rewrite Hr, (Hlog Hne).
    pose proof (dispatch_keeps_noEvents host inst handlers ft names
                  (logGroupedWarning message s)) as Hkeep.
    pose proof (dispatch_queue host inst handlers ft
                  (logGroupedWarning message s)) as [_ Hwarned].
    fold message in Hkeep.
    assert (map_get (warningCounts (logGroupedWarning message s)) message
            = Some count) as Hc by apply countWarning_same.
    rewrite Hc in Hkeep.
    change (warned (logGroupedWarning message s)) with (warned s) in Hwarned.
    destruct (forEach _ _ _) as [s2|s2]; unfold final in Hkeep, Hwarned; split.
    + intros [= <-]. exists (warningLine <$> warningCounts s2). split.
      * by rewrite <- Hwarned.
      * apply list_elem_of_fmap_2. by apply map_get_elem.
    + done.
    + done.
    + intros [= <-]. done.
Qed.
End dispatch_claims.

Section tab_listeners.
Context {Item : Type}.
Implicit Types s : DispatchState Item.








End tab_listeners.

(** * The dispatcher on the examples *)

Section examples.
Import Examples.

(** The tab-expand listener of the example: registered on [T1], it calls
    [onExpand] on a state change to [expanded] and not on one to
    [collapsed]. *)
Example tab_expand_listener :
  apply tabRegistry tabHandler (formOf [tabT1]) Update idle =
    Normal {| warningCounts := [];
              hostCalls :=
                [TabCall tabT1 (TabStateListener expanded
                                  (BoundMethod "onExpand"))];
              warned := [] |} ∧
  fire (TabStateListener expanded (BoundMethod "onExpand"))
       (stateChange expanded) = ["onExpand"] ∧
  fire (TabStateListener expanded (BoundMethod "onExpand"))
       (stateChange collapsed) = [].
Proof. split_and!; vm_compute; reflexivity. Qed.

(** C1, where the code departs from it. [applyOnOutputChangeEvents] selects
    the entries by [OnReadyStateComplete]: an entry bound to
    [OnOutputChange] on a control that is on the form gets no call to
    [addOnOutputChange] (nor any other), while an entry bound to
    [OnReadyStateComplete] is also given to [addOnOutputChange], with the
    standard controls among its names, and is reported as not found when
    there is none. *)
Theorem output_change_dispatch :
  apply pcfRegistry pcfHandler (formOf [pcfControl]) Create idle
    = Normal idle ∧
  apply frameRegistry frameHandler (formOf [frameControl]) Create idle
    = Normal {| warningCounts := [];
                hostCalls :=
                  [BatchCall addOnReadyStateComplete [frameControl]
                     (BoundMethod "onFrameReady");
                   BatchCall addOnOutputChange []
                     (BoundMethod "onFrameReady")];
                warned :=
                  [" " +:+ notFoundMessage frameHandler ["IFRAME_map"]
                             OnReadyStateComplete "onFrameReady" Create] |}.
Proof. split; vm_compute; reflexivity. Qed.

(** C4, where the code departs from it (by the event type that
    [applyOnOutputChangeEvents] passes, as for C1): for an entry bound to
    [OnOutputChange] on [a], [b], [c] of which only [a] is on the form,
    nothing is registered and no warning is queued or logged; whereas the
    same entry bound to [OnChange] gets one call, on the component found,
    and one line for the names not found, with the method, the kind and
    the form type. *)
Theorem partial_resolution_output_change :
  apply (partialRegistry OnOutputChange) partialHandler
        (formOf [controlA standardKind]) Create idle
    = Normal idle ∧
  apply (partialRegistry OnChange) partialHandler
        (formOf [controlA attributeKind]) Create idle
    = Normal {| warningCounts := [];
                hostCalls := [BatchCall addOnChange [controlA attributeKind]
                                (BoundMethod "onEvent")];
                warned := [" " +:+ notFoundMessage partialHandler ["b"; "c"]
                                     OnChange "onEvent" Create] |}.
Proof. split; vm_compute; reflexivity. Qed.

(** C9 as stated fails: a registered name whose member is truthy but not a
    function is not passed over; binding it throws, before any call. *)
Lemma non_function_member_throws :
  member totalHandler "total" = member_other ∧
  apply totalRegistry totalHandler (formOf []) Create idle = Throw idle.
Proof. split; vm_compute; reflexivity. Qed.

Lemma missing_method_skipped_witness :
  (getFormEvents (constructor ghostHandler) totalRegistry =
     [] ++ {| functionName := "total"; formTypes := None;
              events := [ {| type := OnLoad; componentNames := None |} ] |}
           :: []) ∧
  member ghostHandler "total" = member_falsy ∧
  apply totalRegistry ghostHandler (formOf []) Create idle
    = Normal (flushGroupedWarnings idle).
Proof.
  assert (getFormEvents (constructor ghostHandler) totalRegistry =
            [] ++ {| functionName := "total"; formTypes := None;
                     events := [ {| type := OnLoad;
                                    componentNames := None |} ] |} :: [])
    as H by (vm_compute; reflexivity).
  split_and!; [exact H|reflexivity|].
  refine (proj2 (proj2
            (missing_method_skipped totalRegistry ghostHandler (formOf [])
               Create [] _ [] idle H _ _)) eq_refl eq_refl).
  - discriminate.
  - reflexivity.
Defined.

(** C5, where the code departs from it (by the event type that
    [applyOnOutputChangeEvents] passes, as for C1 and C4).  The entry of
    [onPcfOutputChange], bound to [OnOutputChange] on a control that is on
    the form and filtered to [Create] and [Update], names a function of the
    instance and passes the filter under [Create]; yet the dispatch under
    [Create] makes no call to the host, as under [ReadOnly].  The same
    filter on an entry bound to [OnChange] gates the entry as an
    allow-list: one subscription under [Create], none under [ReadOnly]. *)
Theorem form_type_filter_output_change :
  getFormEvents (constructor pcfHandler) pcfFilteredRegistry =
    [ {| functionName := "onPcfOutputChange";
         formTypes := Some [Create; Update];
         events := [ {| type := OnOutputChange;
                        componentNames := Some ["pcf_currency"] |} ] |} ] ∧
  member pcfHandler "onPcfOutputChange" = member_function ∧
  isFormTypeAuthorized (Some [Create; Update]) Create = true ∧
  isFormTypeAuthorized (Some [Create; Update]) ReadOnly = false ∧
  apply pcfFilteredRegistry pcfHandler (formOf [pcfControl]) Create idle
    = Normal idle ∧
  apply pcfFilteredRegistry pcfHandler (formOf [pcfControl]) ReadOnly idle
    = Normal idle ∧
  apply changeFilteredRegistry changeHandler (formOf [firstnameAttribute])
        Create idle
    = Normal {| warningCounts := [];
                hostCalls := [BatchCall addOnChange [firstnameAttribute]
                                (BoundMethod "onNameChange")];
                warned := [] |} ∧
  apply changeFilteredRegistry changeHandler (formOf [firstnameAttribute])
        ReadOnly idle
    = Normal idle.
Proof. split_and!; vm_compute; reflexivity. Qed.

Lemma form_type_filter_witness :
  (getFormEvents (constructor filteredHandler) filteredRegistry =
     [] ++ filteredBinding :: []) ∧
  (∀ c, c ∈ hostCalls (final (apply filteredRegistry filteredHandler
                                (formOf []) ReadOnly idle)) →
        c ∈ hostCalls (@idle Control) ∨
        listenerMethod (callListener c) ≠ "onLoad") ∧
  (∃ s', apply filteredRegistry filteredHandler (formOf []) Create idle
           = Normal s' ∧
         FormCall addOnLoad (BoundMethod "onLoad") ∈ hostCalls s').
Proof.
  assert (getFormEvents (constructor filteredHandler) filteredRegistry =
            [] ++ filteredBinding :: []) as H by (vm_compute; reflexivity).
  split_and!; [exact H| |].
  - refine (proj1 (proj2 (proj2
              (form_type_filter filteredRegistry filteredHandler (formOf [])
                 ReadOnly [] filteredBinding [] idle H))) eq_refl _).
    simpl. apply not_elem_of_nil.
  - refine (proj2 (proj2 (proj2 (proj2
              (form_type_filter filteredRegistry filteredHandler (formOf [])
                 Create [] filteredBinding [] idle H))))
              eq_refl eq_refl _ OnLoad addOnLoad _ eq_refl).
    + intros h' Hh'. apply list_elem_of_singleton in Hh' as ->. discriminate.
    + simpl. by left.
Defined.

Lemma unregistered_class_dispatch_witness :
  Forall (λ call, call_class call ≠ constructor
                    (instanceOf 2%positive "Other" [] []))
         [onChangeFirst; onChangeLast] ∧
  getFormEvents 2%positive (upserts [onChangeFirst; onChangeLast] ∅) = [] ∧
  apply (upserts [onChangeFirst; onChangeLast] ∅)
        (instanceOf 2%positive "Other" [] []) (formOf []) Create idle
    = Normal idle.
Proof.
  assert (Forall (λ call, call_class call ≠ constructor
                            (instanceOf 2%positive "Other" [] []))
                 [onChangeFirst; onChangeLast]) as H.
  { repeat constructor; discriminate. }
  split; [exact H|].
  destruct (unregistered_class_dispatch [onChangeFirst; onChangeLast]
              (instanceOf 2%positive "Other" [] []) (formOf []) Create
              idle H) as (H1 & _ & H3).
  split; [exact H1|]. exact (H3 eq_refl).
Defined.

Lemma validateHandlers_reports_eventless_witness :
  eventlessNames (getFormEvents 1%positive eventlessRegistry)
    = ["first"; "second"] ∧
  warningCounts
    (validateHandlers plainHandler
       (getFormEvents 1%positive eventlessRegistry) (@idle Control))
    = [(noEventsMessage plainHandler ["first"; "second"], 1)].
Proof.
  assert (eventlessNames (getFormEvents 1%positive eventlessRegistry)
          = ["first"; "second"]) as H by (vm_compute; reflexivity).
  split; [exact H|].
  pose proof (validateHandlers_reports_eventless plainHandler
                (getFormEvents 1%positive eventlessRegistry) (@idle Control))
    as T.
  destruct T as (_ & _ & _ & T & _).
  destruct T as (_ & _ & T & _); [by rewrite H|].
  rewrite H in T. exact (T eq_refl).
Defined.

(** Two methods without events: one line, with both names. *)
Example validateHandlers_joins_names :
  warned (final (apply (upserts [filterCall "first" [Create];
                                 filterCall "second" []] ∅)
                       (instanceOf 1%positive "Handler" [] [])
                       (formOf []) Create idle))
  = [" " +:+ noEventsMessage (instanceOf 1%positive "Handler" [] [])
               ["first"; "second"]].
Proof. vm_compute; reflexivity. Qed.
End examples.

(** * Further properties of the registry *)

Lemma upsertInList_names fes fn oe oft :
  functionName <$> upsertInList fes fn oe oft =
    if decide (fn ∈ functionName <$> fes) then functionName <$> fes
    else (functionName <$> fes) ++ [fn].
Proof.
  unfold upsertInList.
  destruct (list_find (λ ev, functionName ev = fn) fes) as [[i fe]|] eqn:Hf.
  - assert (fn ∈ functionName <$> fes) as Hin.
    { apply list_find_Some in Hf as (Hl & Hx & _). rewrite <- Hx.
      apply list_elem_of_fmap_2. by eapply list_elem_of_lookup_2. }
    rewrite decide_True by done.
    erewrite keys_insert; [done|exact Hf|].
    simpl. apply list_find_Some in Hf. tauto.
  - rewrite decide_False by (by apply find_None_keys).
    by rewrite fmap_app.
Qed.

Lemma upsertEventDetail_kinds_prefix evs e :
  (type <$> evs) `prefix_of` (type <$> upsertEventDetail evs e).
Proof.
  unfold upsertEventDetail.
  destruct (list_find (λ e0, type e0 = type e) evs) as [[j ex]|] eqn:Hf.
  - assert (type ex = type e) as Hty by (apply list_find_Some in Hf; tauto).
    destruct (componentNames ex), (componentNames e);
      try (erewrite keys_insert by (done || exact Hty)); done.
  - rewrite fmap_app. by apply prefix_app_r.
Qed.

Lemma upsertEventDetail_names_prefix evs e k :
  default [] (lookupBy type k evs ≫= componentNames)
  `prefix_of`
  default [] (lookupBy type k (upsertEventDetail evs e) ≫= componentNames).
Proof.
  rewrite upsertEventDetail_lookup. case_decide as Hk; [|done]. subst k.
  unfold mergedEvent.
  destruct (lookupBy type (type e) evs) as [ex|]; simpl;
    [|apply prefix_nil].
  destruct (componentNames ex) as [a|] eqn:Ha; simpl.
  - destruct (componentNames e) as [b|]; simpl; [|by rewrite Ha].
    unfold mergeUnique. by apply prefix_app_r.
  - rewrite Ha. done.
Qed.

Lemma namesOf_bind b k :
  namesOf b k = default [] (lookupBy type k (events b) ≫= componentNames).
Proof. unfold namesOf. by destruct (lookupBy type k (events b)). Qed.

Lemma filter_insert_out {A : Type} (P : A → Prop) `{∀ x, Decision (P x)}
    (l : list A) i x y :
  l !! i = Some x → ¬ P x → ¬ P y → filter P (<[i:=y]> l) = filter P l.
Proof.
  revert i. induction l as [|z l IH]; intros i Hl Hx Hy; [done|].
  destruct i as [|i]; simpl in *.
  - injection Hl as ->. by rewrite !filter_cons_False.
  - rewrite !filter_cons. by rewrite (IH i).
Qed.

Lemma upsertEventDetail_except evs e :
  filter (λ e0, Some (type e0) ≠ Some (type e)) (upsertEventDetail evs e) =
  filter (λ e0, Some (type e0) ≠ Some (type e)) evs.
Proof.
  unfold upsertEventDetail.
  destruct (list_find (λ e0, type e0 = type e) evs) as [[j ex]|] eqn:Hf.
  - apply list_find_Some in Hf as (Hl & Hty & _).
    destruct (componentNames ex), (componentNames e); try done.
    eapply filter_insert_out; [exact Hl|..]; simpl; intros Hne;
      apply Hne; by rewrite Hty.
  - rewrite filter_app, filter_cons_False by (intros Hne; by apply Hne).
    by rewrite filter_nil, app_nil_r.
Qed.

(** X1. An [upsertFunctionEvent] call on method [fn] of class [c], with an
    event detail of kind [k] or with none, leaves in the entries of every
    other class, and in class [c] in the entry of every other method, the
    method name, the form types, the list of kinds and the event details
    of every kind other than [k]; in the entry of [fn] itself it leaves
    the event details of every kind other than [k], hence the names bound
    to those kinds.  (The names of a detail of kind [k] outside the entry
    of [fn] are not part of the statement: the code changes them when the
    caller has given one detail object to two entries.) *)
Theorem upsert_leaves_others (r : Registry) c fn eventDetail formTypes' :
  (∀ c', c' ≠ c →
     entryView (type <$> eventDetail) <$>
       getFormEvents c' (upsertFunctionEvent c fn eventDetail formTypes' r)
     = entryView (type <$> eventDetail) <$> getFormEvents c' r) ∧
  (∀ fn', fn' ≠ fn →
     entryView (type <$> eventDetail) <$>
       methodBinding (upsertFunctionEvent c fn eventDetail formTypes' r) c fn'
     = entryView (type <$> eventDetail) <$> methodBinding r c fn') ∧
  (∀ b b',
     methodBinding r c fn = Some b →
     methodBinding (upsertFunctionEvent c fn eventDetail formTypes' r) c fn
       = Some b' →
     detailsExcept (type <$> eventDetail) b'
     = detailsExcept (type <$> eventDetail) b) ∧
  (∀ b b' e k,
     methodBinding r c fn = Some b →
     methodBinding (upsertFunctionEvent c fn eventDetail formTypes' r) c fn
       = Some b' →
     eventDetail = Some e → k ≠ type e →
     namesOf b' k = namesOf b k).
Proof.
  split_and!.
  - intros c' Hc. rewrite getFormEvents_upsert. by rewrite decide_False.
  - intros fn' Hfn. unfold methodBinding.
    rewrite getFormEvents_upsert, decide_True by done.
    rewrite upsertInList_lookup. by rewrite decide_False.
  - intros b b' Hb Hb'.
    rewrite methodBinding_upsert, Hb in Hb'. injection Hb' as <-.
    unfold detailsExcept. simpl.
    destruct eventDetail as [e|]; [|done]. apply upsertEventDetail_except.
  - intros b b' e k Hb Hb' -> Hk.
    rewrite methodBinding_upsert, Hb in Hb'. injection Hb' as <-.
    unfold namesOf. simpl. rewrite upsertEventDetail_lookup.
    by rewrite decide_False.
Qed.

(** X2. The registry only grows.  After an [upsertFunctionEvent] call the
    method has an entry under its name; if it had one before, the kinds of
    the old entry are a prefix of the kinds of the new one, for every kind
    the old names are a prefix of the new names, the old form types are a
    prefix of the new ones, and a filter that was set stays set; and the
    method names of the class before the call are a prefix of those after. *)
Theorem upsert_grows (r : Registry) c fn eventDetail formTypes' :
  (∃ b', methodBinding (upsertFunctionEvent c fn eventDetail formTypes' r) c fn
           = Some b' ∧ functionName b' = fn ∧
         ∀ b, methodBinding r c fn = Some b →
              eventKinds b `prefix_of` eventKinds b' ∧
              (∀ k, namesOf b k `prefix_of` namesOf b' k) ∧
              default [] (formTypes b) `prefix_of` default [] (formTypes b') ∧
              (is_Some (formTypes b) → is_Some (formTypes b'))) ∧
  (functionName <$> getFormEvents c r) `prefix_of`
  (functionName <$>
     getFormEvents c (upsertFunctionEvent c fn eventDetail formTypes' r)).
Proof.
  split.
  - rewrite methodBinding_upsert. eexists. split; [done|]. split.
    + destruct (methodBinding r c fn) as [b|] eqn:Hb; [|done]. simpl.
      unfold methodBinding in Hb. by apply lookupBy_Some_elem in Hb as [_ ?].
    + intros b ->. simpl. split_and!.
      * unfold eventKinds. simpl. destruct eventDetail as [e|]; [|done].
        apply upsertEventDetail_kinds_prefix.
      * intros k. rewrite !namesOf_bind. simpl.
        destruct eventDetail as [e|]; [|done].
        apply upsertEventDetail_names_prefix.
      * destruct formTypes' as [inc|]; [|done]. simpl.
        unfold mergeUnique. by apply prefix_app_r.
      * destruct formTypes' as [inc|]; [|done]. intros _. by eexists.
  - rewrite getFormEvents_upsert, decide_True by done.
    rewrite upsertInList_names. case_decide; [done|]. by apply prefix_app_r.
Qed.

(** X3. The entries of a class are its methods in the order in which each
    was first targeted: after any sequence of calls from the empty
    registry, the method names of the entries of class [c] are the distinct
    method names of the calls on [c], in order of first occurrence. *)
Theorem registry_method_order (calls : list UpsertCall) c :
  functionName <$> getFormEvents c (upserts calls ∅) =
  firstSeen (call_method <$> filter (λ call, call_class call = c) calls).
Proof.
  induction calls as [|call calls IH] using rev_ind.
  - by rewrite getFormEvents_empty.
  - rewrite upserts_snoc. unfold upsert. rewrite getFormEvents_upsert.
    rewrite filter_app, filter_cons, filter_nil.
    case_decide as Hc; case_decide as Hc'; try congruence.
    + subst c. rewrite upsertInList_names, IH.
      rewrite fmap_app. simpl. rewrite firstSeen_snoc.
      case_decide as Hin; case_decide as Hin'; try done.
      * destruct Hin'. by apply elem_of_firstSeen.
      * destruct Hin. by apply elem_of_firstSeen.
    + by rewrite app_nil_r.
Qed.

(** * Further properties of the warning aggregator *)

(** X4. [logGroupedWarning] on any counters: the counter of the message is
    one more than before (one if it had none), every other counter is as
    before, the messages already counted keep their positions, and a new
    message goes last. *)
Theorem countWarning_lookup (counts : list (string * nat)) (m : string) :
  map_get (countWarning m counts) m = Some (default 0 (map_get counts m) + 1) ∧
  (∀ m', m' ≠ m → map_get (countWarning m counts) m' = map_get counts m') ∧
  fst <$> countWarning m counts =
    (if decide (m ∈ fst <$> counts) then fst <$> counts
     else (fst <$> counts) ++ [m]).
Proof.
  unfold countWarning, map_set, map_get.
  destruct (list_find (λ p : string * nat, p.1 = m) counts) as [[i p]|] eqn:Hf.
  - split_and!.
    + erewrite lookupBy_insert; [|exact Hf|done]. by rewrite decide_True.
    + intros m' Hne. erewrite lookupBy_insert; [|exact Hf|done].
      by rewrite decide_False.
    + assert (m ∈ fst <$> counts) as Hin.
      { apply list_find_Some in Hf as (Hl & Hx & _). rewrite <- Hx.
        apply list_elem_of_fmap_2. by eapply list_elem_of_lookup_2. }
      rewrite decide_True by done.
      erewrite keys_insert; [done|exact Hf|done].
  - split_and!.
    + erewrite lookupBy_snoc; [|exact Hf|done]. by rewrite decide_True.
    + intros m' Hne. erewrite lookupBy_snoc; [|exact Hf|done].
      by rewrite decide_False.
    + rewrite decide_False by (by apply find_None_keys).
      by rewrite fmap_app.
Qed.

(** * Further properties of the dispatcher *)

Section dispatch_exact.
Context {Item : Type}.
Implicit Types s : DispatchState Item.

(** ** The calls of a normal run *)

Lemma forEach_callsExactly {A : Type} (l : list A)
    (body : A → DispatchState Item → Completion (DispatchState Item))
    (calls : A → list (HostCall Item)) :
  (∀ x, x ∈ l → callsExactly (body x) (calls x)) →
  callsExactly (forEach l body) (l ≫= calls).
Proof.
  induction l as [|x l IH]; intros Hb s s' Hrun.
  - injection Hrun as <-. simpl. by rewrite app_nil_r.
  - simpl in Hrun. destruct (body x s) as [s1|s1] eqn:Hx; [|done].
    rewrite (IH (λ y Hy, Hb y (list_elem_of_further _ _ _ Hy)) s1 s' Hrun).
    rewrite (Hb x (list_elem_of_here _ _) s s1 Hx).
    rewrite bind_cons. by rewrite app_assoc.
Qed.

Lemma bind_if_filter {A B : Type} (P : A → Prop) `{∀ x, Decision (P x)}
    (g : A → list B) (l : list A) :
  l ≫= (λ x, if decide (P x) then g x else []) = filter P l ≫= g.
Proof.
  induction l as [|x l IH]; [done|].
  rewrite bind_cons, filter_cons, IH. by case_decide.
Qed.

Lemma bind_singleton_fmap {A B : Type} (f : A → B) (l : list A) :
  l ≫= (λ x, [f x]) = f <$> l.
Proof. induction l as [|x l IH]; [done|]. rewrite bind_cons, IH. done. Qed.

Lemma applySimpleEvents_callsExactly inst hs ft k op :
  callsExactly (applySimpleEvents inst hs ft k op)
               (simpleCalls (Item := Item) inst hs ft k op).
Proof.
  unfold simpleCalls. rewrite <- bind_singleton_fmap, <- bind_if_filter.
  unfold applySimpleEvents. apply forEach_callsExactly.
  intros h _ s s' Hrun. simpl in Hrun.
  case_decide as Hp.
  - destruct Hp as [Ha Hm]. rewrite Ha, Hm in Hrun. by injection Hrun as <-.
  - rewrite app_nil_r.
    destruct (isFormTypeAuthorized (formTypes h) ft) eqn:Ha; simpl in Hrun;
      [|by injection Hrun as <-].
    destruct (member inst (functionName h)) eqn:Hm; try done.
    + by injection Hrun as <-.
    + destruct Hp. by split.
Qed.

Lemma applyComponentEvents_callsExactly inst hs ft k
    (getItems : list string → list Item) chk nm reg registered :
  (∀ items handler s,
     hostCalls (reg items handler s) = hostCalls s ++ registered items handler) →
  callsExactly (applyComponentEvents inst hs ft k getItems chk nm reg)
               (componentCalls inst hs ft k getItems chk registered).
Proof.
  intros Hreg. unfold componentCalls. rewrite <- bind_if_filter.
  unfold applyComponentEvents. apply forEach_callsExactly.
  intros h _ s s' Hrun. simpl in Hrun.
  case_decide as Hp.
  - destruct Hp as [Ha Hm]. rewrite Ha, Hm in Hrun. simpl in Hrun.
    eapply forEach_callsExactly; [|exact Hrun].
    intros e _ s1 s2 [= <-]. unfold applyComponentEvent.
    match goal with |- context [if ?b then _ else _] => destruct b end;
      simpl; apply Hreg.
  - rewrite app_nil_r.
    destruct (isFormTypeAuthorized (formTypes h) ft) eqn:Ha; simpl in Hrun;
      [|by injection Hrun as <-].
    destruct (member inst (functionName h)) eqn:Hm; try done.
    + by injection Hrun as <-.
    + destruct Hp. by split.
Qed.

Lemma registerBatch_hostCalls op (items : list Item) handler s :
  hostCalls (registerBatch op items handler s) =
  hostCalls s ++ batchCalls op items handler.
Proof. done. Qed.

Lemma registerTabSpecific_hostCalls st (items : list Item) handler s :
  hostCalls (registerTabSpecific st items handler s) =
  hostCalls s ++ tabCalls st items handler.
Proof.
  unfold registerTabSpecific, tabCalls. revert s.
  induction items as [|tab items IH]; intros s; simpl.
  - by rewrite app_nil_r.
  - rewrite IH. simpl. by rewrite <- app_assoc.
Qed.

Lemma steps_callsExactly
    (steps : list (DispatchState Item → Completion (DispatchState Item)))
    (css : list (list (HostCall Item))) :
  Forall2 callsExactly steps css →
  callsExactly (forEach steps (λ step, step)) (concat css).
Proof.
  induction 1 as [|step cs steps css Hstep _ IH]; intros s s' Hrun.
  - injection Hrun as <-. simpl. by rewrite app_nil_r.
  - simpl in Hrun. destruct (step s) as [s1|s1] eqn:Hs; [|done].
    rewrite (IH s1 s' Hrun), (Hstep s s1 Hs). simpl. by rewrite app_assoc.
Qed.

Lemma validateHandlers_hostCalls inst hs s :
  hostCalls (validateHandlers inst hs s) = hostCalls s ∧
  warned (validateHandlers inst hs s) = warned s.
Proof.
  unfold validateHandlers.
  by match goal with |- context [if ?b then _ else _] => destruct b end.
Qed.

(** X5. When [apply] ends normally, the calls it has made to the host are
    exactly, after those made before and in this order: for each of the 23
    steps in turn, for each entry of the class that has an event of the
    step's kind, passes the form type filter and names a function, in
    registry order, the form-level call (global kinds), or for each of its
    matching event details the batch call on the components that resolve
    and pass the type check (component kinds), or one call per such tab
    with the gated listener (tab expand and collapse). *)
Theorem apply_host_calls r inst (host : Host Item) ft s s' :
  apply r inst host ft s = Normal s' →
  hostCalls s' =
  hostCalls s ++ expectedCalls host inst (getFormEvents (constructor inst) r) ft.
Proof.
  rewrite apply_steps. unfold andThen. intros Hrun.
  destruct (forEach _ _ _) as [s2|s2] eqn:Hsteps; [|done].
  injection Hrun as <-. simpl.
  rewrite <- (proj1 (validateHandlers_hostCalls inst
                       (getFormEvents (constructor inst) r) s)).
  revert Hsteps. apply steps_callsExactly.
  unfold dispatchSteps.
  repeat (apply Forall2_cons; split); try apply Forall2_nil_2;
    first [ apply applySimpleEvents_callsExactly
          | apply applyComponentEvents_callsExactly; intros;
            first [apply registerBatch_hostCalls
                  |apply registerTabSpecific_hostCalls] ].
Qed.
End dispatch_exact.

Section dispatch_errors.
Context {Item : Type}.
Implicit Types s : DispatchState Item.

(** ** When a dispatch throws *)

Lemma forEach_Throw_inv {A : Type} (l : list A)
    (body : A → DispatchState Item → Completion (DispatchState Item)) s s' :
  forEach l body s = Throw s' → ∃ x sa, x ∈ l ∧ body x sa = Throw s'.
Proof.
  revert s. induction l as [|x l IH]; intros s Hrun; [done|].
  simpl in Hrun. destruct (body x s) as [s1|s1] eqn:Hx.
  - destruct (IH s1 Hrun) as (y & sa & Hy & Hb). exists y, sa.
    split; [by right|done].
  - injection Hrun as <-. exists x, s. split; [by left|done].
Qed.

Lemma forEach_throws {A : Type} (l : list A)
    (body : A → DispatchState Item → Completion (DispatchState Item)) x :
  x ∈ l → (∀ s, ∃ s', body x s = Throw s') →
  ∀ s, ∃ s', forEach l body s = Throw s'.
Proof.
  intros Hx Hb. induction l as [|y l IH]; intros s.
  - by apply elem_of_nil in Hx.
  - simpl. destruct (body y s) as [s1|s1] eqn:Hy; [|by eexists].
    apply elem_of_cons in Hx as [->|Hx].
    + destruct (Hb s) as [s2 Hs2]. congruence.
    + by apply IH.
Qed.

Lemma applySimpleEvents_Throw_inv inst hs ft k op s s' :
  applySimpleEvents inst hs ft k op s = Throw s' → blockedAt inst hs ft k.
Proof.
  unfold applySimpleEvents.
  intros (h & sa & [Hin Hk]%handlersOf_elem & Hb)%forEach_Throw_inv.
  exists h. split_and!; [done..| |].
  - by destruct (isFormTypeAuthorized (formTypes h) ft).
  - destruct (isFormTypeAuthorized (formTypes h) ft); [|done]. simpl in Hb.
    by destruct (member inst (functionName h)).
Qed.

Lemma applyComponentEvents_Throw_inv inst hs ft k
    (getItems : list string → list Item) chk nm reg s s' :
  applyComponentEvents inst hs ft k getItems chk nm reg s = Throw s' →
  blockedAt inst hs ft k.
Proof.
  unfold applyComponentEvents.
  intros (h & sa & [Hin Hk]%handlersOf_elem & Hb)%forEach_Throw_inv.
  exists h. split_and!; [done..| |].
  - by destruct (isFormTypeAuthorized (formTypes h) ft).
  - destruct (isFormTypeAuthorized (formTypes h) ft); [|done]. simpl in Hb.
    destruct (member inst (functionName h)); try done.
    by apply forEach_Throw_inv in Hb as (e & sb & _ & ?).
Qed.

Lemma applySimpleEvents_throws inst hs ft k op :
  blockedAt inst hs ft k →
  ∀ s, ∃ s', applySimpleEvents inst hs ft k op s = Throw s'.
Proof.
  intros (h & Hin & Hk & Ha & Hm). unfold applySimpleEvents.
  apply (forEach_throws _ _ h); [by apply handlersOf_elem|].
  intros s. rewrite Ha, Hm. by eexists.
Qed.

Lemma applyComponentEvents_throws inst hs ft k
    (getItems : list string → list Item) chk nm reg :
  blockedAt inst hs ft k →
  ∀ s, ∃ s', applyComponentEvents inst hs ft k getItems chk nm reg s
             = Throw s'.
Proof.
  intros (h & Hin & Hk & Ha & Hm). unfold applyComponentEvents.
  apply (forEach_throws _ _ h); [by apply handlersOf_elem|].
  intros s. rewrite Ha, Hm. by eexists.
Qed.

Lemma dispatch_Throw_inv (host : Host Item) inst hs ft s s' :
  forEach (dispatchSteps host inst hs ft) (λ step, step) s = Throw s' →
  blocked inst hs ft.
Proof.
  intros (step & sa & Hstep & Hb)%forEach_Throw_inv.
  unfold dispatchSteps in Hstep.
  repeat (apply elem_of_cons in Hstep as [->|Hstep];
          [first [apply applySimpleEvents_Throw_inv in Hb
                 |apply applyComponentEvents_Throw_inv in Hb];
           eexists; (split; [|exact Hb]); discriminate|]).
  by apply elem_of_nil in Hstep.
Qed.

Lemma dispatch_throws (host : Host Item) inst hs ft :
  blocked inst hs ft →
  ∀ s, ∃ s', forEach (dispatchSteps host inst hs ft) (λ step, step) s
             = Throw s'.
Proof.
  intros (k & Hk & Hb).
  assert (∃ step, step ∈ dispatchSteps host inst hs ft ∧
                  ∀ s, ∃ s', step s = Throw s') as (step & Hin & Hthrows).
  { destruct k; try done;
      first
        [ eexists; split; [|by apply applySimpleEvents_throws];
          unfold dispatchSteps;
          solve [repeat first [apply list_elem_of_here
                              |apply list_elem_of_further]]
        | eexists; split; [|by apply applyComponentEvents_throws];
          unfold dispatchSteps;
          solve [repeat first [apply list_elem_of_here
                              |apply list_elem_of_further]] ]. }
  by apply (forEach_throws _ _ step).
Qed.

(** X6. [apply] throws exactly when the class has an entry that passes the
    form type filter, names a member of the instance that is truthy but not
    a function, and has an event of a kind that some step selects (any kind
    but [OnOutputChange]); otherwise it ends normally. *)
Theorem apply_throws_iff r inst (host : Host Item) ft s :
  ((∃ s', apply r inst host ft s = Throw s') ↔
   blocked inst (getFormEvents (constructor inst) r) ft) ∧
  ((∃ s', apply r inst host ft s = Normal s') ↔
   ¬ blocked inst (getFormEvents (constructor inst) r) ft).
Proof.
  assert ((∃ s', apply r inst host ft s = Throw s') ↔
          blocked inst (getFormEvents (constructor inst) r) ft) as Hthrow.
  { rewrite apply_steps. unfold andThen. split.
    - intros [s' Hrun].
      destruct (forEach _ _ _) as [s2|s2] eqn:Hsteps; [done|].
      by eapply dispatch_Throw_inv.
    - intros Hb.
      destruct (dispatch_throws host inst _ ft Hb
                  (validateHandlers inst
                     (getFormEvents (constructor inst) r) s)) as [s2 ->].
      by eexists. }
  split; [done|]. rewrite <- Hthrow. split.
  - intros [s1 H1] [s2 H2]. congruence.
  - intros Hno. destruct (apply r inst host ft s) as [s'|s'] eqn:E;
      [by eexists|]. destruct Hno. by eexists.
Qed.

(** X8. A method bound to one global kind only, without form type filter,
    alone in its class and a function of the instance: whatever the form
    type and the form, [apply] ends normally having made exactly one call,
    the form-level subscription of that kind, and queued no warning. *)
Theorem global_dispatch_determinism r inst (host : Host Item) ft fn k op s :
  getFormEvents (constructor inst) r =
    [ {| functionName := fn; formTypes := None;
         events := [ {| type := k; componentNames := None |} ] |} ] →
  globalSubscription k = Some op →
  member inst fn = member_function →
  apply r inst host ft s =
  Normal (flushGroupedWarnings (callHost (FormCall op (BoundMethod fn)) s)).
Proof.
  intros Hr Hk Hm. unfold apply. rewrite Hr.
  destruct k; try discriminate Hk; injection Hk as <-;
    unfold andThen, validateHandlers, applyOnDataLoadEvents,
      applyOnLoadEvents, applyLoadedEvents, applyOnSaveEvents,
      applyOnPostSaveEvents, applyOnTabStateChangeEvents,
      applyOnTabExpandEvents, applyOnTabCollapseEvents,
      _applyOnTabSpecificStateEvents, applyOnChangeEvents,
      applyOnLookupTagClickEvents, applyPreSearchEvents,
      applySubGridOnLoadEvents, applySubGridOnRecordSelectEvents,
      applyOnReadyStateCompleteEvents, applyOnProcessStatusChangeEvents,
      applyOnPreProcessStatusChangeEvents, applyOnPreStageChangeEvents,
      applyOnStageChangeEvents, applyOnStageSelectedEvents,
      applyOnOutputChangeEvents, applyOnResultOpenedEvents,
      applyOnSelectionEvents, applyPostSearchEvents,
      applySimpleEvents, applyComponentEvents, handlersOf;
    simpl; rewrite Hm; reflexivity.
Qed.
End dispatch_errors.

(** * The decorators *)

Lemma decoratorOf_callOf (d : Decorated) (r : Registry) :
  decoratorOf (decoration d) (decorated_class d) (decorated_method d) r =
  upsert r (callOf d).
Proof. destruct d as [c m []]; reflexivity. Qed.

Lemma decorate_upserts (ds : list Decorated) (r : Registry) :
  decorate ds r = upserts (callOf <$> ds) r.
Proof.
  revert r. induction ds as [|d ds IH]; intros r; [done|].
  unfold decorate, upserts. simpl.
  fold (decorate ds (decoratorOf (decoration d) (decorated_class d)
                       (decorated_method d) r)).
  rewrite IH, decoratorOf_callOf. done.
Qed.

Lemma mergeUnique_nonempty {A : Type} `{EqDecision A} (l k : list A) :
  l ≠ [] ∨ k ≠ [] → mergeUnique l k ≠ [].
Proof.
  unfold mergeUnique. intros [Hl|Hk].
  - by destruct l.
  - destruct l as [|x l]; [|done]. simpl. destruct k as [|y k]; [done|].
    rewrite filter_cons_True by apply not_elem_of_nil. done.
Qed.

(** X9. In the registry that any sequence of [D365Event] decorators
    builds, every event detail is as [Types.ts] declares it (names present
    exactly for the component kinds), every component event has at least
    one name, and no form type filter is empty; so the filter of an entry
    lets a form type pass iff it is absent or holds that form type. *)
Theorem decorated_registry_well_formed (ds : list Decorated) c :
  Forall (λ h,
            Forall (λ e, well_typed e ∧ componentNames e ≠ Some [])
                   (events h) ∧
            formTypes h ≠ Some [] ∧
            ∀ ft, isFormTypeAuthorized (formTypes h) ft = true ↔
                  formTypes h = None ∨
                  ∃ l, formTypes h = Some l ∧ ft ∈ l)
         (getFormEvents c (decorate ds ∅)).
Proof.
  assert (Forall (λ h,
                    Forall (λ e, well_typed e ∧ componentNames e ≠ Some [])
                           (events h) ∧
                    formTypes h ≠ Some [])
                 (getFormEvents c (decorate ds ∅))) as Hinv.
  { rewrite decorate_upserts.
    apply (upserts_invariant _
             (λ call, (∀ e, call_event call = Some e →
                            well_typed e ∧ componentNames e ≠ Some []) ∧
                      call_formTypes call ≠ Some [])).
    - apply Forall_nil_2.
    - intros fes call [He Hf] Hall. apply upsertInList_Forall; [done|..].
      + simpl. split; [|done]. destruct (call_event call) as [e|]; [|done].
        apply Forall_singleton. by apply He.
      + intros fe _ [Hev Hft]. simpl. split.
        * destruct (call_event call) as [e|]; [|done].
          apply upsertEventDetail_Forall; [done|by apply He|].
          intros ex a b _ [Hw Hne] _ Ha Hb. split.
          -- unfold well_typed, isComponentEventDetail in *. simpl.
             by rewrite Ha in Hw.
          -- simpl. intros [= Hm]. revert Hm. apply mergeUnique_nonempty.
             left. intros ->. by rewrite Ha in Hne.
        * destruct (call_formTypes call) as [inc|]; [|done].
          intros [= Hm]. revert Hm. apply mergeUnique_nonempty.
          right. intros ->. done.
    - apply Forall_fmap, Forall_forall. intros [c' m d] _. simpl.
      destruct d; simpl; (split; [intros e [= <-]|]); done. }
  eapply Forall_impl; [exact Hinv|]. intros h [Hev Hft].
  split_and!; [done..|]. intros ft.
  rewrite isFormTypeAuthorized_spec. split.
  - intros [?|[?|?]]; [by left|done|by right].
  - intros [?|?]; [by left|by right; right].
Qed.

(** * The form type filter under merging *)

(** X10. Declaring more form types on a method: if the method already has
    a non-empty filter, every form type that passed still passes; if it
    has an entry with no filter or an empty one (which lets every form
    type pass), then afterwards a form type passes iff the declared list is
    empty or holds it. *)
Theorem filter_after_merge (r : Registry) c fn eventDetail inc b ft :
  methodBinding r c fn = Some b →
  ∃ b', methodBinding (upsertFunctionEvent c fn eventDetail (Some inc) r) c fn
          = Some b' ∧
        (default [] (formTypes b) ≠ [] →
         isFormTypeAuthorized (formTypes b) ft = true →
         isFormTypeAuthorized (formTypes b') ft = true) ∧
        (default [] (formTypes b) = [] →
         (isFormTypeAuthorized (formTypes b') ft = true ↔
          inc = [] ∨ ft ∈ inc)).
Proof.
  intros Hb. rewrite methodBinding_upsert, Hb. eexists. split; [done|].
  assert (formTypes (upsertBinding (Some b) fn eventDetail (Some inc)) =
          Some (mergeUnique (default [] (formTypes b)) inc)) as -> by done.
  split.
  - intros Hne Ha. apply isFormTypeAuthorized_spec. right; right.
    eexists. split; [done|]. apply elem_of_mergeUnique. left.
    apply isFormTypeAuthorized_spec in Ha as [Hn|[Hn|(l & Hl & Hin)]].
    + by rewrite Hn in Hne.
    + by rewrite Hn in Hne.
    + by rewrite Hl.
  - intros ->. rewrite isFormTypeAuthorized_spec. split.
    + intros [?|[[= Hm]|(l & [= <-] & Hin)]]; [done| |].
      * left. destruct inc as [|x inc]; [done|].
        exfalso. revert Hm. apply mergeUnique_nonempty. by right.
      * right. apply elem_of_mergeUnique in Hin as [Hin|Hin]; [|done].
        by apply elem_of_nil in Hin.
    + intros [->|Hin].
      * right; left. done.
      * right; right. eexists. split; [done|].
        apply elem_of_mergeUnique. by right.
Qed.

(** * The listing of registered events *)

Lemma groupDepth_app d calls1 calls2 :
  groupDepth d (calls1 ++ calls2) =
  groupDepth d calls1 ≫= (λ d', groupDepth d' calls2).
Proof.
  revert d. induction calls1 as [|c calls1 IH]; intros d; [done|].
  destruct c; simpl; [apply IH|apply IH|].
  destruct d; [done|apply IH].
Qed.

Lemma groupDepth_debug d (lines : list string) :
  groupDepth d (console_debug <$> lines) = Some d.
Proof. induction lines as [|l lines IH]; [done|]. simpl. apply IH. Qed.

Lemma formTypes_join_not_All (l : list FormType) :
  join (FormTypeLabel <$> l) ≠ "All".
Proof.
  destruct l as [|a l]; [done|].
  destruct l as [|b l]; destruct a; simpl; discriminate.
Qed.

Lemma debugLines_app calls1 calls2 :
  debugLines (calls1 ++ calls2) = debugLines calls1 ++ debugLines calls2.
Proof. unfold debugLines. apply bind_app. Qed.

Lemma debugLines_debug {A : Type} (f : A → string) (l : list A) :
  debugLines (console_debug ∘ f <$> l) = f <$> l.
Proof.
  induction l as [|x l IH]; [done|].
  change (console_debug ∘ f <$> x :: l)
    with ([console_debug (f x)] ++ (console_debug ∘ f <$> l)).
  rewrite debugLines_app, IH. done.
Qed.

Lemma debugLines_entry (h : FormEventDetails) :
  debugLines ([console_group ("+ " +:+ functionName h)] ++
              (console_debug ∘ detailLine <$> events h) ++
              [console_debug (formTypesLine h); console_groupEnd])
  = (detailLine <$> events h) ++ [formTypesLine h].
Proof. rewrite !debugLines_app, debugLines_debug. reflexivity. Qed.

(** X11. [logRegisteredFormEvents] opens one group for the class and one
    per entry and closes each of them: the groups are balanced.  Its debug
    lines are, for each entry in registry order, one line per event detail
    and then the form types line; and the form types line of an entry
    reads [All] exactly when the entry has no filter (an empty filter, which
    also lets every form type pass, does not read [All]). *)
Theorem logRegisteredFormEvents_shape inst (r : Registry) :
  groupDepth 0 (logRegisteredFormEvents inst r) = Some 0 ∧
  debugLines (logRegisteredFormEvents inst r) =
    (getFormEvents (constructor inst) r ≫= (λ h,
       (detailLine <$> events h) ++ [formTypesLine h])) ∧
  (∀ h, formTypesLine h = "FormTypes: All" ↔ formTypes h = None).
Proof.
  unfold logRegisteredFormEvents. split_and!.
  - simpl. rewrite groupDepth_app.
    assert (∀ (hs : list FormEventDetails) d,
              groupDepth d
                (hs ≫= (λ formEvents,
                   [console_group ("+ " +:+ functionName formEvents)] ++
                   (console_debug ∘ detailLine <$> events formEvents) ++
                   [console_debug (formTypesLine formEvents);
                    console_groupEnd])) = Some d) as Hblocks.
    { induction hs as [|h hs IH]; intros d; [done|].
      rewrite bind_cons, groupDepth_app. simpl.
      rewrite groupDepth_app, list_fmap_compose, groupDepth_debug. simpl.
      apply IH. }
    rewrite Hblocks. done.
  - rewrite !debugLines_app.
    change (debugLines [console_groupEnd]) with (@nil string).
    rewrite app_nil_r.
    match goal with
    | |- debugLines [console_group ?l] ++ _ = _ =>
        change (debugLines [console_group l]) with (@nil string)
    end.
    rewrite app_nil_l.
    induction (getFormEvents (constructor inst) r) as [|h hs IH]; [done|].
    by rewrite !bind_cons, debugLines_app, debugLines_entry, IH.
  - intros h. unfold formTypesLine. destruct (formTypes h) as [l|].
    + split; [|done]. intros [= Heq].
      by apply formTypes_join_not_All in Heq.
    + done.
Qed.

Section more_examples.
Import Examples.

Lemma apply_host_calls_witness :
  apply tabRegistry tabHandler (formOf [tabT1]) Update idle =
    Normal {| warningCounts := [];
              hostCalls :=
                [TabCall tabT1 (TabStateListener expanded
                                  (BoundMethod "onExpand"))];
              warned := [] |} ∧
  [TabCall tabT1 (TabStateListener expanded (BoundMethod "onExpand"))] =
  hostCalls (@idle Control) ++
  expectedCalls (formOf [tabT1]) tabHandler
    (getFormEvents (constructor tabHandler) tabRegistry) Update.
Proof.
  assert (apply tabRegistry tabHandler (formOf [tabT1]) Update idle =
            Normal {| warningCounts := [];
                      hostCalls :=
                        [TabCall tabT1 (TabStateListener expanded
                                          (BoundMethod "onExpand"))];
                      warned := [] |}) as H by (vm_compute; reflexivity).
  split; [exact H|].
  exact (apply_host_calls tabRegistry tabHandler (formOf [tabT1]) Update
           idle _ H).
Defined.

Lemma global_dispatch_determinism_witness :
  getFormEvents (constructor (instanceOf 1%positive "Totals" ["total"] []))
                totalRegistry =
    [ {| functionName := "total"; formTypes := None;
         events := [ {| type := OnLoad; componentNames := None |} ] |} ] ∧
  apply totalRegistry (instanceOf 1%positive "Totals" ["total"] [])
        (formOf []) ReadOnly idle =
  Normal (flushGroupedWarnings
            (callHost (FormCall addOnLoad (BoundMethod "total"))
                      (@idle Control))).
Proof.
  assert (getFormEvents
            (constructor (instanceOf 1%positive "Totals" ["total"] []))
            totalRegistry =
          [ {| functionName := "total"; formTypes := None;
               events := [ {| type := OnLoad; componentNames := None |} ] |} ])
    as H by (vm_compute; reflexivity).
  split; [exact H|].
  exact (global_dispatch_determinism totalRegistry
           (instanceOf 1%positive "Totals" ["total"] []) (formOf [])
           ReadOnly "total" OnLoad addOnLoad idle H eq_refl eq_refl).
Defined.

Lemma filter_after_merge_witness :
  methodBinding filteredRegistry 1%positive "onLoad" = Some filteredBinding ∧
  ∃ b', methodBinding
          (upsertFunctionEvent 1%positive "onLoad" None (Some [ReadOnly])
             filteredRegistry) 1%positive "onLoad" = Some b' ∧
        (default [] (formTypes filteredBinding) ≠ [] →
         isFormTypeAuthorized (formTypes filteredBinding) Create = true →
         isFormTypeAuthorized (formTypes b') Create = true) ∧
        (default [] (formTypes filteredBinding) = [] →
         (isFormTypeAuthorized (formTypes b') Create = true ↔
          [ReadOnly] = [] ∨ Create ∈ [ReadOnly])).
Proof.
  assert (methodBinding filteredRegistry 1%positive "onLoad"
          = Some filteredBinding) as H by (vm_compute; reflexivity).
  split; [exact H|].
  exact (filter_after_merge filteredRegistry 1%positive "onLoad" None
           [ReadOnly] filteredBinding Create H).
Defined.

End more_examples.

(** * A dispatch, turn by turn *)

Section dispatch_turns.
Context {Item : Type}.
Implicit Types s : DispatchState Item.

(** ** States after calls and messages *)

Lemma effects_nil s : effects [] [] s = s.
Proof. destruct s. unfold effects. simpl. by rewrite app_nil_r. Qed.

Lemma effects_effects calls1 messages1 calls2 messages2 s :
  effects calls2 messages2 (effects calls1 messages1 s) =
  effects (calls1 ++ calls2) (messages1 ++ messages2) s.
Proof.
  unfold effects, queueAll. simpl. by rewrite foldl_app, app_assoc.
Qed.

Lemma callHost_effects (c : HostCall Item) s : callHost c s = effects [c] [] s.
Proof. done. Qed.

Lemma logGroupedWarning_effects message s :
  logGroupedWarning message s = effects [] [message] s.
Proof. unfold effects, logGroupedWarning. simpl. by rewrite app_nil_r. Qed.

Lemma registerOf_effects reg (items : list Item) handler s :
  registerOf reg items handler s = effects (registeredBy reg items handler) [] s.
Proof.
  destruct reg as [op|st]; [done|]. simpl.
  unfold registerTabSpecific, tabCalls. revert s.
  induction items as [|tab items IH]; intros s; simpl.
  - by rewrite effects_nil.
  - by rewrite IH, callHost_effects, effects_effects.
Qed.

Lemma applyComponentEvent_effects inst ft k
    (getItems : list string → list Item) chk nm reg fn handler e s :
  applyComponentEvent inst ft k getItems chk nm (registerOf reg) fn handler e s
  = effects (registeredBy reg (foundItems getItems chk e) handler)
            (if decide (unfoundNames getItems chk nm e = []) then []
             else [notFoundMessage inst (unfoundNames getItems chk nm e)
                     k fn ft])
            s.
Proof.
  unfold applyComponentEvent. fold (foundItems getItems chk e).
  fold (unfoundNames getItems chk nm e).
  rewrite registerOf_effects.
  destruct (unfoundNames getItems chk nm e) as [|n ns]; simpl.
  - done.
  - by rewrite logGroupedWarning_effects, effects_effects, app_nil_r.
Qed.

(** ** Loops *)

Lemma forEach_singleton {A : Type} (x : A)
    (body : A → DispatchState Item → Completion (DispatchState Item)) s :
  forEach [x] body s = body x s.
Proof. simpl. by destruct (body x s). Qed.

Lemma forEach_fmap {A B : Type} (f : A → B) (l : list A)
    (body : B → DispatchState Item → Completion (DispatchState Item)) s :
  forEach (f <$> l) body s = forEach l (λ x, body (f x)) s.
Proof.
  revert s. induction l as [|x l IH]; intros s; [done|].
  simpl. destruct (body (f x) s); [apply IH|done].
Qed.

Lemma forEach_bind {A B : Type} (f : A → list B) (l : list A)
    (body : B → DispatchState Item → Completion (DispatchState Item)) s :
  forEach (l ≫= f) body s = forEach l (λ x, forEach (f x) body) s.
Proof.
  revert s. induction l as [|x l IH]; intros s; [done|].
  rewrite bind_cons, forEach_app. unfold andThen. simpl.
  destruct (forEach (f x) body s); [apply IH|done].
Qed.

(** A loop whose turns either throw, leaving the state as it is, or add
    calls and messages: it stops at the first turn that throws, with the
    calls and messages of the turns before. *)
Lemma forEach_turns {A : Type} (bad : A → Prop) `{∀ x, Decision (bad x)}
    (calls : A → list (HostCall Item)) (messages : A → list string)
    (l : list A)
    (body : A → DispatchState Item → Completion (DispatchState Item)) :
  (∀ x s, x ∈ l →
     body x s = if decide (bad x) then Throw s
                else Normal (effects (calls x) (messages x) s)) →
  ∀ s, forEach l body s =
       match list_find bad l with
       | Some (i, _) =>
           Throw (effects (take i l ≫= calls) (take i l ≫= messages) s)
       | None => Normal (effects (l ≫= calls) (l ≫= messages) s)
       end.
Proof.
  induction l as [|x l IH]; intros Hb s.
  - simpl. by rewrite effects_nil.
  - simpl. rewrite (Hb x s) by (by left). case_decide as Hx.
    + simpl. by rewrite effects_nil.
    + rewrite IH by (intros y s' Hy; apply Hb; by right).
      destruct (list_find bad l) as [[i y]|]; simpl.
      * by rewrite ?bind_cons, effects_effects.
      * by rewrite ?bind_cons, effects_effects.
Qed.

(** ** The steps as turns *)

Lemma dispatchSteps_table (host : Host Item) inst hs ft :
  dispatchSteps host inst hs ft = runStep inst hs ft <$> stepTable host.
Proof. reflexivity. Qed.

Lemma handlersOf_singleton (h : FormEventDetails) k :
  is_Some (lookupBy type k (events h)) → handlersOf [h] k = [h].
Proof. intros Hk. unfold handlersOf. by rewrite filter_cons_True. Qed.

Lemma runStep_items inst hs ft (step : Step Item) s :
  runStep inst hs ft step s =
  forEach (handlersOf hs (stepKind step)) (λ h, runItem inst ft (step, h)) s.
Proof.
  assert (∀ h, h ∈ handlersOf hs (stepKind step) →
               handlersOf [h] (stepKind step) = [h]) as Hone.
  { intros h (Hk & _)%list_elem_of_filter. by apply handlersOf_singleton. }
  unfold runItem. destruct step as [k op|k gi chk nm reg]; simpl in *.
  - unfold applySimpleEvents at 1. apply forEach_ext. intros h s' Hh.
    unfold applySimpleEvents. rewrite (Hone h Hh).
    by rewrite forEach_singleton.
  - unfold applyComponentEvents at 1. apply forEach_ext. intros h s' Hh.
    unfold applyComponentEvents. rewrite (Hone h Hh).
    by rewrite forEach_singleton.
Qed.

Lemma dispatch_work (host : Host Item) inst hs ft s :
  forEach (dispatchSteps host inst hs ft) (λ step, step) s =
  forEach (workList host hs) (runItem inst ft) s.
Proof.
  rewrite dispatchSteps_table, forEach_fmap. unfold workList.
  rewrite forEach_bind. apply forEach_ext. intros step s' _.
  by rewrite runStep_items, forEach_fmap.
Qed.

Lemma workList_kind (host : Host Item) hs item :
  item ∈ workList host hs →
  item.1 ∈ stepTable host ∧ item.2 ∈ hs ∧
  is_Some (lookupBy type (stepKind item.1) (events item.2)).
Proof.
  unfold workList. intros (step & Hitem & Hstep)%list_elem_of_bind.
  apply list_elem_of_fmap in Hitem as (h & -> & Hh).
  apply list_elem_of_filter in Hh as [Hk Hh]. done.
Qed.

Lemma runItem_effects inst ft (item : Step Item * FormEventDetails) s :
  is_Some (lookupBy type (stepKind item.1) (events item.2)) →
  runItem inst ft item s =
    if decide (offending inst ft item) then Throw s
    else Normal (effects (itemCalls inst ft item) (itemWarnings inst ft item) s).
Proof.
  destruct item as [step h]. simpl. intros Hk.
  unfold runItem, itemCalls, itemWarnings. simpl.
  destruct step as [k op|k gi chk nm reg]; simpl in *.
  - unfold applySimpleEvents. rewrite handlersOf_singleton by done.
    rewrite forEach_singleton.
    case_decide as Hoff.
    { destruct Hoff as [Ha Hm]. simpl in Ha, Hm. by rewrite Ha, Hm. }
    case_decide as Hp.
    { destruct Hp as [Ha Hm]. by rewrite Ha, Hm. }
    rewrite effects_nil.
    destruct (isFormTypeAuthorized (formTypes h) ft) eqn:Ha; simpl; [|done].
    destruct (member inst (functionName h)) eqn:Hm; [done|..].
    + destruct Hp. by split.
    + destruct Hoff. by split.
  - unfold applyComponentEvents. rewrite handlersOf_singleton by done.
    rewrite forEach_singleton.
    case_decide as Hoff.
    { destruct Hoff as [Ha Hm]. simpl in Ha, Hm. by rewrite Ha, Hm. }
    case_decide as Hp.
    { destruct Hp as [Ha Hm]. rewrite Ha, Hm. simpl.
      rewrite (forEach_turns (λ _, False)
                 (λ e, registeredBy reg (foundItems gi chk e)
                         (BoundMethod (functionName h)))
                 (λ e, if decide (unfoundNames gi chk nm e = []) then []
                       else [notFoundMessage inst (unfoundNames gi chk nm e)
                               k (functionName h) ft])).
      - assert (list_find (λ _ : EventDetail, False)
                  (filter (λ e, isMatchingComponentEvent e k) (events h))
                = None) as ->; [|done].
        apply list_find_None, Forall_forall. intros x _ Hx. exact Hx.
      - intros e s' _. case_decide as Hx; [destruct Hx|].
        by rewrite applyComponentEvent_effects. }
    rewrite effects_nil.
    destruct (isFormTypeAuthorized (formTypes h) ft) eqn:Ha; simpl; [|done].
    destruct (member inst (functionName h)) eqn:Hm; [done|..].
    + destruct Hp. by split.
    + destruct Hoff. by split.
Qed.

(** The steps of a dispatch: the turns of the work list are taken in
    order up to the first offending one. *)
Lemma dispatch_run (host : Host Item) inst hs ft s :
  forEach (dispatchSteps host inst hs ft) (λ step, step) s =
  match list_find (offending inst ft) (workList host hs) with
  | Some (i, _) =>
      Throw (effects (take i (workList host hs) ≫= itemCalls inst ft)
                     (take i (workList host hs) ≫= itemWarnings inst ft) s)
  | None =>
      Normal (effects (workList host hs ≫= itemCalls inst ft)
                      (workList host hs ≫= itemWarnings inst ft) s)
  end.
Proof.
  rewrite dispatch_work. apply forEach_turns.
  intros item s' Hitem. apply runItem_effects.
  by apply workList_kind in Hitem as (_ & _ & Hk).
Qed.

Lemma validateHandlers_effects inst hs s :
  validateHandlers inst hs s = effects [] (validationWarnings inst hs) s.
Proof.
  rewrite validateHandlers_message. unfold validationWarnings.
  case_decide; [by rewrite effects_nil|apply logGroupedWarning_effects].
Qed.

(** [apply] as a whole. *)
Lemma apply_run r inst (host : Host Item) ft s :
  apply r inst host ft s =
  let handlers := getFormEvents (constructor inst) r in
  let taken := turnsTaken inst ft (workList host handlers) in
  let s1 := effects (taken ≫= itemCalls inst ft)
              (validationWarnings inst handlers ++
               (taken ≫= itemWarnings inst ft)) s in
  if decide (Exists (offending inst ft) (workList host handlers))
  then Throw s1 else Normal (flushGroupedWarnings s1).
Proof.
  rewrite apply_steps. unfold andThen. rewrite dispatch_run.
  rewrite validateHandlers_effects. unfold turnsTaken. simpl.
  destruct (list_find _ _) as [[i item]|] eqn:Hf.
  - rewrite decide_True.
    + by rewrite effects_effects.
    + apply list_find_Some in Hf as (Hl & Hbad & _).
      apply Exists_exists. exists item. split; [|done].
      by eapply list_elem_of_lookup_2.
  - rewrite decide_False.
    + by rewrite effects_effects.
    + apply list_find_None in Hf. by apply Forall_Exists_neg.
Qed.

(** ** The calls of all turns are those of the 23 steps *)

Lemma bind_bind {A B C : Type} (f : A → list B) (g : B → list C) (l : list A) :
  (l ≫= f) ≫= g = l ≫= (λ x, f x ≫= g).
Proof.
  induction l as [|x l IH]; [done|]. by rewrite !bind_cons, bind_app, IH.
Qed.

Lemma bind_fmap {A B C : Type} (f : A → B) (g : B → list C) (l : list A) :
  (f <$> l) ≫= g = l ≫= (λ x, g (f x)).
Proof. induction l as [|x l IH]; [done|]. by rewrite fmap_cons, !bind_cons, IH. Qed.

Lemma step_calls inst hs ft (step : Step Item) :
  handlersOf hs (stepKind step) ≫= (λ h, itemCalls inst ft (step, h)) =
  match step with
  | SimpleStep k op => simpleCalls inst hs ft k op
  | ComponentStep k getItems chk _ reg =>
      componentCalls inst hs ft k getItems chk (registeredBy reg)
  end.
Proof.
  destruct step as [k op|k gi chk nm reg]; simpl.
  - unfold simpleCalls, itemCalls. simpl.
    by rewrite <- bind_singleton_fmap, <- bind_if_filter.
  - unfold componentCalls, itemCalls. simpl. by rewrite <- bind_if_filter.
Qed.

Lemma work_calls_expected (host : Host Item) inst hs ft :
  workList host hs ≫= itemCalls inst ft = expectedCalls host inst hs ft.
Proof.
  unfold workList. rewrite bind_bind.
  assert (∀ step : Step Item,
            ((λ h, (step, h)) <$> handlersOf hs (stepKind step))
              ≫= itemCalls inst ft =
            match step with
            | SimpleStep k op => simpleCalls inst hs ft k op
            | ComponentStep k getItems chk _ reg =>
                componentCalls inst hs ft k getItems chk (registeredBy reg)
            end) as Hstep.
  { intros step. rewrite bind_fmap. apply step_calls. }
  unfold stepTable. rewrite !bind_cons, !Hstep.
  unfold expectedCalls. reflexivity.
Qed.

Lemma turnsTaken_prefix inst ft (work : list (Step Item * FormEventDetails)) :
  turnsTaken inst ft work `prefix_of` work.
Proof.
  unfold turnsTaken. destruct (list_find _ _) as [[i item]|]; [|done].
  apply prefix_take.
Qed.

(** What [turnsTaken] is when some turn offends: the turns before the
    first offending one. *)
Lemma turnsTaken_split inst ft (work : list (Step Item * FormEventDetails)) :
  Exists (offending inst ft) work →
  ∃ item after,
    work = turnsTaken inst ft work ++ item :: after ∧
    offending inst ft item ∧
    Forall (λ turn, ¬ offending inst ft turn) (turnsTaken inst ft work).
Proof.
  intros Hex. unfold turnsTaken.
  destruct (list_find _ _) as [[i item]|] eqn:Hf.
  - apply list_find_Some in Hf as (Hl & Hbad & Hmin).
    exists item, (drop (S i) work). split_and!.
    + by rewrite take_drop_middle.
    + done.
    + apply Forall_forall. intros x Hx.
      apply list_elem_of_lookup in Hx as (j & Hj).
      apply lookup_take_Some in Hj as [Hj Hlt]. by eapply Hmin.
  - apply list_find_None in Hf. by apply Forall_Exists_neg in Hf.
Qed.

Lemma turnsTaken_all inst ft (work : list (Step Item * FormEventDetails)) :
  ¬ Exists (offending inst ft) work → turnsTaken inst ft work = work.
Proof.
  intros Hno. unfold turnsTaken.
  destruct (list_find _ _) as [[i item]|] eqn:Hf; [|done].
  destruct Hno. apply list_find_Some in Hf as (Hl & Hbad & _).
  apply Exists_exists. exists item. split; [|done].
  by eapply list_elem_of_lookup_2.
Qed.

Lemma countersGrow_queueAll messages counts :
  countersGrow counts (queueAll messages counts).
Proof.
  revert counts. induction messages as [|m messages IH]; intros counts.
  - apply countersGrow_refl.
  - simpl. eapply countersGrow_trans; [apply countersGrow_count|apply IH].
Qed.

(** ** What a dispatch that throws leaves behind *)

(** X12. When [apply] throws, it was stopped by the first turn, in the
    order of the dispatch (step after step and, in a step, the entries
    with an event of the step's kind in registry order), whose entry
    passes the form type filter and names a truthy member that is not a
    function.  The calls made to the host stay made: they are those made
    before followed by exactly the calls of the turns before that one, in
    order, and they are the initial segment of the calls of the whole
    dispatch that stops where the calls of the offending turn and of those
    after it would begin. *)
Theorem apply_throw_partial r inst (host : Host Item) ft s s' :
  apply r inst host ft s = Throw s' →
  ∃ before item after,
    workList host (getFormEvents (constructor inst) r)
      = before ++ item :: after ∧
    offending inst ft item ∧
    Forall (λ turn, ¬ offending inst ft turn) before ∧
    hostCalls s' = hostCalls s ++ (before ≫= itemCalls inst ft) ∧
    expectedCalls host inst (getFormEvents (constructor inst) r) ft =
      (before ≫= itemCalls inst ft) ++ ((item :: after) ≫= itemCalls inst ft).
Proof.
  rewrite apply_run. simpl. case_decide as Hex; [|done]. intros [= <-].
  destruct (turnsTaken_split inst ft _ Hex) as (item & after & Hw & Hbad & Hok).
  exists (turnsTaken inst ft
            (workList host (getFormEvents (constructor inst) r))), item, after.
  split_and!; [done..|].
  rewrite <- work_calls_expected. rewrite Hw at 1. by rewrite bind_app.
Qed.

(** X7. [apply] gives lines to the logger only in its final flush.  The
    queue at the end of the steps is the queue before the dispatch, counted
    up by the validation message, if any, and then by the not-found message
    of every event detail with a name not found, for the turns taken, in
    order; no counter is lost or lowered on the way.  When [apply] ends
    normally all turns were taken, the lines logged are the earlier ones
    followed by one line per counter of that queue, and the queue is left
    empty; when it throws nothing has been logged and that queue stays
    pending. *)
Theorem apply_logs_on_normal_end_only r inst (host : Host Item) ft s :
  countersGrow (warningCounts s)
    (pendingAfter host inst (getFormEvents (constructor inst) r) ft
       (warningCounts s)) ∧
  (∀ s', apply r inst host ft s = Normal s' →
         turnsTaken inst ft
           (workList host (getFormEvents (constructor inst) r))
         = workList host (getFormEvents (constructor inst) r) ∧
         warningCounts s' = [] ∧
         warned s' =
           warned s ++
           (warningLine <$>
              pendingAfter host inst (getFormEvents (constructor inst) r) ft
                (warningCounts s))) ∧
  (∀ s', apply r inst host ft s = Throw s' →
         warned s' = warned s ∧
         warningCounts s' =
           pendingAfter host inst (getFormEvents (constructor inst) r) ft
             (warningCounts s)).
Proof.
  unfold pendingAfter. split_and!.
  - apply countersGrow_queueAll.
  - intros s'. rewrite apply_run. simpl. case_decide as Hex; [done|].
    intros [= <-]. split_and!; [|done..]. by apply turnsTaken_all.
  - intros s'. rewrite apply_run. simpl. case_decide as Hex; [|done].
    by intros [= <-].
Qed.

(** For a kind that a step of [apply] selects, an entry that passes the
    filter and names a function ends with the calls of its turn made,
    whenever the dispatch ends normally. *)
Lemma apply_registers_turn r inst (host : Host Item) ft s s' step h c :
  apply r inst host ft s = Normal s' →
  step ∈ stepTable host →
  h ∈ handlersOf (getFormEvents (constructor inst) r) (stepKind step) →
  c ∈ itemCalls inst ft (step, h) → c ∈ hostCalls s'.
Proof.
  rewrite apply_run. simpl. case_decide as Hex; [done|]. intros [= <-].
  intros Hstep Hh Hc. simpl. apply elem_of_app. right.
  rewrite turnsTaken_all by done.
  apply list_elem_of_bind. exists (step, h). split; [done|].
  unfold workList. apply list_elem_of_bind. exists step. split; [|done].
  by apply list_elem_of_fmap_2.
Qed.

(** The same for an event detail of a component kind given to the host in
    one batch: the call is made, on the components found. *)
Lemma apply_registers_batch r inst (host : Host Item) ft s s'
    k getItems chk nm op h e :
  apply r inst host ft s = Normal s' →
  ComponentStep k getItems chk nm (BatchReg op) ∈ stepTable host →
  h ∈ getFormEvents (constructor inst) r → e ∈ events h →
  isMatchingComponentEvent e k = true →
  isFormTypeAuthorized (formTypes h) ft = true →
  member inst (functionName h) = member_function →
  BatchCall op (foundItems getItems chk e) (BoundMethod (functionName h))
    ∈ hostCalls s'.
Proof.
  intros Hrun Hstep Hh He Hmatch Ha Hm.
  eapply apply_registers_turn; [exact Hrun|exact Hstep|..].
  - simpl. apply list_elem_of_filter. split; [|done].
    apply lookupBy_is_Some. apply list_elem_of_fmap. exists e. split; [|done].
    unfold isMatchingComponentEvent in Hmatch.
    apply andb_true_iff in Hmatch as [Hty _].
    by apply bool_decide_eq_true in Hty.
  - unfold itemCalls. simpl. rewrite decide_True by done.
    apply list_elem_of_bind. exists e. split; [by left|].
    apply list_elem_of_filter. split; [by rewrite Hmatch|done].
Qed.
End dispatch_turns.

Section turn_examples.
Import Examples.

Lemma apply_throw_partial_witness :
  apply brokenRegistry brokenHandler (formOf [firstnameAttribute; kbControl])
        Create idle = Throw brokenState ∧
  ∃ before item after,
    workList (formOf [firstnameAttribute; kbControl])
             (getFormEvents (constructor brokenHandler) brokenRegistry)
      = before ++ item :: after ∧
    offending brokenHandler Create item ∧
    Forall (λ turn, ¬ offending brokenHandler Create turn) before ∧
    hostCalls brokenState =
      hostCalls (@idle Control) ++ (before ≫= itemCalls brokenHandler Create) ∧
    expectedCalls (formOf [firstnameAttribute; kbControl]) brokenHandler
      (getFormEvents (constructor brokenHandler) brokenRegistry) Create =
      (before ≫= itemCalls brokenHandler Create) ++
      ((item :: after) ≫= itemCalls brokenHandler Create).
Proof.
  assert (apply brokenRegistry brokenHandler
            (formOf [firstnameAttribute; kbControl]) Create idle
          = Throw brokenState) as H by (vm_compute; reflexivity).
  split; [exact H|].
  exact (apply_throw_partial brokenRegistry brokenHandler
           (formOf [firstnameAttribute; kbControl]) Create idle brokenState H).
Defined.

(** The dispatch of the example stops at [total]: two calls were made and
    stay made, the not-found message of [onName] stays queued, nothing is
    logged, and [late], bound to the step after, is not subscribed, though
    a dispatch without [total] subscribes it. *)
Example dispatch_stopped_half_way :
  apply brokenRegistry brokenHandler (formOf [firstnameAttribute; kbControl])
        Create idle = Throw brokenState ∧
  hostCalls brokenState =
    [FormCall addOnDataLoad (BoundMethod "onData");
     BatchCall addOnChange [firstnameAttribute] (BoundMethod "onName")] ∧
  expectedCalls (formOf [firstnameAttribute; kbControl]) brokenHandler
    (getFormEvents (constructor brokenHandler) brokenRegistry) Create =
    hostCalls brokenState ++
    [BatchCall addOnPostSearch [kbControl] (BoundMethod "late")] ∧
  turnsTaken brokenHandler Create
    (workList (formOf [firstnameAttribute; kbControl])
       (getFormEvents (constructor brokenHandler) brokenRegistry)) =
    [ (SimpleStep OnDataLoad addOnDataLoad,
       {| functionName := "onData"; formTypes := None;
          events := [ {| type := OnDataLoad; componentNames := None |} ] |});
      (ComponentStep OnChange
         (getAttribute (formOf [firstnameAttribute; kbControl]))
         (isAttribute (formOf [firstnameAttribute; kbControl]))
         (getName (formOf [firstnameAttribute; kbControl]))
         (BatchReg addOnChange),
       {| functionName := "onName"; formTypes := None;
          events := [ {| type := OnChange;
                         componentNames :=
                           Some ["firstname"; "missing"] |} ] |}) ].
Proof. split_and!; vm_compute; reflexivity. Qed.
End turn_examples.
